(** * fac_mcp: Gmail MCP server with the NASA APOD extension

    A shallow embedding of the reply composer ([gmail.service.ts]), the
    date-walk fetcher ([apod.service.ts]), the reply guardrail
    ([reply.validation.ts]), the [create_draft_reply] tool handler
    ([index.ts]), the saving of the refresh token ([auth.ts]) and the tool
    switch of the earlier copy of the server, followed by the properties
    established of them.

    Conventions of the embedding:
    - a JavaScript string is the list of its UTF-16 code units;
    - a JavaScript number is NaN, an infinity, or a finite rational;
    - a [Date] is its time value in milliseconds, or invalid; dates are
      read as Node (V8) reads them;
    - network and mail-provider calls are answered by an oracle that sees
      the calls made so far; every call is appended to a log;
    - a thrown [Error] is its message. *)

From Stdlib Require Import String Ascii.
From Stdlib Require Import ZArith NArith List Bool Lia.
From Stdlib Require Import QArith Qround DecimalString.
From Stdlib.Strings Require Byte.
Import ListNotations.

Local Open Scope Z_scope.

(* ================================================================== *)
(** * JavaScript strings *)
(* ================================================================== *)

Module JsStr.

(** A UTF-16 code unit. *)
Definition codeUnit := N.

Definition jsstring := list codeUnit.

(** An ASCII literal as a JavaScript string. *)
Fixpoint lit (s : string) : jsstring :=
  match s with
  | EmptyString => []
  | String c r => N_of_ascii c :: lit r
  end.

Fixpoint eqb (a b : jsstring) : bool :=
  match a, b with
  | [], [] => true
  | x :: a', y :: b' => N.eqb x y && eqb a' b'
  | _, _ => false
  end.

(** [WhiteSpace] and [LineTerminator] of ECMAScript: what [\s], [trim] and
    [trimEnd] treat as white space. *)
Definition isWhiteSpace (c : codeUnit) : bool :=
  ((9 <=? c) && (c <=? 13) || (c =? 32) || (c =? 160) || (c =? 5760)
   || (8192 <=? c) && (c <=? 8202) || (c =? 8232) || (c =? 8233)
   || (c =? 8239) || (c =? 8287) || (c =? 12288) || (c =? 65279))%N.

(** [s.trimStart()] *)
Fixpoint trimStart (s : jsstring) : jsstring :=
  match s with
  | [] => []
  | c :: r => if isWhiteSpace c then trimStart r else s
  end.

(** [s] without its longest suffix of code units that satisfy [p]. *)
Fixpoint dropWhileEnd (p : codeUnit -> bool) (s : jsstring) : jsstring :=
  match s with
  | [] => []
  | c :: r =>
      match dropWhileEnd p r with
      | [] => if p c then [] else [c]
      | r' => c :: r'
      end
  end.

(** [s.trimEnd()] *)
Definition trimEnd (s : jsstring) : jsstring := dropWhileEnd isWhiteSpace s.

(** [s.trim()] *)
Definition trim (s : jsstring) : jsstring := trimEnd (trimStart s).

(** [s.replace(/\s+/g, ' ')]: every maximal run of white space becomes one
    space.  [inRun] tells whether the previous code unit was white space. *)
Fixpoint collapseFrom (inRun : bool) (s : jsstring) : jsstring :=
  match s with
  | [] => []
  | c :: r =>
      if isWhiteSpace c
      then (if inRun then collapseFrom true r else 32%N :: collapseFrom true r)
      else c :: collapseFrom false r
  end.

Definition collapseWhiteSpace (s : jsstring) : jsstring := collapseFrom false s.

(** [a.startsWith(p)] *)
Fixpoint startsWith (p s : jsstring) : bool :=
  match p, s with
  | [], _ => true
  | x :: p', y :: s' => N.eqb x y && startsWith p' s'
  | _ :: _, [] => false
  end.

(** [s.indexOf(p)]: the least index at which [p] occurs, [None] for -1. *)
Fixpoint indexOf (p s : jsstring) : option nat :=
  if startsWith p s then Some O
  else match s with
       | [] => None
       | _ :: r => option_map S (indexOf p r)
       end.

(** [s.slice(0, n)] for [0 <= n]. *)
Definition sliceTo (n : nat) (s : jsstring) : jsstring := firstn n s.

(** [s.slice(a, b)] for [0 <= a <= b]. *)
Definition slice (a b : nat) (s : jsstring) : jsstring :=
  firstn (b - a) (skipn a s).

(** [lines.join(sep)] *)
Fixpoint join (sep : jsstring) (parts : list jsstring) : jsstring :=
  match parts with
  | [] => []
  | [p] => p
  | p :: rest => p ++ sep ++ join sep rest
  end.

(** [String(n)] for an integer [n]. *)
Definition ofZ (n : Z) : jsstring := lit (NilZero.string_of_int (Z.to_int n)).

(** [s.padStart(n, '0')] *)
Definition padStart0 (n : nat) (s : jsstring) : jsstring :=
  repeat 48%N (n - length s) ++ s.

Definition isDigit (c : codeUnit) : bool := ((48 <=? c) && (c <=? 57))%N.

(** The value of a string of decimal digits, as [Number] reads it. *)
Definition digitsValue (s : jsstring) : Z :=
  fold_left (fun acc c => 10 * acc + (Z.of_N c - 48)) s 0.

End JsStr.

Import JsStr.

(* ================================================================== *)
(** * JavaScript numbers *)
(* ================================================================== *)

Module JsNum.

(** A [number]: finite values are the rationals they denote. *)
Inductive JsNumber : Type :=
| JsNaN
| JsPosInf
| JsNegInf
| JsFinite (q : Q).

Definition ofInt (z : Z) : JsNumber := JsFinite (inject_Z z).

(** [Number.isFinite(v)] *)
Definition Number_isFinite (v : JsNumber) : bool :=
  match v with
  | JsFinite _ => true
  | _ => false
  end.

End JsNum.

Import JsNum.

(* ================================================================== *)
(** * JavaScript dates (UTC) *)
(* ================================================================== *)

Module JsDate.

Definition msPerDay : Z := 86400000.

(** [Day(t)] and [TimeWithinDay(t)] of ECMAScript. *)
Definition Day (t : Z) : Z := t / msPerDay.
Definition TimeWithinDay (t : Z) : Z := t mod msPerDay.

(** The day number (days since 1970-01-01) of the proleptic Gregorian date
    [y]-[m]-[d], [m] counted from 1. Days beyond the end of the month run
    on into the following months. *)
Definition daysFromCivil (y m d : Z) : Z :=
  let y' := if m <=? 2 then y - 1 else y in
  let era := y' / 400 in
  let yoe := y' - era * 400 in
  let mp := if 2 <? m then m - 3 else m + 9 in
  let doy := (153 * mp + 2) / 5 + d - 1 in
  let doe := yoe * 365 + yoe / 4 - yoe / 100 + doy in
  era * 146097 + doe - 719468.

(** The Gregorian date (year, month from 1, day of month) of a day number. *)
Definition civilFromDays (z : Z) : Z * Z * Z :=
  let z' := z + 719468 in
  let era := z' / 146097 in
  let doe := z' - era * 146097 in
  let yoe := (doe - doe / 1460 + doe / 36524 - doe / 146096) / 365 in
  let doy := doe - (365 * yoe + yoe / 4 - yoe / 100) in
  let mp := (5 * doy + 2) / 153 in
  let d := doy - (153 * mp + 2) / 5 + 1 in
  let m := if mp <? 10 then mp + 3 else mp - 9 in
  let y := yoe + era * 400 in
  (if m <=? 2 then y + 1 else y, m, d).

(** [YearFromTime], [MonthFromTime] (from 0) and [DateFromTime], computed
    in closed form; [DateFacts.time_functions_ecma] shows them to be the
    functions the standard defines by [DayFromYear] and the month tables. *)
Definition YearFromTime (t : Z) : Z := fst (fst (civilFromDays (Day t))).
Definition MonthFromTime (t : Z) : Z := snd (fst (civilFromDays (Day t))) - 1.
Definition DateFromTime (t : Z) : Z := snd (civilFromDays (Day t)).

(** [MakeDay(year, month, date)], [month] counted from 0: the day number
    of the first of the month, moved by [date - 1] days
    ([DateFacts.MakeDay_ecma]). *)
Definition MakeDay (year month date : Z) : Z :=
  let ym := year + month / 12 in
  let mn := month mod 12 in
  daysFromCivil ym (mn + 1) 1 + date - 1.

Definition MakeDate (day time : Z) : Z := day * msPerDay + time.

(** A [Date] object: [Some t] holds the time value [t]; [None] is an
    invalid date, whose time value is NaN. *)
Definition Date := option Z.

(** [TimeClip]: time values beyond 100 000 000 days from the epoch are NaN. *)
Definition TimeClip (t : Z) : Date :=
  if Z.abs t <=? 8640000000000000 then Some t else None.

(** [/^\d{4}-\d{2}-\d{2}$/.test(s)] *)
Definition matchesDateRegex (s : jsstring) : bool :=
  match s with
  | [y1; y2; y3; y4; h1; m1; m2; h2; d1; d2] =>
      isDigit y1 && isDigit y2 && isDigit y3 && isDigit y4 && (h1 =? 45)%N
      && isDigit m1 && isDigit m2 && (h2 =? 45)%N && isDigit d1 && isDigit d2
  | _ => false
  end.

(** [new Date(`${date}T00:00:00Z`)] for a [date] that matches the pattern
    (the service builds it for no other). The string is then in the
    ECMAScript date-time format; as V8 (Node) reads it, the month must lie
    in 1..12 and the day in 1..31, and a day beyond the end of the month
    runs on into the next. *)
Definition newDateMidnightZ (date : jsstring) : Date :=
  if matchesDateRegex date then
    let y := digitsValue (slice 0 4 date) in
    let m := digitsValue (slice 5 7 date) in
    let d := digitsValue (slice 8 10 date) in
    if (1 <=? m) && (m <=? 12) && (1 <=? d) && (d <=? 31)
    then TimeClip (MakeDate (MakeDay y (m - 1) d) 0)
    else None
  else None.

(** [d.getTime()]; [None] is NaN. *)
Definition getTime (d : Date) : option Z := d.

(** [d.getUTCDate()] *)
Definition getUTCDate (d : Date) : option Z := option_map DateFromTime d.

(** [d.setUTCDate(dt)], giving the date after the update. *)
Definition setUTCDate (d : Date) (dt : Z) : Date :=
  match d with
  | Some t =>
      TimeClip (MakeDate (MakeDay (YearFromTime t) (MonthFromTime t) dt)
                         (TimeWithinDay t))
  | None => None
  end.

End JsDate.

Import JsDate.

(* ================================================================== *)
(** * Effects: a call log and thrown errors *)
(* ================================================================== *)

Module Eff.

(** A computation over a state [S] that returns an [A] or throws an
    [Error], kept as its message. *)
Definition eff (S A : Type) : Type := S -> (jsstring + A) * S.

Definition ret {S A} (a : A) : eff S A := fun s => (inr a, s).

Definition throw {S A} (message : jsstring) : eff S A :=
  fun s => (inl message, s).

Definition bind {S A B} (c : eff S A) (k : A -> eff S B) : eff S B :=
  fun s =>
    match c s with
    | (inr a, s') => k a s'
    | (inl e, s') => (inl e, s')
    end.

(** [try { c } catch (err) { handler(err.message) }] *)
Definition tryCatch {S A} (c : eff S A) (handler : jsstring -> eff S A)
  : eff S A :=
  fun s =>
    match c s with
    | (inr a, s') => (inr a, s')
    | (inl e, s') => handler e s'
    end.

(** A call [c] to the outside world: the oracle [answer] sees the calls
    made so far; the call is then logged. *)
Definition perform {Call A} (c : Call) (answer : list Call -> jsstring + A)
  : eff (list Call) A :=
  fun log => (answer log, log ++ [c]).

End Eff.

Import Eff.

Declare Scope eff_scope.
Delimit Scope eff_scope with eff.
Notation "x <- c ;; k" := (bind c (fun x => k))
  (at level 61, c at next level, right associativity) : eff_scope.

(* ================================================================== *)
(** * apod.service.ts: the NASA APOD service *)
(* ================================================================== *)

Module Apod.

Local Open Scope eff_scope.

(** The body of an API response as [response.json()] yields it: any field
    may be missing. *)
Record ApodJson : Type := {
  j_date : option jsstring;
  j_explanation : option jsstring;
  j_media_type : option jsstring;
  j_title : option jsstring;
  j_url : option jsstring;
  j_hdurl : option jsstring;
  j_copyright : option jsstring
}.

(** [ApodApiResponse] *)
Record ApodApiResponse : Type := {
  date : jsstring;
  explanation : jsstring;
  media_type : option jsstring;
  title : jsstring;
  url : jsstring;
  hdurl : option jsstring;
  copyright : option jsstring
}.

(** [SpacePictureOfTheDay] *)
Record SpacePictureOfTheDay : Type := {
  requestedDate : jsstring;
  dateUsed : jsstring;
  sp_title : jsstring;
  sp_explanation : jsstring;
  mediaType : option jsstring;
  mediaUrl : jsstring;
  hdUrl : option jsstring;
  apodPageUrl : jsstring;
  attribution_copyright : option jsstring;
  creditsText : jsstring;
  spaceEditionBlock : jsstring
}.

(** The [options] argument of [getSpacePictureOfTheDay]. *)
Record Options : Type := {
  opt_date : option jsstring;
  opt_maxDaysBack : option JsNumber
}.

(** What [fetch] is asked: the query parameters appended to [baseUrl]. *)
Record ApodRequest : Type := {
  req_api_key : jsstring;
  req_date : option jsstring
}.

(** What [fetch] resolves to. [text = None]: [response.text()] rejects.
    [json = inl m]: [response.json()] rejects with message [m]. *)
Record Response : Type := {
  status : Z;
  text : option jsstring;
  json : jsstring + ApodJson
}.

(** [response.ok]: the status is in the range 200-299. *)
Definition ok (r : Response) : bool := (200 <=? status r) && (status r <=? 299).

(** An entry of [failures]. *)
Record Failure : Type := {
  f_date : jsstring;
  f_reason : jsstring
}.

(** Truthiness of an optional string: present and not empty. *)
Definition truthy (o : option jsstring) : bool :=
  match o with
  | Some (_ :: _) => true
  | _ => false
  end.

Definition orEmpty (o : option jsstring) : jsstring :=
  match o with
  | Some s => s
  | None => []
  end.

Definition emDash : codeUnit := 8212%N.
Definition ellipsis : codeUnit := 8230%N.

Definition clampInt (value : JsNumber) (min max : Z) : Z :=
  if negb (Number_isFinite value) then min
  else
    match value with
    | JsFinite q => let v := Qfloor q in Z.max min (Z.min max v)
    | _ => min
    end.

Definition truncate (text : jsstring) (maxLen : Z) : jsstring :=
  if Z.of_nat (length text) <=? maxLen then text
  else trimEnd (sliceTo (Z.to_nat (Z.max 0 (maxLen - 1))) text) ++ [ellipsis].

Definition normalizeWhitespace (text : jsstring) : jsstring :=
  trim (collapseWhiteSpace text).

Definition isValidDateFormat (date : jsstring) : bool :=
  if negb (matchesDateRegex date) then false
  else
    match getTime (newDateMidnightZ date) with
    | Some _ => true
    | None => false
    end.

Definition parseDateUTC (date : jsstring) : Date := newDateMidnightZ date.

Definition formatDateUTC (d : Date) : jsstring :=
  match d with
  | Some t =>
      let yyyy := ofZ (YearFromTime t) in
      let mm := padStart0 2 (ofZ (MonthFromTime t + 1)) in
      let dd := padStart0 2 (ofZ (DateFromTime t)) in
      yyyy ++ lit "-" ++ mm ++ lit "-" ++ dd
  | None => lit "NaN-NaN-NaN"
  end.

Definition addDaysUTC (d : Date) (days : Z) : Date :=
  let copy := d in
  match getUTCDate copy with
  | Some dt => setUTCDate copy (dt + days)
  | None => None
  end.

Definition apodPageUrlForDate (date : jsstring) : jsstring :=
  let yy := slice 2 4 date in
  let mm := slice 5 7 date in
  let dd := slice 8 10 date in
  lit "https://apod.nasa.gov/apod/ap" ++ yy ++ mm ++ dd ++ lit ".html".

Definition buildCreditsText (apod : ApodApiResponse) (apodPageUrl : jsstring)
  : jsstring :=
  let parts :=
    [lit "Source: NASA Astronomy Picture of the Day (APOD) " ++ [emDash]
       ++ lit " " ++ apodPageUrl]
    ++ (if truthy (copyright apod)
        then [lit "Credit: " ++ orEmpty (copyright apod)] else [])
    ++ [lit "API: https://api.nasa.gov/"] in
  join (lit " | ") parts.

(** The [lines] of [buildSpaceEditionBlock], before they are joined. *)
Definition spaceEditionLines (apod : ApodApiResponse)
    (apodPageUrl creditsText : jsstring) : list jsstring :=
  let shortExplanation := truncate (normalizeWhitespace (explanation apod)) 420 in
  [lit "Did you know? Space Edition!";
   lit "NASA APOD (" ++ date apod ++ lit ") " ++ [emDash] ++ lit " " ++ title apod;
   [];
   shortExplanation;
   [];
   lit "Media: " ++ url apod]
  ++ (if truthy (hdurl apod) then [lit "HD: " ++ orEmpty (hdurl apod)] else [])
  ++ [lit "More: " ++ apodPageUrl;
      creditsText].

Definition buildSpaceEditionBlock (apod : ApodApiResponse)
    (apodPageUrl creditsText : jsstring) : jsstring :=
  join [10%N] (spaceEditionLines apod apodPageUrl creditsText).

Definition toSpacePictureOfTheDay (apod : ApodApiResponse)
    (requestedDate : jsstring) : SpacePictureOfTheDay :=
  let apodPageUrl := apodPageUrlForDate (date apod) in
  let creditsText := buildCreditsText apod apodPageUrl in
  let spaceEditionBlock := buildSpaceEditionBlock apod apodPageUrl creditsText in
  {| requestedDate := requestedDate;
     dateUsed := date apod;
     sp_title := title apod;
     sp_explanation := explanation apod;
     mediaType := media_type apod;
     mediaUrl := url apod;
     hdUrl := hdurl apod;
     apodPageUrl := apodPageUrl;
     attribution_copyright := copyright apod;
     creditsText := creditsText;
     spaceEditionBlock := spaceEditionBlock |}.

Section Service.

(** The network: what [fetch] does with a request, given those made before.
    [inl m]: the promise rejects with message [m]. *)
Variable network : list ApodRequest -> ApodRequest -> jsstring + Response.

(** [this.apiKey], as the constructor resolved it. *)
Variable apiKey : jsstring.

Definition fetch (req : ApodRequest) : eff (list ApodRequest) Response :=
  perform req (fun log => network log req).

Definition fetchApod (date : option jsstring)
  : eff (list ApodRequest) ApodApiResponse :=
  response <- fetch {| req_api_key := apiKey;
                       req_date := if truthy date then date else None |} ;;
  if negb (ok response) then
    let errorText := orEmpty (text response) in
    throw (trim (lit "NASA API error (" ++ ofZ (status response) ++ lit "): "
                 ++ errorText))
  else
    match json response with
    | inl m => throw m
    | inr data =>
        if negb (truthy (j_date data)) || negb (truthy (j_title data))
           || negb (truthy (j_explanation data)) || negb (truthy (j_url data))
        then throw (lit "NASA API returned an unexpected response shape.")
        else ret {| date := orEmpty (j_date data);
                    explanation := orEmpty (j_explanation data);
                    media_type := j_media_type data;
                    title := orEmpty (j_title data);
                    url := orEmpty (j_url data);
                    hdurl := j_hdurl data;
                    copyright := j_copyright data |}
    end.

(** The message thrown once the loop is over. *)
Definition exhaustedMessage (requestedDate : jsstring) (failures : list Failure)
  : jsstring :=
  let last := nth_error failures (length failures - 1) in
  let undefined := lit "undefined" in
  lit "Unable to fetch NASA APOD after checking "
  ++ ofZ (Z.of_nat (length failures))
  ++ lit " day(s) back from " ++ requestedDate
  ++ lit ". Last error ("
  ++ match last with Some f => f_date f | None => undefined end
  ++ lit "): "
  ++ match last with Some f => f_reason f | None => undefined end.

(** The loop [for (let i = 0; i <= maxDaysBack; i++)] and the [throw] after
    it. [remaining] is the number of iterations still to run, that is
    [maxDaysBack + 1 - i]. *)
Fixpoint walk (requestedDate : jsstring) (remaining : nat) (current : Date)
    (failures : list Failure) : eff (list ApodRequest) SpacePictureOfTheDay :=
  match remaining with
  | O => throw (exhaustedMessage requestedDate failures)
  | S remaining' =>
      let dateToTry := formatDateUTC current in
      tryCatch
        (apod <- fetchApod (Some dateToTry) ;;
         ret (toSpacePictureOfTheDay apod requestedDate))
        (fun reason =>
           walk requestedDate remaining' (addDaysUTC current (-1))
                (failures ++ [{| f_date := dateToTry; f_reason := reason |}]))
  end.

(** [options?.maxDaysBack ?? 10], clamped. *)
Definition effectiveMaxDaysBack (options : Options) : Z :=
  clampInt (match opt_maxDaysBack options with
            | Some v => v
            | None => ofInt 10
            end) 0 30.

(** [getSpacePictureOfTheDay(options)]; [now] is [new Date()]. *)
Definition getSpacePictureOfTheDay (now : Date) (options : Options)
  : eff (list ApodRequest) SpacePictureOfTheDay :=
  let requestedDate :=
    match opt_date options with
    | Some d => d
    | None => formatDateUTC now
    end in
  if negb (isValidDateFormat requestedDate)
  then throw (lit "Invalid date format. Use YYYY-MM-DD.")
  else
    let maxDaysBack := effectiveMaxDaysBack options in
    let current := parseDateUTC requestedDate in
    walk requestedDate (Z.to_nat (maxDaysBack + 1)) current [].

End Service.

End Apod.

(* ================================================================== *)
(** * Buffers: UTF-8 and base64 *)
(* ================================================================== *)

Module Buffer.

Definition byte := Byte.byte.

Definition byteOf (n : N) : byte :=
  match Byte.of_N n with
  | Some b => b
  | None => Byte.x00
  end.

(** U+FFFD, which stands for a surrogate without its partner. *)
Definition replacement : list byte := [byteOf 239; byteOf 191; byteOf 189].

Definition isHighSurrogate (c : codeUnit) : bool :=
  ((55296 <=? c) && (c <=? 56319))%N.

Definition isLowSurrogate (c : codeUnit) : bool :=
  ((56320 <=? c) && (c <=? 57343))%N.

(** The UTF-8 bytes of the code point [cp]. *)
Definition utf8OfCodePoint (cp : N) : list byte :=
  (if cp <? 128 then [byteOf cp]
   else if cp <? 2048 then [byteOf (192 + cp / 64); byteOf (128 + cp mod 64)]
   else if cp <? 65536 then
     [byteOf (224 + cp / 4096); byteOf (128 + (cp / 64) mod 64);
      byteOf (128 + cp mod 64)]
   else
     [byteOf (240 + cp / 262144); byteOf (128 + (cp / 4096) mod 64);
      byteOf (128 + (cp / 64) mod 64); byteOf (128 + cp mod 64)])%N.

(** [Buffer.from(s)]: the UTF-8 encoding of the string. *)
Fixpoint from (s : jsstring) : list byte :=
  match s with
  | [] => []
  | c :: r =>
      if isHighSurrogate c then
        match r with
        | c2 :: r' =>
            if isLowSurrogate c2
            then utf8OfCodePoint (65536 + (c - 55296) * 1024 + (c2 - 56320))%N
                 ++ from r'
            else replacement ++ from r
        | [] => replacement
        end
      else if isLowSurrogate c then replacement ++ from r
      else utf8OfCodePoint c ++ from r
  end.

(** The base64 alphabet of RFC 4648 section 4. *)
Definition base64Char (i : N) : codeUnit :=
  (if i <? 26 then 65 + i
   else if i <? 52 then 97 + (i - 26)
   else if i <? 62 then 48 + (i - 52)
   else if i =? 62 then 43
   else 47)%N.

Definition padChar : codeUnit := 61%N.

(** [buf.toString('base64')] *)
Fixpoint toBase64 (bs : list byte) : jsstring :=
  match bs with
  | [] => []
  | [a] =>
      let a := Byte.to_N a in
      [base64Char (a / 4); base64Char ((a mod 4) * 16); padChar; padChar]%N
  | [a; b] =>
      let a := Byte.to_N a in
      let b := Byte.to_N b in
      [base64Char (a / 4); base64Char ((a mod 4) * 16 + b / 16);
       base64Char ((b mod 16) * 4); padChar]%N
  | a :: b :: c :: r =>
      let a := Byte.to_N a in
      let b := Byte.to_N b in
      let c := Byte.to_N c in
      [base64Char (a / 4); base64Char ((a mod 4) * 16 + b / 16);
       base64Char ((b mod 16) * 4 + c / 64); base64Char (c mod 64)]%N
      ++ toBase64 r
  end.

End Buffer.

(* ================================================================== *)
(** * RFC 4648 section 5: decoding base64url without padding *)
(* ================================================================== *)

(** The reference decoder against which the draft payload is checked. It
    follows RFC 4648 section 5 and is not part of the server. *)
Module Rfc4648.

Import Buffer.

(** The value of a character of the URL-safe alphabet. *)
Definition sextet (c : codeUnit) : option N :=
  (if (65 <=? c) && (c <=? 90) then Some (c - 65)
   else if (97 <=? c) && (c <=? 122) then Some (c - 71)
   else if (48 <=? c) && (c <=? 57) then Some (c + 4)
   else if c =? 45 then Some 62
   else if c =? 95 then Some 63
   else None)%N.

(** The character that stands for the value [i] in the URL-safe alphabet
    (table 2 of the RFC). *)
Definition urlAlphabet (i : N) : codeUnit :=
  (if i <? 26 then 65 + i
   else if i <? 52 then 71 + i
   else if i <? 62 then i - 4
   else if i =? 62 then 45
   else 95)%N.

(** The encoding of a buffer, without padding. *)
Fixpoint base64urlEncode (bs : list byte) : jsstring :=
  match bs with
  | [] => []
  | [a] =>
      let a := Byte.to_N a in
      [urlAlphabet (a / 4); urlAlphabet ((a mod 4) * 16)]%N
  | [a; b] =>
      let a := Byte.to_N a in
      let b := Byte.to_N b in
      [urlAlphabet (a / 4); urlAlphabet ((a mod 4) * 16 + b / 16);
       urlAlphabet ((b mod 16) * 4)]%N
  | a :: b :: c :: r =>
      let a := Byte.to_N a in
      let b := Byte.to_N b in
      let c := Byte.to_N c in
      [urlAlphabet (a / 4); urlAlphabet ((a mod 4) * 16 + b / 16);
       urlAlphabet ((b mod 16) * 4 + c / 64); urlAlphabet (c mod 64)]%N
      ++ base64urlEncode r
  end.

Definition isUrlSafeChar (c : codeUnit) : bool :=
  match sextet c with
  | Some _ => true
  | None => false
  end.

Fixpoint base64urlDecode (s : jsstring) : option (list byte) :=
  match s with
  | [] => Some []
  | [_] => None
  | [c0; c1] =>
      match sextet c0, sextet c1 with
      | Some x0, Some x1 => Some [byteOf (x0 * 4 + x1 / 16)]%N
      | _, _ => None
      end
  | [c0; c1; c2] =>
      match sextet c0, sextet c1, sextet c2 with
      | Some x0, Some x1, Some x2 =>
          Some [byteOf (x0 * 4 + x1 / 16); byteOf ((x1 mod 16) * 16 + x2 / 4)]%N
      | _, _, _ => None
      end
  | c0 :: c1 :: c2 :: c3 :: r =>
      match sextet c0, sextet c1, sextet c2, sextet c3, base64urlDecode r with
      | Some x0, Some x1, Some x2, Some x3, Some bs =>
          Some ([byteOf (x0 * 4 + x1 / 16); byteOf ((x1 mod 16) * 16 + x2 / 4);
                 byteOf ((x2 mod 4) * 64 + x3)]%N ++ bs)
      | _, _, _, _, _ => None
      end
  end.

End Rfc4648.

(* ================================================================== *)
(** * Reading UTF-8 *)
(* ================================================================== *)

(** The reference decoder against which [Buffer.from] is checked; it is
    not part of the server. *)
Module Utf8.

Import Buffer.

(** A string in which every surrogate is half of a pair. *)
Fixpoint wellFormed (s : jsstring) : bool :=
  match s with
  | [] => true
  | c :: r =>
      if isHighSurrogate c then
        match r with
        | c2 :: r' => isLowSurrogate c2 && wellFormed r'
        | [] => false
        end
      else negb (isLowSurrogate c) && (c <? 65536)%N && wellFormed r
  end.

Definition isContinuation (b : N) : bool := ((128 <=? b) && (b <? 192))%N.

(** The code units of a code point. *)
Definition unitsOfCodePoint (cp : N) : jsstring :=
  (if cp <? 65536 then [cp]
   else [55296 + (cp - 65536) / 1024; 56320 + (cp - 65536) mod 1024])%N.

(** The text of a buffer of UTF-8: [None] when the bytes are not the
    encoding of a sequence of code points. *)
Fixpoint decode (bs : list byte) : option jsstring :=
  match bs with
  | [] => Some []
  | b0 :: r0 =>
      let x0 := Byte.to_N b0 in
      if (x0 <? 128)%N then option_map (app [x0]) (decode r0)
      else
        match r0 with
        | [] => None
        | b1 :: r1 =>
            let x1 := Byte.to_N b1 in
            if (x0 <? 192)%N || negb (isContinuation x1) then None
            else if (x0 <? 224)%N then
              option_map (app [(x0 - 192) * 64 + (x1 - 128)])%N (decode r1)
            else
              match r1 with
              | [] => None
              | b2 :: r2 =>
                  let x2 := Byte.to_N b2 in
                  if negb (isContinuation x2) then None
                  else if (x0 <? 240)%N then
                    option_map
                      (app [(x0 - 224) * 4096 + (x1 - 128) * 64 + (x2 - 128)])%N
                      (decode r2)
                  else
                    match r2 with
                    | [] => None
                    | b3 :: r3 =>
                        let x3 := Byte.to_N b3 in
                        if negb (isContinuation x3) || (248 <=? x0)%N then None
                        else
                          option_map
                            (app (unitsOfCodePoint
                                    ((x0 - 240) * 262144 + (x1 - 128) * 4096
                                     + (x2 - 128) * 64 + (x3 - 128))))%N
                            (decode r3)
                    end
              end
        end
  end.

End Utf8.

(* ================================================================== *)
(** * gmail.service.ts: the Gmail service *)
(* ================================================================== *)

Module Gmail.

Local Open Scope eff_scope.

(** A header of a message part; the provider may leave either field out. *)
Record Header : Type := {
  name : option jsstring;
  value : option jsstring
}.

(** An entry of [listResponse.data.messages]. *)
Record MessageRef : Type := {
  ref_id : jsstring;
  ref_threadId : jsstring
}.

(** The message resource of [messages.get]. [headers = None]: no payload,
    or a payload without headers. *)
Record Message : Type := {
  id : jsstring;
  threadId : jsstring;
  snippet : option jsstring;
  headers : option (list Header)
}.

(** The draft resource of [drafts.create]. *)
Record Draft : Type := {
  draft_id : jsstring
}.

(** An element of the array [getUnreadEmails] returns. *)
Record UnreadEmail : Type := {
  sender : jsstring;
  subject : jsstring;
  body : jsstring;
  emailId : jsstring;
  um_threadId : jsstring
}.

Record DraftReplyResult : Type := {
  draftId : jsstring;
  dr_threadId : jsstring
}.

(** The calls made on the Gmail client, with [userId: 'me'] throughout. *)
Inductive GmailCall : Type :=
| MessagesList (q : jsstring)
| MessagesGet (id : jsstring) (format : jsstring) (metadataHeaders : list jsstring)
| DraftsCreate (threadId : jsstring) (raw : jsstring).

(** [headers.find((h) => h.name === n)?.value || ''] *)
Definition headerValue (n : jsstring) (hs : list Header) : jsstring :=
  match find (fun h => match name h with
                       | Some m => JsStr.eqb m n
                       | None => false
                       end) hs with
  | Some h =>
      match value h with
      | Some v => v
      | None => []
      end
  | None => []
  end.

(** [x || []] *)
Definition orNil {A} (o : option (list A)) : list A :=
  match o with
  | Some l => l
  | None => []
  end.

(** What the [async (message) => ...] callback makes of the message it was
    sent. *)
Definition toUnreadEmail (msg : Message) : UnreadEmail :=
  let headers := orNil (headers msg) in
  let fromHeader := headerValue (lit "From") headers in
  let subjectHeader := headerValue (lit "Subject") headers in
  let body := match snippet msg with Some s => s | None => [] end in
  {| sender := fromHeader;
     subject := subjectHeader;
     body := body;
     emailId := id msg;
     um_threadId := threadId msg |}.

(** [.] of a regular expression: any code unit but a line terminator. *)
Definition isLineTerminator (c : codeUnit) : bool :=
  ((c =? 10) || (c =? 13) || (c =? 8232) || (c =? 8233))%N.

Fixpoint takeLine (s : jsstring) : jsstring :=
  match s with
  | [] => []
  | c :: r => if isLineTerminator c then [] else c :: takeLine r
  end.

(** What precedes the last [>] of [s], when there is one. *)
Fixpoint beforeLastGt (s : jsstring) : option jsstring :=
  match s with
  | [] => None
  | c :: r =>
      match beforeLastGt r with
      | Some p => Some (c :: p)
      | None => if (c =? 62)%N then Some [] else None
      end
  end.

(** [s.match(/<(.+)>/)?.[1]]: the first group of the leftmost match, the
    group being as long as possible. *)
Fixpoint matchAngleGroup (s : jsstring) : option jsstring :=
  match s with
  | [] => None
  | c :: r =>
      if (c =? 60)%N then
        match beforeLastGt (takeLine r) with
        | Some (x :: p) => Some (x :: p)
        | _ => matchAngleGroup r
        end
      else matchAngleGroup r
  end.

(** [const toEmail = ...] *)
Definition toEmailOf (fromHeader : jsstring) : jsstring :=
  if existsb (fun c => (c =? 60)%N) fromHeader
  then match matchAngleGroup fromHeader with
       | Some (x :: p) => x :: p
       | _ => fromHeader
       end
  else fromHeader.

(** [const replySubject = ...] *)
Definition replySubjectOf (subjectHeader : jsstring) : jsstring :=
  if startsWith (lit "Re: ") subjectHeader
  then subjectHeader
  else lit "Re: " ++ subjectHeader.

(** [emailLines], once every [push] of [createDraftReply] has run. *)
Definition emailLinesOf (msg : Message) (replyBody : jsstring) : list jsstring :=
  let headers := orNil (headers msg) in
  let fromHeader := headerValue (lit "From") headers in
  let subjectHeader := headerValue (lit "Subject") headers in
  let messageIdHeader := headerValue (lit "Message-ID") headers in
  let replySubject := replySubjectOf subjectHeader in
  let toEmail := toEmailOf fromHeader in
  [lit "To: " ++ toEmail;
   lit "Subject: " ++ replySubject]
  ++ (match messageIdHeader with
      | _ :: _ => [lit "In-Reply-To: " ++ messageIdHeader;
                   lit "References: " ++ messageIdHeader]
      | [] => []
      end)
  ++ [lit "Content-Type: text/plain; charset=utf-8";
      [];
      replyBody].

Definition crlf : jsstring := [13%N; 10%N].

(** [const rawEmail = emailLines.join('\r\n')] *)
Definition rawEmailOf (msg : Message) (replyBody : jsstring) : jsstring :=
  join crlf (emailLinesOf msg replyBody).

(** [.replace(/\+/g, '-').replace(/\//g, '_').replace(/=+$/, '')] *)
Definition toBase64url (b64 : jsstring) : jsstring :=
  let s1 := map (fun c => if (c =? 43)%N then 45%N else c) b64 in
  let s2 := map (fun c => if (c =? 47)%N then 95%N else c) s1 in
  dropWhileEnd (fun c => (c =? 61)%N) s2.

(** [const encodedEmail = ...] *)
Definition encodedEmailOf (rawEmail : jsstring) : jsstring :=
  toBase64url (Buffer.toBase64 (Buffer.from rawEmail)).

(** The rejection that comes first in time. [order] lists positions of
    [settled] in the order in which the promises settle; the first of them
    that holds a rejection gives the reason. *)
Fixpoint firstRejected {A} (settled : list (jsstring + A)) (order : list nat)
  : option jsstring :=
  match order with
  | [] => None
  | i :: later =>
      match nth_error settled i with
      | Some (inl e) => Some e
      | _ => firstRejected settled later
      end
  end.

(** Every value, in the order of the list, or the rejection that stands
    first in the list. *)
Fixpoint valuesInOrder {S A} (settled : list (jsstring + A)) : eff S (list A) :=
  match settled with
  | [] => ret []
  | inl e :: _ => throw e
  | inr a :: rest => l <- valuesInOrder rest ;; ret (a :: l)
  end.

(** [Promise.all(promises)]: fulfilled with every value, in the order of
    the list, when every promise is fulfilled; rejected otherwise, with
    the reason of the promise that is rejected first in time. [order] is
    the order in which the promises settle, as positions in the list; the
    promises it leaves out settle after the others, in the order of the
    list. *)
Definition Promise_all {S A} (order : list nat) (settled : list (jsstring + A))
  : eff S (list A) :=
  match firstRejected settled order with
  | Some e => throw e
  | None => valuesInOrder settled
  end.

Section Service.

(** The Gmail client, as oracles that see the calls made before. *)
Variable messages_list :
  list GmailCall -> jsstring -> jsstring + option (list MessageRef).
Variable messages_get :
  list GmailCall -> jsstring -> jsstring + Message.
Variable drafts_create :
  list GmailCall -> jsstring -> jsstring -> jsstring + Draft.

(** The order in which the answers to the [messages.get] calls of a
    listing arrive, as positions in the listing, given the calls made. *)
Variable settling : list GmailCall -> list nat.

(** [messages.map(async (message) => ...)]: every callback runs up to its
    [await], so one [messages.get] per message is sent, in the order of
    the listing; each promise settles with the callback's result. *)
Fixpoint emailPromises (messages : list MessageRef) (log : list GmailCall)
  : list (jsstring + UnreadEmail) * list GmailCall :=
  match messages with
  | [] => ([], log)
  | message :: rest =>
      let call := MessagesGet (ref_id message) (lit "metadata")
                              [lit "From"; lit "Subject"] in
      let settled :=
        match messages_get log (ref_id message) with
        | inl e => inl e
        | inr msg => inr (toUnreadEmail msg)
        end in
      let '(others, log') := emailPromises rest (log ++ [call]) in
      (settled :: others, log')
  end.

Definition getUnreadEmails : eff (list GmailCall) (list UnreadEmail) :=
  listResponse <- perform (MessagesList (lit "is:unread"))
                          (fun log => messages_list log (lit "is:unread")) ;;
  let messages := orNil listResponse in
  if (length messages =? 0)%nat then ret []
  else
    fun log =>
      let '(promises, log') := emailPromises messages log in
      Promise_all (settling log') promises log'.

Definition createDraftReply (emailId replyBody : jsstring)
  : eff (list GmailCall) DraftReplyResult :=
  msg <- perform (MessagesGet emailId (lit "full") [])
                 (fun log => messages_get log emailId) ;;
  let threadId := threadId msg in
  let rawEmail := rawEmailOf msg replyBody in
  let encodedEmail := encodedEmailOf rawEmail in
  draft <- perform (DraftsCreate threadId encodedEmail)
                   (fun log => drafts_create log threadId encodedEmail) ;;
  ret {| draftId := draft_id draft; dr_threadId := threadId |}.

End Service.

End Gmail.

(* ================================================================== *)
(** * reply.validation.ts: the reply guardrail *)
(* ================================================================== *)

Module ReplyValidation.

Inductive DraftFormat : Type := plain | html.

Definition marker : jsstring := lit "Did you know? Space Edition!".

Definition isGt (c : codeUnit) : bool := (c =? 62)%N.
Definition isLt (c : codeUnit) : bool := (c =? 60)%N.

(** [s.replace(/<[^>]*>/g, ' ')]. A match starts at a [<] that has a [>]
    somewhere after it and ends at the first such [>]. [inTag] tells
    whether the scan is inside a match. *)
Fixpoint replaceTags (inTag : bool) (s : jsstring) : jsstring :=
  match s with
  | [] => []
  | c :: r =>
      if inTag then
        (if isGt c then 32%N :: replaceTags false r else replaceTags true r)
      else if isLt c && existsb isGt r then replaceTags true r
      else c :: replaceTags false r
  end.

Definition htmlOnlyMessage : jsstring :=
  lit "replyBody appears to contain only the Space Edition section. Write the email reply FIRST, then append the Space Edition block after it (use format=" ++ [34%N] ++ lit "html" ++ [34%N] ++ lit " if embedding the image).".

Definition plainOnlyMessage : jsstring :=
  lit "replyBody appears to contain only the Space Edition section. Write the email reply FIRST, then append the Space Edition block after it.".

(** [inl m]: throws [Error(m)]; [inr tt]: returns. *)
Definition assertReplyBodyHasMainReplyBeforeSpaceEdition
    (replyBody : jsstring) (format : DraftFormat) : jsstring + unit :=
  match indexOf marker replyBody with
  | None => inr tt
  | Some idx =>
      let prefix := sliceTo idx replyBody in
      match format with
      | html =>
          let prefixText := trim (collapseWhiteSpace (replaceTags false prefix)) in
          if (length prefixText =? 0)%nat then inl htmlOnlyMessage else inr tt
      | plain =>
          if (length (trim prefix) =? 0)%nat then inl plainOnlyMessage
          else inr tt
      end
  end.

End ReplyValidation.

(* ================================================================== *)
(** * index.ts: the [create_draft_reply] tool *)
(* ================================================================== *)

Module Index.

Local Open Scope eff_scope.
Import Gmail.

(** The arguments of a [create_draft_reply] call, as the input schema types
    them; a field is [None] when the call leaves it out. *)
Record DraftReplyArgs : Type := {
  arg_emailId : option jsstring;
  arg_replyBody : option jsstring
}.

(** What the handler returns. *)
Record DraftReplyOutput : Type := {
  success : bool;
  out_draftId : jsstring;
  out_threadId : jsstring;
  message : jsstring
}.

(** The data of [createMCPResponse(data, isError)], before it is printed
    as JSON. *)
Record McpResponse (A : Type) : Type := {
  data : jsstring + A;
  isError : bool
}.
Arguments data {A}.
Arguments isError {A}.

Definition requiredMessage : jsstring := lit "emailId and replyBody are required".

(** [!s] for an optional string: missing or empty. *)
Definition falsy (o : option jsstring) : bool :=
  match o with
  | Some (_ :: _) => false
  | _ => true
  end.

Section Tools.

Variable messages_get :
  list GmailCall -> jsstring -> jsstring + Message.
Variable drafts_create :
  list GmailCall -> jsstring -> jsstring -> jsstring + Draft.

(** The [handler] of [create_draft_reply]; [args = None]: the call has no
    [arguments], and [args ?? {}] stands in. *)
Definition createDraftReplyHandler (args : option DraftReplyArgs)
  : eff (list GmailCall) DraftReplyOutput :=
  let a := match args with
           | Some a => a
           | None => {| arg_emailId := None; arg_replyBody := None |}
           end in
  let emailId := arg_emailId a in
  let replyBody := arg_replyBody a in
  if falsy emailId || falsy replyBody then throw requiredMessage
  else
    result <- createDraftReply messages_get drafts_create
                (match emailId with Some s => s | None => [] end)
                (match replyBody with Some s => s | None => [] end) ;;
    ret {| success := true;
           out_draftId := draftId result;
           out_threadId := dr_threadId result;
           message := lit "Draft reply created successfully" |}.

(** The message of the [TypeError] V8 throws when [args] is [undefined]
    and is destructured. *)
Definition destructureMessage : jsstring :=
  lit "Cannot destructure property 'emailId' of 'args' as it is undefined.".

(** [case 'create_draft_reply'] of the earlier copy of the server, which
    destructures [args] as it comes, without [?? {}]. *)
Definition createDraftReplyCase (args : option DraftReplyArgs)
  : eff (list GmailCall) DraftReplyOutput :=
  match args with
  | None => throw destructureMessage
  | Some a =>
      let emailId := arg_emailId a in
      let replyBody := arg_replyBody a in
      if falsy emailId || falsy replyBody then throw requiredMessage
      else
        result <- createDraftReply messages_get drafts_create
                    (match emailId with Some s => s | None => [] end)
                    (match replyBody with Some s => s | None => [] end) ;;
        ret {| success := true;
               out_draftId := draftId result;
               out_threadId := dr_threadId result;
               message := lit "Draft reply created successfully" |}
  end.

(** The [try]/[catch] of the tool-call request handler around a tool's
    handler. *)
Definition callTool {A} (handler : eff (list GmailCall) A)
  : list GmailCall -> McpResponse A * list GmailCall :=
  fun log =>
    match handler log with
    | (inr result, log') => ({| data := inr result; isError := false |}, log')
    | (inl errorMessage, log') => ({| data := inl errorMessage; isError := true |}, log')
    end.

End Tools.

End Index.

(* ================================================================== *)
(** * Dates as ECMAScript defines them *)
(* ================================================================== *)

(** The definitions of the language standard, against which the functions
    of [JsDate] are checked. *)
Module Ecma.

(** [DayFromYear(y)]: the day number of January 1 of year [y]. *)
Definition DayFromYear (y : Z) : Z :=
  365 * (y - 1970) + (y - 1969) / 4 - (y - 1901) / 100 + (y - 1601) / 400.

(** [DaysInYear(y)] *)
Definition DaysInYear (y : Z) : Z :=
  if negb (y mod 4 =? 0) then 365
  else if negb (y mod 100 =? 0) then 366
  else if negb (y mod 400 =? 0) then 365
  else 366.

(** [InLeapYear], as a function of the year. *)
Definition InLeapYear (y : Z) : Z := if DaysInYear y =? 366 then 1 else 0.

(** [MonthFromTime], as a function of the day within the year and of
    [InLeapYear]. *)
Definition MonthFromDay (dwy leap : Z) : Z :=
  if dwy <? 31 then 0
  else if dwy <? 59 + leap then 1
  else if dwy <? 90 + leap then 2
  else if dwy <? 120 + leap then 3
  else if dwy <? 151 + leap then 4
  else if dwy <? 181 + leap then 5
  else if dwy <? 212 + leap then 6
  else if dwy <? 243 + leap then 7
  else if dwy <? 273 + leap then 8
  else if dwy <? 304 + leap then 9
  else if dwy <? 334 + leap then 10
  else 11.

(** [DateFromTime], as a function of the same. *)
Definition DateFromDay (dwy leap : Z) : Z :=
  match MonthFromDay dwy leap with
  | 0 => dwy + 1
  | 1 => dwy - 30
  | 2 => dwy - 58 - leap
  | 3 => dwy - 89 - leap
  | 4 => dwy - 119 - leap
  | 5 => dwy - 150 - leap
  | 6 => dwy - 180 - leap
  | 7 => dwy - 211 - leap
  | 8 => dwy - 242 - leap
  | 9 => dwy - 272 - leap
  | 10 => dwy - 303 - leap
  | _ => dwy - 333 - leap
  end.

End Ecma.

(* ================================================================== *)
(** * The calendar within one era, and printed dates *)
(* ================================================================== *)

Module CalendarChecks.

(** The part of [civilFromDays] that works on the day of the era. *)
Definition civilOfDoe (doe : Z) : Z * Z * Z :=
  let yoe := (doe - doe / 1460 + doe / 36524 - doe / 146096) / 365 in
  let doy := doe - (365 * yoe + yoe / 4 - yoe / 100) in
  let mp := (5 * doy + 2) / 153 in
  let d := doy - (153 * mp + 2) / 5 + 1 in
  let m := if mp <? 10 then mp + 3 else mp - 9 in
  (yoe, m, d).

(** The part of [daysFromCivil] that works on the year of the era. *)
Definition doeOfCivil (yoe m d : Z) : Z :=
  let mp := if 2 <? m then m - 3 else m + 9 in
  let doy := (153 * mp + 2) / 5 + d - 1 in
  yoe * 365 + yoe / 4 - yoe / 100 + doy.

(** For a day [doy] of a year that starts on March 1, the month and day
    of [civilFromDays] are those of ECMAScript's tables. *)
Definition tableCheck (doy : Z) : bool :=
  let mp := (5 * doy + 2) / 153 in
  let d := doy - (153 * mp + 2) / 5 + 1 in
  let m := if mp <? 10 then mp + 3 else mp - 9 in
  let agrees := fun dwy leap =>
    (Ecma.MonthFromDay dwy leap =? m - 1) && (Ecma.DateFromDay dwy leap =? d) in
  if doy <? 306 then agrees (doy + 59) 0 && agrees (doy + 60) 1
  else agrees (doy - 306) 1 && ((doy =? 365) || agrees (doy - 306) 0).
(** [f] holds of the [n] integers from [start] on. *)
Fixpoint forallRange (n : nat) (start : Z) (f : Z -> bool) : bool :=
  match n with
  | O => true
  | S k => f start && forallRange k (start + 1) f
  end.

(** Years of four digits print as four digits and read back. *)
Definition yearCheck (y : Z) : bool :=
  match ofZ y with
  | [a; b; c; d] =>
      isDigit a && isDigit b && isDigit c && isDigit d
      && (digitsValue [a; b; c; d] =? y)
  | _ => false
  end.

(** Months and days print, padded, as two digits and read back. *)
Definition twoDigitCheck (n : Z) : bool :=
  match padStart0 2 (ofZ n) with
  | [a; b] => isDigit a && isDigit b && (digitsValue [a; b] =? n)
  | _ => false
  end.

End CalendarChecks.

(* ================================================================== *)
(** * The trace of a date walk *)
(* ================================================================== *)

Module ApodTrace.

Import Apod.

(** The time value of attempt [i] of a walk that starts at [t0]. *)
Definition timeOfAttempt (t0 : Z) (i : nat) : Z := t0 - Z.of_nat i * msPerDay.

(** The request of attempt [i]. *)
Definition requestOfAttempt (apiKey : jsstring) (t0 : Z) (i : nat) : ApodRequest :=
  {| req_api_key := apiKey;
     req_date := Some (formatDateUTC (Some (timeOfAttempt t0 i))) |}.

(** The requests of the attempts before attempt [n]. *)
Definition requestsBefore (apiKey : jsstring) (t0 : Z) (n : nat) : list ApodRequest :=
  map (requestOfAttempt apiKey t0) (seq 0 n).

(** The body lacks one of [date], [title], [explanation], [url]. *)
Definition missingField (data : ApodJson) : bool :=
  negb (truthy (j_date data)) || negb (truthy (j_title data))
  || negb (truthy (j_explanation data)) || negb (truthy (j_url data)).

(** An attempt fails when [fetch] rejects, the status is not 2xx, the body
    is not JSON, or the body lacks a field. *)
Definition attemptFails (answer : jsstring + Response) : bool :=
  match answer with
  | inl _ => true
  | inr r =>
      negb (ok r)
      || match json r with
         | inl _ => true
         | inr data => missingField data
         end
  end.

(** The reason recorded for a failed attempt. *)
Definition failureReason (answer : jsstring + Response) : jsstring :=
  match answer with
  | inl m => m
  | inr r =>
      if negb (ok r)
      then trim (lit "NASA API error (" ++ ofZ (status r) ++ lit "): "
                 ++ orEmpty (text r))
      else match json r with
           | inl m => m
           | inr _ => lit "NASA API returned an unexpected response shape."
           end
  end.

(** The record [fetchApod] returns for a body that has every field. *)
Definition apodOfJson (data : ApodJson) : ApodApiResponse :=
  {| date := orEmpty (j_date data);
     explanation := orEmpty (j_explanation data);
     media_type := j_media_type data;
     title := orEmpty (j_title data);
     url := orEmpty (j_url data);
     hdurl := j_hdurl data;
     copyright := j_copyright data |}.

(** What [fetchApod] makes of the answer to its request. *)
Definition fetchOutcome (answer : jsstring + Response)
  : jsstring + ApodApiResponse :=
  if attemptFails answer then inl (failureReason answer)
  else
    match answer with
    | inr r =>
        match json r with
        | inr data => inr (apodOfJson data)
        | inl m => inl m
        end
    | inl m => inl m
    end.

Section Walk.

Variable network : list ApodRequest -> ApodRequest -> jsstring + Response.
Variable apiKey : jsstring.
Variable t0 : Z.

(** The answer to attempt [i], the attempts before it having been logged
    after [log]. *)
Definition answerOfAttempt (log : list ApodRequest) (i : nat)
  : jsstring + Response :=
  network (log ++ requestsBefore apiKey t0 i) (requestOfAttempt apiKey t0 i).


End Walk.

(** The date a call asks for: the argument, or today. *)
Definition requestedDateOf (now : Date) (options : Options) : jsstring :=
  match opt_date options with
  | Some d => d
  | None => formatDateUTC now
  end.

End ApodTrace.

(* ================================================================== *)
(** * Scenarios of apod.service.test.ts *)
(* ================================================================== *)

Module ApodScenarios.

Import Apod.

Definition testKey : jsstring := lit "TEST_KEY".

(** [new Date()] on 2026-01-22 at noon. *)
Definition noon20260122 : Date := Some 1769083200000.

(** Every request is answered 500 "Server error". *)
Definition serverError : list ApodRequest -> ApodRequest -> jsstring + Response :=
  fun _ _ =>
    inr {| status := 500;
           text := Some (lit "Server error");
           json := inl (lit "Unexpected token") |}.

Definition previousDayBody : ApodJson :=
  {| j_date := Some (lit "2026-01-21");
     j_explanation := Some (lit "Explanation");
     j_media_type := Some (lit "image");
     j_title := Some (lit "Previous Day APOD");
     j_url := Some (lit "https://example.com/prev.jpg");
     j_hdurl := None;
     j_copyright := None |}.

(** The first request is answered 404, every later one with the picture of
    2026-01-21. *)
Definition firstDateFails : list ApodRequest -> ApodRequest -> jsstring + Response :=
  fun log _ =>
    match log with
    | [] => inr {| status := 404;
                   text := Some (lit "Not found");
                   json := inl (lit "Unexpected token") |}
    | _ => inr {| status := 200; text := None; json := inr previousDayBody |}
    end.

(** Every request is answered with a picture dated 2026-01-23, whatever
    date was asked for. *)
Definition laterDateBody : ApodJson :=
  {| j_date := Some (lit "2026-01-23");
     j_explanation := Some (lit "Explanation");
     j_media_type := Some (lit "image");
     j_title := Some (lit "Next Day APOD");
     j_url := Some (lit "https://example.com/next.jpg");
     j_hdurl := None;
     j_copyright := None |}.

Definition answersLaterDate : list ApodRequest -> ApodRequest -> jsstring + Response :=
  fun _ _ => inr {| status := 200; text := None; json := inr laterDateBody |}.

(** A picture of 2026-01-22 with the given explanation. *)
Definition apodExplaining (text : jsstring) : ApodApiResponse :=
  {| date := lit "2026-01-22";
     explanation := text;
     media_type := Some (lit "image");
     title := lit "Test APOD";
     url := lit "https://example.com/image.jpg";
     hdurl := None;
     copyright := None |}.

(** The fourth of the lines of the block of a picture. *)
Definition explanationLine (apod : ApodApiResponse) : option jsstring :=
  nth_error (spaceEditionLines apod (apodPageUrlForDate (date apod))
               (buildCreditsText apod (apodPageUrlForDate (date apod)))) 3.

Definition optionsOf (date : string) (maxDaysBack : JsNumber) : Options :=
  {| opt_date := Some (lit date); opt_maxDaysBack := Some maxDaysBack |}.

End ApodScenarios.

(* ================================================================== *)
(** * The layout of a reply and the trace of the Gmail calls *)
(* ================================================================== *)

Module GmailTrace.

Import Gmail.

(** The values of the 64 characters of a base64 alphabet. *)
Definition sextets : list N := map N.of_nat (seq 0 64).

(** A character of the base64 alphabet as [toBase64url] rewrites it. *)
Definition urlChar (c : codeUnit) : codeUnit :=
  let c1 := if (c =? 43)%N then 45%N else c in
  if (c1 =? 47)%N then 95%N else c1.

Definition isPad (c : codeUnit) : bool := (c =? 61)%N.

(** The value [i] is written as the character of the URL-safe alphabet for
    [i], which reads back as [i] and is not the padding character. *)
Definition sextetCheck (i : N) : bool :=
  match Rfc4648.sextet (urlChar (Buffer.base64Char i)) with
  | Some j =>
      (j =? i)%N && negb (isPad (urlChar (Buffer.base64Char i)))
      && (urlChar (Buffer.base64Char i) =? Rfc4648.urlAlphabet i)%N
  | None => false
  end.

(** The Message-ID the composer extracts from the original message. *)
Definition messageIdOf (msg : Message) : jsstring :=
  headerValue (lit "Message-ID") (orNil (headers msg)).

(** The two threading lines for a Message-ID. *)
Definition threadingLines (messageId : jsstring) : list jsstring :=
  [lit "In-Reply-To: " ++ messageId; lit "References: " ++ messageId].

(** The header block of the reply: the lines before the empty line. *)
Definition headerLinesOf (msg : Message) : list jsstring :=
  let hs := orNil (headers msg) in
  [lit "To: " ++ toEmailOf (headerValue (lit "From") hs);
   lit "Subject: " ++ replySubjectOf (headerValue (lit "Subject") hs)]
  ++ (match messageIdOf msg with
      | [] => []
      | _ :: _ => threadingLines (messageIdOf msg)
      end)
  ++ [lit "Content-Type: text/plain; charset=utf-8"].

(** A line that sets [In-Reply-To] or [References]. *)
Definition isThreadingLine (line : jsstring) : bool :=
  startsWith (lit "In-Reply-To: ") line || startsWith (lit "References: ") line.

(** The header [h] is named [n]. *)
Definition named (n : jsstring) (h : Header) : bool :=
  match name h with
  | Some m => JsStr.eqb m n
  | None => false
  end.

(** The [messages.get] call [getUnreadEmails] makes for a listed message. *)
Definition metadataCall (ref : MessageRef) : GmailCall :=
  MessagesGet (ref_id ref) (lit "metadata") [lit "From"; lit "Subject"].

Definition listCall : GmailCall := MessagesList (lit "is:unread").

End GmailTrace.

(* ================================================================== *)
(** * Scenarios of gmail.service.test.ts *)
(* ================================================================== *)

Module GmailScenarios.

Import Gmail.

Definition header (n v : string) : Header :=
  {| name := Some (lit n); value := Some (lit v) |}.

Definition message1 : Message :=
  {| id := lit "msg1";
     threadId := lit "thread1";
     snippet := Some (lit "This is a test email snippet...");
     headers := Some [header "From" "sender@example.com";
                      header "Subject" "Test Subject 1"] |}.

Definition message2 : Message :=
  {| id := lit "msg2";
     threadId := lit "thread2";
     snippet := Some (lit "Another email snippet...");
     headers := Some [header "From" "another@example.com";
                      header "Subject" "Test Subject 2"] |}.

(** The listing [msg1], [msg2]. *)
Definition listsTwo : list GmailCall -> jsstring -> jsstring + option (list MessageRef) :=
  fun _ _ => inr (Some [{| ref_id := lit "msg1"; ref_threadId := lit "thread1" |};
                        {| ref_id := lit "msg2"; ref_threadId := lit "thread2" |}]).

(** [messages.get] answers with [message1] for [msg1] and with [message2]
    for any other id. *)
Definition getsTwo : list GmailCall -> jsstring -> jsstring + Message :=
  fun _ i => if JsStr.eqb i (lit "msg1") then inr message1 else inr message2.

Definition fetchedTwo (i : nat) : Message :=
  match i with
  | O => message1
  | _ => message2
  end.

(** The original message of the tests of [createDraftReply]. *)
Definition original : Message :=
  {| id := lit "msg1";
     threadId := lit "thread1";
     snippet := None;
     headers := Some [header "From" "original@example.com";
                      header "Subject" "Original Subject";
                      header "Message-ID" "<original-message-id>"] |}.

(** A message whose [Message-ID] header has an empty value. *)
Definition emptyMessageId : Message :=
  {| id := lit "msg1";
     threadId := lit "thread1";
     snippet := None;
     headers := Some [header "From" "original@example.com";
                      header "Subject" "Original Subject";
                      {| name := Some (lit "Message-ID"); value := Some [] |}] |}.

Definition getsOriginal : list GmailCall -> jsstring -> jsstring + Message :=
  fun _ _ => inr original.

Definition createsDraft1 : list GmailCall -> jsstring -> jsstring -> jsstring + Draft :=
  fun _ _ _ => inr {| draft_id := lit "draft1" |}.

End GmailScenarios.

(* ================================================================== *)
(** * The guardrail as the specification words it *)
(* ================================================================== *)

Module GuardrailSpec.

Import ReplyValidation.

(** The specification's wording, "strip all tag-like substrings
    ([<...>])": a tag is deleted, where [replaceTags] puts a space. *)
Fixpoint stripTags (inTag : bool) (s : jsstring) : jsstring :=
  match s with
  | [] => []
  | c :: r =>
      if inTag then
        (if isGt c then stripTags false r else stripTags true r)
      else if isLt c && existsb isGt r then stripTags true r
      else c :: stripTags false r
  end.

Definition isEmpty (s : jsstring) : bool :=
  match s with
  | [] => true
  | _ :: _ => false
  end.

(** The specification's wording of the test on the prefix: empty "in
    plain mode after trimming the raw prefix, in HTML mode after stripping
    tag-like substrings, collapsing whitespace runs to single spaces, and
    trimming". *)
Definition emptyAfterProcessing (format : DraftFormat) (prefix : jsstring) : bool :=
  match format with
  | plain => isEmpty (trim prefix)
  | html => isEmpty (trim (collapseWhiteSpace (stripTags false prefix)))
  end.

(** [p] occurs in [s] at index [i]. *)
Definition occursAt (p s : jsstring) (i : nat) : Prop :=
  exists post, s = firstn i s ++ p ++ post /\ length (firstn i s) = i.

(** The error of the guardrail in a format. *)
Definition missingReplyBodyError (format : DraftFormat) : jsstring :=
  match format with
  | plain => plainOnlyMessage
  | html => htmlOnlyMessage
  end.

End GuardrailSpec.

(* ================================================================== *)
(** * auth.ts: saving the refresh token *)
(* ================================================================== *)

Module Auth.

(** [s.split(sep)] for a separator of one code unit: the pieces between
    the separators, one piece at least. *)
Fixpoint splitOn (sep : codeUnit) (s : jsstring) : list jsstring :=
  match s with
  | [] => [[]]
  | c :: r =>
      if (c =? sep)%N then [] :: splitOn sep r
      else match splitOn sep r with
           | piece :: pieces => (c :: piece) :: pieces
           | [] => [[c]]
           end
  end.

Definition newline : codeUnit := 10%N.

Definition tokenKey : jsstring := lit "GMAIL_REFRESH_TOKEN=".

(** [`GMAIL_REFRESH_TOKEN=${refreshToken}`] *)
Definition tokenLine (refreshToken : jsstring) : jsstring :=
  tokenKey ++ refreshToken.

(** [updatedLines], once [main] has mapped the lines and pushed the new
    line when none was found. [found] is set by the callback of [map] at
    the first line that starts with the key. *)
Definition updatedLinesOf (envContent refreshToken : jsstring) : list jsstring :=
  let lines := splitOn newline envContent in
  let found := existsb (startsWith tokenKey) lines in
  let updatedLines :=
    map (fun line => if startsWith tokenKey line then tokenLine refreshToken
                     else line) lines in
  if negb found then updatedLines ++ [tokenLine refreshToken] else updatedLines.

(** What [main] writes to [.env]; [file = None]: the file does not exist,
    and [envContent] stays empty. *)
Definition writtenEnv (file : option jsstring) (refreshToken : jsstring) : jsstring :=
  let envContent := match file with Some content => content | None => [] end in
  join [newline] (updatedLinesOf envContent refreshToken).

(** The lines of a file that do not start with the key. *)
Definition otherLines (content : jsstring) : list jsstring :=
  filter (fun line => negb (startsWith tokenKey line)) (splitOn newline content).

(** The lines of a file that start with the key. *)
Definition tokenLines (content : jsstring) : list jsstring :=
  filter (startsWith tokenKey) (splitOn newline content).

Definition hasNewline (s : jsstring) : bool := existsb (fun c => (c =? newline)%N) s.

End Auth.

(* ================================================================== *)
(** * The tool-call handler of the earlier copy of the server *)
(* ================================================================== *)

Module ToolSwitch.

Local Open Scope eff_scope.
Import Gmail Index.

(** What a tool gives to [createMCPResponse]. *)
Inductive ToolOutput : Type :=
| UnreadEmails (emails : list UnreadEmail)
| DraftCreated (output : DraftReplyOutput).

Section Handler.

Variable messages_list :
  list GmailCall -> jsstring -> jsstring + option (list MessageRef).
Variable messages_get :
  list GmailCall -> jsstring -> jsstring + Message.
Variable drafts_create :
  list GmailCall -> jsstring -> jsstring -> jsstring + Draft.
Variable settling : list GmailCall -> list nat.

(** The [switch (name)] inside the [try]. *)
Definition toolCase (name : jsstring) (args : option DraftReplyArgs)
  : eff (list GmailCall) ToolOutput :=
  if JsStr.eqb name (lit "get_unread_emails") then
    emails <- getUnreadEmails messages_list messages_get settling ;;
    ret (UnreadEmails emails)
  else if JsStr.eqb name (lit "create_draft_reply") then
    output <- createDraftReplyCase messages_get drafts_create args ;;
    ret (DraftCreated output)
  else throw (lit "Unknown tool: " ++ name).

(** The handler of [CallToolRequestSchema]. *)
Definition handleCallTool (name : jsstring) (args : option DraftReplyArgs)
  : list GmailCall -> McpResponse ToolOutput * list GmailCall :=
  callTool (toolCase name args).

End Handler.

End ToolSwitch.

(* ================================================================== *)
(** * Text in which white space is single spaces between words *)
(* ================================================================== *)

Module TextShape.

(** Every white-space code unit of [s] is a space (U+0020) and does not
    follow another white-space code unit; [afterWhiteSpace] tells whether
    what precedes [s] counts as white space. *)
Fixpoint singleSpaced (afterWhiteSpace : bool) (s : jsstring) : bool :=
  match s with
  | [] => true
  | c :: r =>
      if isWhiteSpace c
      then (c =? 32)%N && negb afterWhiteSpace && singleSpaced true r
      else singleSpaced false r
  end.

End TextShape.

(* ================================================================== *)
(** * The lengths of the months *)
(* ================================================================== *)

Module MonthLength.

(** The number of days of month [m] (from 1) of year [y], as the month
    table of the standard has it. *)
Definition daysInMonth (y m : Z) : Z :=
  if m =? 2 then 28 + Ecma.InLeapYear y
  else if (m =? 4) || (m =? 6) || (m =? 9) || (m =? 11) then 30
  else 31.

End MonthLength.

(* ================================================================== *)
(** * Further scenarios *)
(* ================================================================== *)

Module MoreScenarios.

Import Apod Gmail Auth.

(** A [.env] file with the two client settings and an old token. *)
Definition envWithToken : jsstring :=
  lit "GMAIL_CLIENT_ID=abc" ++ [newline]
  ++ lit "GMAIL_REFRESH_TOKEN=old" ++ [newline]
  ++ lit "GMAIL_CLIENT_SECRET=xyz".

(** 2026-01-22 at 15:30:45 UTC. *)
Definition afternoon20260122 : Z := 1769095845000.

(** [messages.get] rejects for every id, late for [msg1] and early for
    any other id. *)
Definition failsBoth : list GmailCall -> jsstring -> jsstring + Message :=
  fun _ i => if JsStr.eqb i (lit "msg1") then inl (lit "slow failure")
             else inl (lit "fast failure").

(** The answer for the second listed message arrives before the answer
    for the first. *)
Definition secondSettlesFirst : list GmailCall -> list nat :=
  fun _ => [1%nat; 0%nat].

(** The answers arrive in the order of the listing. *)
Definition settlesInListingOrder : list GmailCall -> list nat :=
  fun _ => [].

(** The listing of the one message [m1]. *)
Definition listsOne : list GmailCall -> jsstring -> jsstring + option (list MessageRef) :=
  fun _ _ => inr (Some [{| ref_id := lit "m1"; ref_threadId := lit "t1" |}]).

(** [messages.get] answers with a message that has other ids than the
    ones asked for. *)
Definition getsOther : list GmailCall -> jsstring -> jsstring + Message :=
  fun _ _ => inr {| id := lit "OTHER";
                    threadId := lit "OTHER-THREAD";
                    snippet := None;
                    headers := None |}.

End MoreScenarios.

(* ================================================================== *)
(** * Properties *)
(* ================================================================== *)

(** Linear arithmetic with quotients and remainders by constants. *)
Ltac euclid := zify; Z.to_euclidean_division_equations; lia.

(** ** Dates *)

Module DateFacts.

Import Ecma CalendarChecks.

Lemma forallRange_spec n : forall start f,
  forallRange n start f = true ->
  forall z, start <= z < start + Z.of_nat n -> f z = true.
Proof.
  induction n as [|k IH]; intros start f H z Hz.
  - simpl in Hz. lia.
  - simpl in H. apply andb_prop in H. destruct H as [H0 H1].
    destruct (Z.eq_dec z start) as [->|Hne]; [exact H0|].
    apply (IH (start + 1) f H1). lia.
Qed.

Lemma yearCheck_all : forallRange (Z.to_nat 9000) 1000 yearCheck = true.
Proof. vm_compute. reflexivity. Qed.

Lemma twoDigitCheck_all : forallRange (Z.to_nat 31) 1 twoDigitCheck = true.
Proof. vm_compute. reflexivity. Qed.

(** Within an era the year, month and day are in range and give back the
    day of the era. *)
Lemma civilOfDoe_spec doe :
  0 <= doe < 146097 ->
  let '(yoe, m, d) := civilOfDoe doe in
  0 <= yoe <= 399 /\ 1 <= m <= 12 /\ 1 <= d <= 31
  /\ doeOfCivil yoe m d = doe.
Proof.
  intros H. unfold civilOfDoe, doeOfCivil. cbv zeta.
  set (yoe := (doe - doe / 1460 + doe / 36524 - doe / 146096) / 365).
  set (doy := doe - (365 * yoe + yoe / 4 - yoe / 100)).
  assert (Hy : 0 <= yoe <= 399 /\ 0 <= doy <= 365).
  { subst doy yoe. euclid. }
  destruct Hy as [Hy Hd].
  set (mp := (5 * doy + 2) / 153).
  assert (Hmp : 0 <= mp <= 11 /\ 0 <= doy - (153 * mp + 2) / 5 <= 30).
  { subst mp. euclid. }
  destruct Hmp as [Hmp Hdom].
  destruct (Z.ltb_spec mp 10).
  - destruct (Z.ltb_spec 2 (mp + 3)); [|lia].
    replace (mp + 3 - 3) with mp by lia. fold doy. lia.
  - destruct (Z.ltb_spec 2 (mp - 9)); [lia|].
    replace (mp - 9 + 9) with mp by lia. fold doy. lia.
Qed.

Lemma civilFromDays_era z :
  civilFromDays z =
  let era := (z + 719468) / 146097 in
  let '(yoe, m, d) := civilOfDoe ((z + 719468) mod 146097) in
  (if m <=? 2 then yoe + era * 400 + 1 else yoe + era * 400, m, d).
Proof.
  unfold civilFromDays, civilOfDoe. cbv zeta.
  rewrite Z.mod_eq by lia.
  replace ((z + 719468) / 146097 * 146097)
    with (146097 * ((z + 719468) / 146097)) by lia.
  reflexivity.
Qed.

Lemma daysFromCivil_era era yoe m d :
  0 <= yoe <= 399 ->
  daysFromCivil (if m <=? 2 then yoe + era * 400 + 1 else yoe + era * 400) m d
  = era * 146097 + doeOfCivil yoe m d - 719468.
Proof.
  intros Hy. unfold daysFromCivil, doeOfCivil. cbv zeta.
  assert (Hy' : (if m <=? 2
                 then (if m <=? 2 then yoe + era * 400 + 1 else yoe + era * 400) - 1
                 else (if m <=? 2 then yoe + era * 400 + 1 else yoe + era * 400))
                = yoe + era * 400).
  { destruct (m <=? 2); lia. }
  rewrite Hy'.
  assert (He : (yoe + era * 400) / 400 = era).
  { rewrite Z.div_add by lia. rewrite Z.div_small by lia. lia. }
  rewrite He.
  replace (yoe + era * 400 - era * 400) with yoe by lia.
  reflexivity.
Qed.

(** The date of a day number is a date of the calendar, and the day number
    of that date is the one started from. *)
Lemma civilFromDays_spec z :
  let '(y, m, d) := civilFromDays z in
  daysFromCivil y m d = z /\ 1 <= m <= 12 /\ 1 <= d <= 31.
Proof.
  rewrite civilFromDays_era. cbv zeta.
  pose proof (Z.mod_pos_bound (z + 719468) 146097 ltac:(lia)) as Hdoe.
  pose proof (civilOfDoe_spec _ Hdoe) as Hc.
  destruct (civilOfDoe ((z + 719468) mod 146097)) as [[yoe m] d].
  destruct Hc as (Hy & Hm & Hd & Hc).
  rewrite daysFromCivil_era by lia.
  pose proof (Z.div_mod (z + 719468) 146097 ltac:(lia)).
  repeat split; lia.
Qed.

(** The day number is linear in the day of the month. *)
Lemma daysFromCivil_day y m d :
  daysFromCivil y m d = daysFromCivil y m 1 + d - 1.
Proof. unfold daysFromCivil. cbv zeta. lia. Qed.

Lemma MakeDay_of_time t k :
  MakeDay (YearFromTime t) (MonthFromTime t) (DateFromTime t + k) = Day t + k.
Proof.
  unfold MakeDay, YearFromTime, MonthFromTime, DateFromTime.
  pose proof (civilFromDays_spec (Day t)) as H.
  destruct (civilFromDays (Day t)) as [[y m] d]. simpl fst; simpl snd.
  destruct H as (Hd & Hm & _). cbv zeta.
  rewrite Z.div_small by lia. rewrite Z.mod_small by lia.
  replace (y + 0) with y by lia. replace (m - 1 + 1) with m by lia.
  rewrite (daysFromCivil_day y m d) in Hd. lia.
Qed.

Lemma time_split t : Day t * msPerDay + TimeWithinDay t = t.
Proof.
  unfold Day, TimeWithinDay.
  pose proof (Z.div_mod t msPerDay ltac:(unfold msPerDay; lia)). lia.
Qed.

(** [addDaysUTC] moves the time value by whole days. *)
Lemma addDaysUTC_time t k :
  Z.abs (t + k * msPerDay) <= 8640000000000000 ->
  Apod.addDaysUTC (Some t) k = Some (t + k * msPerDay).
Proof.
  intros Hr. unfold Apod.addDaysUTC, getUTCDate, setUTCDate. simpl.
  rewrite MakeDay_of_time. unfold MakeDate, TimeClip.
  pose proof (time_split t) as Hs.
  replace ((Day t + k) * msPerDay + TimeWithinDay t) with (t + k * msPerDay) by lia.
  destruct (Z.leb_spec (Z.abs (t + k * msPerDay)) 8640000000000000); [reflexivity | lia].
Qed.

Lemma tableCheck_all : forallRange (Z.to_nat 366) 0 tableCheck = true.
Proof. vm_compute. reflexivity. Qed.

Lemma DayFromYear_period y k : DayFromYear (y + k * 400) = DayFromYear y + k * 146097.
Proof.
  unfold DayFromYear.
  replace (y + k * 400 - 1969) with (y - 1969 + (k * 100) * 4) by lia.
  replace (y + k * 400 - 1901) with (y - 1901 + (k * 4) * 100) by lia.
  replace (y + k * 400 - 1601) with (y - 1601 + k * 400) by lia.
  rewrite !Z.div_add by lia. lia.
Qed.

Lemma InLeapYear_period y k : InLeapYear (y + k * 400) = InLeapYear y.
Proof.
  unfold InLeapYear, DaysInYear.
  replace (y + k * 400) with (y + (k * 100) * 4) at 1 by lia.
  replace (y + k * 400) with (y + (k * 4) * 100) at 1 by lia.
  rewrite !Z.mod_add by lia. reflexivity.
Qed.

Lemma InLeapYear_steps y :
  InLeapYear y = (y / 4 - (y - 1) / 4) - (y / 100 - (y - 1) / 100) + (y / 400 - (y - 1) / 400).
Proof.
  unfold InLeapYear, DaysInYear.
  destruct (Z.eqb_spec (y mod 4) 0); destruct (Z.eqb_spec (y mod 100) 0);
    destruct (Z.eqb_spec (y mod 400) 0); cbn [negb]; cbn;
    euclid.
Qed.

Lemma DayFromYear_in_era yoe :
  DayFromYear yoe
  = 365 * yoe + (yoe - 1) / 4 - (yoe - 1) / 100 + (yoe - 1) / 400 - 719527.
Proof. unfold DayFromYear. euclid. Qed.

Lemma tableCheck_holds doy : 0 <= doy <= 365 -> tableCheck doy = true.
Proof.
  intros H. apply (forallRange_spec _ _ _ tableCheck_all). lia.
Qed.

(** The date [civilFromDays] gives is the one ECMAScript defines: the year
    is the one whose days include the day number, and month and day are
    read off the tables from the day within the year. *)
Lemma civilFromDays_ecma z :
  let '(y, m, d) := civilFromDays z in
  DayFromYear y <= z < DayFromYear (y + 1)
  /\ m - 1 = MonthFromDay (z - DayFromYear y) (InLeapYear y)
  /\ d = DateFromDay (z - DayFromYear y) (InLeapYear y).
Proof.
  unfold civilFromDays. cbv zeta.
  set (era := (z + 719468) / 146097).
  set (doe := z + 719468 - era * 146097).
  assert (Hdoe : 0 <= doe < 146097).
  { subst doe era. euclid. }
  assert (Hz : z = era * 146097 + doe - 719468) by (subst doe; lia).
  clearbody doe era. subst z.
  set (yoe := (doe - doe / 1460 + doe / 36524 - doe / 146096) / 365).
  set (doy := doe - (365 * yoe + yoe / 4 - yoe / 100)).
  assert (Hy : 0 <= yoe <= 399 /\ 0 <= doy <= 365 /\
               doe < 365 * (yoe + 1) + (yoe + 1) / 4 - (yoe + 1) / 100
                     + (yoe + 1) / 400).
  { subst doy yoe. euclid. }
  assert (Hdoy : doy = doe - (365 * yoe + yoe / 4 - yoe / 100)) by reflexivity.
  clearbody doy. clearbody yoe.
  destruct Hy as (Hyoe & Hdoy' & Hnext).
  pose proof (tableCheck_holds doy Hdoy') as Ht. unfold tableCheck in Ht.
  cbv zeta in Ht.
  set (mp := (5 * doy + 2) / 153) in *.
  assert (Hmp : 0 <= mp <= 11 /\ (mp < 10 <-> doy < 306)).
  { subst mp. euclid. }
  set (d := doy - (153 * mp + 2) / 5 + 1) in *.
  clearbody d. clearbody mp. destruct Hmp as [Hmp0 Hmp].
  destruct (Z.ltb_spec mp 10) as [Hlt|Hge].
  - assert (Hd306 : doy < 306) by (apply Hmp; exact Hlt).
    destruct (Z.ltb_spec doy 306); [|lia].
    destruct (Z.leb_spec (mp + 3) 2); [lia|].
    replace (yoe + era * 400 + 1) with (yoe + 1 + era * 400) by lia.
    rewrite !DayFromYear_period, InLeapYear_period.
    rewrite !DayFromYear_in_era.
    pose proof (InLeapYear_steps yoe) as Hleap.
    assert (Hdwy : era * 146097 + doe - 719468
                   - (365 * yoe + (yoe - 1) / 4 - (yoe - 1) / 100
                      + (yoe - 1) / 400 - 719527 + era * 146097)
                   = doy + 59 + InLeapYear yoe).
    { rewrite Hleap. euclid. }
    rewrite Hdwy.
    assert (Hl : InLeapYear yoe = 0 \/ InLeapYear yoe = 1).
    { unfold InLeapYear. destruct (DaysInYear yoe =? 366); auto. }
    apply andb_prop in Ht. destruct Ht as [Ht0 Ht1].
    apply andb_prop in Ht0. destruct Ht0 as [Hm0 Hd0].
    apply andb_prop in Ht1. destruct Ht1 as [Hm1 Hd1].
    apply Z.eqb_eq in Hm0, Hd0, Hm1, Hd1.
    split.
    + clear Hdwy. euclid.
    + destruct Hl as [Hl|Hl]; rewrite Hl.
      * rewrite Z.add_0_r. split; congruence.
      * replace (doy + 59 + 1) with (doy + 60) by lia. split; congruence.
  - assert (Hd306 : 306 <= doy).
    { destruct (Z.lt_ge_cases doy 306) as [Hl|Hg]; [apply Hmp in Hl; lia | exact Hg]. }
    destruct (Z.ltb_spec doy 306); [lia|].
    destruct (Z.leb_spec (mp - 9) 2); [|lia].
    replace (yoe + era * 400 + 1 + 1) with (yoe + 1 + 1 + era * 400) by lia.
    replace (yoe + era * 400 + 1) with (yoe + 1 + era * 400) by lia.
    rewrite !DayFromYear_period, InLeapYear_period.
    rewrite !DayFromYear_in_era.
    pose proof (InLeapYear_steps (yoe + 1)) as Hleap.
    replace (yoe + 1 - 1) with yoe in * by lia.
    assert (Hdwy : era * 146097 + doe - 719468
                   - (365 * (yoe + 1) + yoe / 4 - yoe / 100 + yoe / 400
                      - 719527 + era * 146097)
                   = doy - 306).
    { euclid. }
    rewrite Hdwy.
    assert (Hl : InLeapYear (yoe + 1) = 0 \/ InLeapYear (yoe + 1) = 1).
    { unfold InLeapYear. destruct (DaysInYear (yoe + 1) =? 366); auto. }
    assert (Hlast : doy = 365 -> InLeapYear (yoe + 1) = 1).
    { intros E. rewrite Hleap. euclid. }
    apply andb_prop in Ht. destruct Ht as [Ht1 Ht0].
    apply andb_prop in Ht1. destruct Ht1 as [Hm1 Hd1].
    apply Z.eqb_eq in Hm1, Hd1.
    split.
    + clear Hdwy. euclid.
    + destruct Hl as [Hl|Hl]; rewrite Hl.
      * apply orb_prop in Ht0. destruct Ht0 as [E|Ht0].
        -- apply Z.eqb_eq in E. specialize (Hlast E). lia.
        -- apply andb_prop in Ht0. destruct Ht0 as [Hm0 Hd0].
           apply Z.eqb_eq in Hm0, Hd0. split; congruence.
      * split; congruence.
Qed.

Lemma civilOfDoe_first_of_month yoe mp :
  0 <= yoe <= 399 -> 0 <= mp <= 11 ->
  let doy := (153 * mp + 2) / 5 in
  let doe := yoe * 365 + yoe / 4 - yoe / 100 + doy in
  0 <= doe < 146097
  /\ (doe - doe / 1460 + doe / 36524 - doe / 146096) / 365 = yoe
  /\ (5 * doy + 2) / 153 = mp.
Proof.
  intros Hy Hm. cbv zeta.
  assert (Hmp : mp = 0 \/ mp = 1 \/ mp = 2 \/ mp = 3 \/ mp = 4 \/ mp = 5 \/ mp = 6
                \/ mp = 7 \/ mp = 8 \/ mp = 9 \/ mp = 10 \/ mp = 11) by lia.
  repeat (destruct Hmp as [->|Hmp]); try subst mp;
    match goal with
    | |- context [(153 * ?k + 2) / 5] =>
        let v := eval vm_compute in ((153 * k + 2) / 5) in
        change ((153 * k + 2) / 5) with v
    end;
    (split; [euclid|]);
    (split; [euclid | reflexivity]).
Qed.

(** [MakeDay]'s day number for the first of a month is the day whose date
    is the first of that month, as ECMAScript asks. *)
Lemma civilFromDays_first_of_month y m :
  1 <= m <= 12 -> civilFromDays (daysFromCivil y m 1) = (y, m, 1).
Proof.
  intros Hm. unfold daysFromCivil. cbv zeta.
  set (y' := if m <=? 2 then y - 1 else y).
  set (era := y' / 400). set (yoe := y' - era * 400).
  set (mp := if 2 <? m then m - 3 else m + 9).
  assert (Hyoe : 0 <= yoe <= 399).
  { subst yoe era. euclid. }
  assert (Hmp : 0 <= mp <= 11).
  { subst mp. destruct (Z.ltb_spec 2 m); lia. }
  destruct (civilOfDoe_first_of_month yoe mp Hyoe Hmp) as (Hdoe & Hy & Hmp').
  cbv zeta in *.
  replace ((153 * mp + 2) / 5 + 1 - 1) with ((153 * mp + 2) / 5) by lia.
  set (doe := yoe * 365 + yoe / 4 - yoe / 100 + (153 * mp + 2) / 5) in *.
  unfold civilFromDays. cbv zeta.
  replace (era * 146097 + doe - 719468 + 719468) with (doe + era * 146097) by lia.
  rewrite Z.div_add by lia. rewrite (Z.div_small doe) by lia. cbn [Z.add].
  replace (doe + era * 146097 - era * 146097) with doe by lia.
  rewrite Hy.
  replace (doe - (365 * yoe + yoe / 4 - yoe / 100)) with ((153 * mp + 2) / 5)
    by (subst doe; lia).
  rewrite Hmp'.
  replace ((153 * mp + 2) / 5 - (153 * mp + 2) / 5 + 1) with 1 by lia.
  subst mp yoe y'.
  destruct (Z.ltb_spec 2 m); destruct (Z.leb_spec m 2); try lia.
  - destruct (Z.ltb_spec (m - 3) 10); [|lia].
    replace (m - 3 + 3) with m by lia.
    destruct (Z.leb_spec m 2); [lia|]. f_equal. f_equal. subst era. lia.
  - destruct (Z.ltb_spec (m + 9) 10); [lia|].
    replace (m + 9 - 9) with m by lia.
    destruct (Z.leb_spec m 2); [|lia]. f_equal. f_equal. subst era. lia.
Qed.

(** [YearFromTime], [MonthFromTime] and [DateFromTime] are the functions
    of the standard. *)
Lemma time_functions_ecma t :
  DayFromYear (YearFromTime t) <= Day t < DayFromYear (YearFromTime t + 1)
  /\ MonthFromTime t
     = MonthFromDay (Day t - DayFromYear (YearFromTime t))
                    (InLeapYear (YearFromTime t))
  /\ DateFromTime t
     = DateFromDay (Day t - DayFromYear (YearFromTime t))
                   (InLeapYear (YearFromTime t)).
Proof.
  unfold YearFromTime, MonthFromTime, DateFromTime.
  pose proof (civilFromDays_ecma (Day t)) as H.
  destruct (civilFromDays (Day t)) as [[y m] d]. cbn [fst snd].
  destruct H as (Hy & Hm & Hd). repeat split; try lia; assumption.
Qed.

(** [MakeDay(y, m, 1)] is the day whose year is [y], whose month is [m]
    and whose date is 1, as the standard asks. *)
Lemma MakeDay_ecma y m :
  0 <= m <= 11 ->
  let t := MakeDate (MakeDay y m 1) 0 in
  YearFromTime t = y /\ MonthFromTime t = m /\ DateFromTime t = 1.
Proof.
  intros Hm. cbv zeta.
  unfold YearFromTime, MonthFromTime, DateFromTime, MakeDate, MakeDay, Day.
  cbv zeta. rewrite (Z.div_small m 12) by lia. rewrite (Z.mod_small m 12) by lia.
  replace (y + 0) with y by lia.
  replace (daysFromCivil y (m + 1) 1 + 1 - 1) with (daysFromCivil y (m + 1) 1)
    by lia.
  rewrite Z.add_0_r, Z.div_mul by (unfold msPerDay; lia).
  rewrite civilFromDays_first_of_month by lia. cbn [fst snd].
  repeat split; lia.
Qed.

(** Some dates: the epoch, a leap day, the turn of a year, and the day
    after a February 28 in a year that is not a leap year. *)
Example dates_of_the_calendar :
  civilFromDays 0 = (1970, 1, 1)
  /\ civilFromDays 19782 = (2024, 2, 29)
  /\ civilFromDays (-1) = (1969, 12, 31)
  /\ civilFromDays 20147 = (2025, 2, 28)
  /\ civilFromDays 20148 = (2025, 3, 1)
  /\ daysFromCivil 2026 1 22 = 20475.
Proof. repeat split; reflexivity. Qed.

(** January 1 of year [y] falls on [DayFromYear(y)]. *)
Lemma daysFromCivil_DayFromYear y : daysFromCivil y 1 1 = DayFromYear y.
Proof.
  unfold daysFromCivil, DayFromYear. cbv zeta.
  change (1 <=? 2) with true. change (2 <? 1) with false. cbv iota.
  change ((153 * (1 + 9) + 2) / 5) with 306.
  euclid.
Qed.

(** A date whose year has four digits is printed in the form the service
    accepts, with its year, month and day as the digits. *)
Lemma formatDateUTC_shape t :
  1000 <= YearFromTime t <= 9999 ->
  exists y1 y2 y3 y4 m1 m2 d1 d2,
    Apod.formatDateUTC (Some t) = [y1; y2; y3; y4; 45%N; m1; m2; 45%N; d1; d2]
    /\ matchesDateRegex [y1; y2; y3; y4; 45%N; m1; m2; 45%N; d1; d2] = true
    /\ digitsValue [y1; y2; y3; y4] = YearFromTime t
    /\ digitsValue [m1; m2] = MonthFromTime t + 1
    /\ digitsValue [d1; d2] = DateFromTime t.
Proof.
  intros Hy. unfold Apod.formatDateUTC. cbv zeta.
  pose proof (civilFromDays_spec (Day t)) as Hc.
  unfold YearFromTime, MonthFromTime, DateFromTime in *.
  destruct (civilFromDays (Day t)) as [[y m] d]. cbn [fst snd] in *.
  destruct Hc as (_ & Hm & Hd).
  replace (m - 1 + 1) with m by lia.
  pose proof (forallRange_spec _ _ _ yearCheck_all y ltac:(lia)) as Cy.
  pose proof (forallRange_spec _ _ _ twoDigitCheck_all m ltac:(lia)) as Cm.
  pose proof (forallRange_spec _ _ _ twoDigitCheck_all d ltac:(lia)) as Cd.
  unfold yearCheck in Cy. unfold twoDigitCheck in Cm, Cd.
  destruct (ofZ y) as [|y1 [|y2 [|y3 [|y4 [|? ?]]]]]; try discriminate Cy.
  destruct (padStart0 2 (ofZ m)) as [|m1 [|m2 [|? ?]]]; try discriminate Cm.
  destruct (padStart0 2 (ofZ d)) as [|d1 [|d2 [|? ?]]]; try discriminate Cd.
  repeat (apply andb_prop in Cy; destruct Cy as [Cy ?]).
  repeat (apply andb_prop in Cm; destruct Cm as [Cm ?]).
  repeat (apply andb_prop in Cd; destruct Cd as [Cd ?]).
  repeat match goal with
         | E : (_ =? _) = true |- _ => apply Z.eqb_eq in E
         end.
  repeat match goal with
         | A : (48 <=? ?c)%N = true, B : (?c <=? 57)%N = true |- _ =>
             assert (isDigit c = true)
               by (unfold isDigit; rewrite A, B; reflexivity);
             clear A B
         end.
  exists y1, y2, y3, y4, m1, m2, d1, d2.
  split; [reflexivity|]. split; [|repeat split; assumption].
  unfold matchesDateRegex.
  repeat match goal with
         | E : isDigit _ = true |- _ => rewrite E; clear E
         end.
  reflexivity.
Qed.

(** Reading back the printed form of a midnight gives that midnight. *)
Lemma newDate_formatDateUTC t :
  TimeWithinDay t = 0 ->
  1000 <= YearFromTime t <= 9999 ->
  Z.abs t <= 8640000000000000 ->
  newDateMidnightZ (Apod.formatDateUTC (Some t)) = Some t.
Proof.
  intros Hmid Hy Hr.
  destruct (formatDateUTC_shape t Hy)
    as (y1 & y2 & y3 & y4 & m1 & m2 & d1 & d2 & -> & Hre & Ey & Em & Ed).
  unfold newDateMidnightZ. rewrite Hre.
  change (slice 0 4 [y1; y2; y3; y4; 45%N; m1; m2; 45%N; d1; d2])
    with [y1; y2; y3; y4].
  change (slice 5 7 [y1; y2; y3; y4; 45%N; m1; m2; 45%N; d1; d2])
    with [m1; m2].
  change (slice 8 10 [y1; y2; y3; y4; 45%N; m1; m2; 45%N; d1; d2])
    with [d1; d2].
  cbv zeta. rewrite Ey, Em, Ed.
  pose proof (civilFromDays_spec (Day t)) as Hc.
  pose proof (MakeDay_of_time t 0) as Hmk.
  unfold MonthFromTime, DateFromTime in *.
  destruct (civilFromDays (Day t)) as [[y m] d]. cbn [fst snd] in *.
  destruct Hc as (_ & Hm & Hd).
  destruct (Z.leb_spec 1 (m - 1 + 1)); [|lia].
  destruct (Z.leb_spec (m - 1 + 1) 12); [|lia].
  destruct (Z.leb_spec 1 d); [|lia].
  destruct (Z.leb_spec d 31); [|lia].
  cbn [andb].
  replace (m - 1 + 1 - 1) with (m - 1) by lia.
  rewrite Z.add_0_r in Hmk. rewrite Hmk, Z.add_0_r.
  unfold MakeDate, TimeClip.
  pose proof (time_split t) as Hs. rewrite Hmid in Hs.
  replace (Day t * msPerDay + 0) with t by lia.
  destruct (Z.leb_spec (Z.abs t) 8640000000000000); [reflexivity | lia].
Qed.

End DateFacts.

(** ** The date walk *)

Module ApodFacts.

Import Apod ApodTrace DateFacts.

Lemma matchesDateRegex_inv s :
  matchesDateRegex s = true ->
  exists y1 y2 y3 y4 m1 m2 d1 d2,
    s = [y1; y2; y3; y4; 45%N; m1; m2; 45%N; d1; d2]
    /\ isDigit y1 = true /\ isDigit y2 = true /\ isDigit y3 = true
    /\ isDigit y4 = true /\ isDigit m1 = true /\ isDigit m2 = true
    /\ isDigit d1 = true /\ isDigit d2 = true.
Proof.
  intros H.
  do 10 (destruct s as [|? s]; [discriminate H|]).
  destruct s; [|discriminate H].
  unfold matchesDateRegex in H.
  repeat (apply andb_prop in H; destruct H as [H ?]).
  repeat match goal with
         | E : (_ =? _)%N = true |- _ => apply N.eqb_eq in E; subst
         end.
  do 8 eexists. split; [reflexivity|]. repeat split; try assumption.
  unfold isDigit. apply andb_true_intro. split; assumption.
Qed.

Lemma isDigit_value c : isDigit c = true -> 0 <= Z.of_N c - 48 <= 9.
Proof.
  unfold isDigit. intros H. apply andb_prop in H. destruct H as [H1 H2].
  apply N.leb_le in H1. apply N.leb_le in H2. lia.
Qed.

Lemma daysFromCivil_bounds y m d :
  0 <= y <= 9999 -> 1 <= m <= 12 -> 1 <= d <= 31 ->
  -720000 <= daysFromCivil y m d <= 2940000.
Proof.
  intros Hy Hm Hd. unfold daysFromCivil. cbv zeta.
  destruct (Z.leb_spec m 2); destruct (Z.ltb_spec 2 m); try lia;
    euclid.
Qed.

Lemma digitsValue4 a b c d :
  digitsValue [a; b; c; d]
  = 1000 * (Z.of_N a - 48) + 100 * (Z.of_N b - 48) + 10 * (Z.of_N c - 48)
    + (Z.of_N d - 48).
Proof. unfold digitsValue. cbn [fold_left]. lia. Qed.

Lemma digitsValue2 a b :
  digitsValue [a; b] = 10 * (Z.of_N a - 48) + (Z.of_N b - 48).
Proof. unfold digitsValue. cbn [fold_left]. lia. Qed.

(** A date that passes validation parses to midnight of a day between the
    years 0 and 10000. *)
Lemma valid_date_parses date :
  isValidDateFormat date = true ->
  exists t0, parseDateUTC date = Some t0
             /\ TimeWithinDay t0 = 0
             /\ -720000 * msPerDay <= t0 <= 2940000 * msPerDay.
Proof.
  unfold isValidDateFormat, parseDateUTC, getTime. intros H.
  destruct (matchesDateRegex date) eqn:Hre; [|discriminate H]. simpl in H.
  destruct (newDateMidnightZ date) as [t0|] eqn:Hp; [|discriminate H].
  exists t0. split; [reflexivity|].
  unfold newDateMidnightZ in Hp. rewrite Hre in Hp.
  destruct (matchesDateRegex_inv _ Hre)
    as (y1 & y2 & y3 & y4 & m1 & m2 & d1 & d2 & -> & Hy1 & Hy2 & Hy3 & Hy4
        & Hm1 & Hm2 & Hd1 & Hd2).
  apply isDigit_value in Hy1, Hy2, Hy3, Hy4, Hm1, Hm2, Hd1, Hd2.
  change (slice 0 4 [y1; y2; y3; y4; 45%N; m1; m2; 45%N; d1; d2])
    with [y1; y2; y3; y4] in Hp.
  change (slice 5 7 [y1; y2; y3; y4; 45%N; m1; m2; 45%N; d1; d2])
    with [m1; m2] in Hp.
  change (slice 8 10 [y1; y2; y3; y4; 45%N; m1; m2; 45%N; d1; d2])
    with [d1; d2] in Hp.
  cbv zeta in Hp.
  assert (Hy : 0 <= digitsValue [y1; y2; y3; y4] <= 9999)
    by (rewrite digitsValue4; lia).
  generalize dependent (digitsValue [y1; y2; y3; y4]). intros y Hp Hy.
  generalize dependent (digitsValue [m1; m2]). intros m Hp.
  generalize dependent (digitsValue [d1; d2]). intros d Hp.
  destruct ((1 <=? m) && (m <=? 12) && (1 <=? d) && (d <=? 31)) eqn:Hc;
    [|discriminate Hp].
  repeat (apply andb_prop in Hc; destruct Hc as [Hc ?]).
  repeat match goal with
         | E : (_ <=? _) = true |- _ => apply Z.leb_le in E
         end.
  unfold TimeClip in Hp.
  destruct (Z.abs (MakeDate (MakeDay y (m - 1) d) 0) <=? 8640000000000000);
    [|discriminate Hp].
  assert (Ht : t0 = MakeDate (MakeDay y (m - 1) d) 0) by congruence.
  rewrite Ht. clear Hp Ht.
  unfold MakeDate, MakeDay. cbv zeta.
  rewrite Z.div_small by lia. rewrite Z.mod_small by lia.
  replace (y + 0) with y by lia. replace (m - 1 + 1) with m by lia.
  rewrite <- daysFromCivil_day.
  pose proof (daysFromCivil_bounds y m d Hy ltac:(lia) ltac:(lia)) as Hb.
  split.
  - unfold TimeWithinDay. rewrite Z.add_0_r. apply Z.mod_mul.
    unfold msPerDay; lia.
  - unfold msPerDay in *. lia.
Qed.

Lemma formatDateUTC_truthy d : truthy (Some (formatDateUTC d)) = true.
Proof.
  destruct d as [t|]; [|reflexivity].
  unfold formatDateUTC. cbv zeta.
  destruct (ofZ (YearFromTime t)); reflexivity.
Qed.

Lemma timeOfAttempt_succ t0 i :
  timeOfAttempt t0 (S i) = timeOfAttempt t0 i - msPerDay.
Proof. unfold timeOfAttempt. lia. Qed.

Lemma requestsBefore_succ key t0 n :
  requestsBefore key t0 (S n)
  = requestsBefore key t0 n ++ [requestOfAttempt key t0 n].
Proof.
  unfold requestsBefore. rewrite seq_S, map_app. reflexivity.
Qed.


Lemma fetchOutcome_fails answer :
  attemptFails answer = true -> fetchOutcome answer = inl (failureReason answer).
Proof. unfold fetchOutcome. intros ->. reflexivity. Qed.

Lemma fetchOutcome_succeeds answer :
  attemptFails answer = false ->
  exists r data,
    answer = inr r /\ ok r = true /\ json r = inr data
    /\ missingField data = false /\ fetchOutcome answer = inr (apodOfJson data).
Proof.
  unfold fetchOutcome. intros H. rewrite H.
  destruct answer as [m|r]; [discriminate H|].
  simpl in H. apply orb_false_elim in H. destruct H as [Hok Hj].
  apply negb_false_iff in Hok.
  destruct (json r) as [m|data] eqn:Hjson; [discriminate Hj|].
  exists r, data. repeat split; assumption.
Qed.

Section WalkFacts.

Variable network : list ApodRequest -> ApodRequest -> jsstring + Response.
Variable apiKey : jsstring.

(** [fetchApod] sends one request and returns what [fetchOutcome] says. *)
Lemma fetchApod_run d log :
  truthy (Some d) = true ->
  fetchApod network apiKey (Some d) log
  = (fetchOutcome (network log {| req_api_key := apiKey; req_date := Some d |}),
     log ++ [{| req_api_key := apiKey; req_date := Some d |}]).
Proof.
  intros Hd. unfold fetchApod, fetch, bind, perform. rewrite Hd.
  set (req := {| req_api_key := apiKey; req_date := Some d |}).
  unfold fetchOutcome, attemptFails, failureReason.
  destruct (network log req) as [m|r]; [reflexivity|].
  destruct (ok r); simpl; [|reflexivity].
  destruct (json r) as [m|data]; [reflexivity|].
  unfold missingField, throw, ret, apodOfJson.
  destruct (negb (truthy (j_date data)) || negb (truthy (j_title data))
            || negb (truthy (j_explanation data)) || negb (truthy (j_url data)));
    reflexivity.
Qed.

(** The loop sends at most one request per iteration, whatever the
    working date and the answers are. *)
Lemma walk_requests requested n : forall current failures log,
  exists reqs,
    snd (walk network apiKey requested n current failures log) = log ++ reqs
    /\ (length reqs <= n)%nat
    /\ Forall (fun r => req_api_key r = apiKey /\ truthy (req_date r) = true)
              reqs.
Proof.
  induction n as [|n IH]; intros current failures log.
  - exists []. cbn. rewrite app_nil_r. repeat split; [lia | constructor].
  - cbn [walk]. unfold tryCatch, bind.
    rewrite fetchApod_run by apply formatDateUTC_truthy.
    set (req := {| req_api_key := apiKey;
                   req_date := Some (formatDateUTC current) |}).
    assert (Hreq : req_api_key req = apiKey /\ truthy (req_date req) = true)
      by (split; [reflexivity | apply formatDateUTC_truthy]).
    destruct (fetchOutcome (network log req)) as [reason|apod].
    + destruct (IH (addDaysUTC current (-1))
                   (failures ++ [{| f_date := formatDateUTC current;
                                    f_reason := reason |}])
                   (log ++ [req])) as (reqs & E & L & F).
      exists (req :: reqs). rewrite E, <- app_assoc.
      repeat split; [cbn [length]; lia | constructor; assumption].
    + exists [req]. cbn [ret snd length].
      repeat split; [lia | constructor; [assumption | constructor]].
Qed.

Variable t0 : Z.
Variable requested : jsstring.

(** One turn of the loop, the working date being that of attempt [i]. *)
Lemma walk_step n i failures log :
  -8640000000000000 <= timeOfAttempt t0 (S i) ->
  timeOfAttempt t0 i <= 8640000000000000 ->
  walk network apiKey requested (S n) (Some (timeOfAttempt t0 i)) failures log
  = let req := requestOfAttempt apiKey t0 i in
    match fetchOutcome (network log req) with
    | inr apod => (inr (toSpacePictureOfTheDay apod requested), log ++ [req])
    | inl reason =>
        walk network apiKey requested n (Some (timeOfAttempt t0 (S i)))
             (failures ++ [{| f_date := formatDateUTC (Some (timeOfAttempt t0 i));
                              f_reason := reason |}])
             (log ++ [req])
    end.
Proof.
  intros Hlo Hhi. cbn [walk]. unfold tryCatch, bind.
  rewrite fetchApod_run by apply formatDateUTC_truthy.
  cbv zeta. unfold requestOfAttempt.
  destruct (fetchOutcome _) as [reason|apod]; [|reflexivity].
  rewrite timeOfAttempt_succ in *.
  rewrite addDaysUTC_time by (unfold msPerDay in *; lia).
  replace (timeOfAttempt t0 i + -1 * msPerDay) with (timeOfAttempt t0 i - msPerDay)
    by lia.
  reflexivity.
Qed.

Lemma timeOfAttempt_mono i j :
  (i <= j)%nat -> timeOfAttempt t0 j <= timeOfAttempt t0 i.
Proof. unfold timeOfAttempt, msPerDay. intros H. nia. Qed.


(** When the loop returns a picture, some attempt succeeded after every
    earlier one had failed, and the picture is made of its answer. *)
Lemma walk_success n : forall i failures log pic log',
  -8640000000000000 <= timeOfAttempt t0 (i + n) ->
  timeOfAttempt t0 i <= 8640000000000000 ->
  walk network apiKey requested n (Some (timeOfAttempt t0 i)) failures
       (log ++ requestsBefore apiKey t0 i) = (inr pic, log') ->
  exists j r data,
    (i <= j < i + n)%nat
    /\ (forall k, (i <= k < j)%nat ->
                  attemptFails (answerOfAttempt network apiKey t0 log k) = true)
    /\ answerOfAttempt network apiKey t0 log j = inr r
    /\ ok r = true /\ json r = inr data /\ missingField data = false
    /\ pic = toSpacePictureOfTheDay (apodOfJson data) requested
    /\ log' = log ++ requestsBefore apiKey t0 (S j).
Proof.
  induction n as [|n IH]; intros i failures log pic log' Hlo Hhi Hrun.
  - cbn [walk] in Hrun. discriminate Hrun.
  - pose proof (timeOfAttempt_mono (S i) (i + S n) ltac:(lia)) as Hm1.
    pose proof (timeOfAttempt_mono i (S i) ltac:(lia)) as Hm2.
    rewrite walk_step in Hrun by lia. cbv zeta in Hrun.
    fold (answerOfAttempt network apiKey t0 log i) in Hrun.
    destruct (attemptFails (answerOfAttempt network apiKey t0 log i)) eqn:Hi.
    + rewrite fetchOutcome_fails in Hrun by exact Hi.
      rewrite <- app_assoc, <- requestsBefore_succ in Hrun.
      apply IH in Hrun;
        [|replace (S i + n)%nat with (i + S n)%nat by lia; exact Hlo | lia].
      destruct Hrun as (j & r & data & Hj & Hbefore & Hrest).
      exists j, r, data. split; [lia|]. split; [|exact Hrest].
      intros k Hk. destruct (Nat.eq_dec k i) as [->|Hne]; [exact Hi|].
      apply Hbefore. lia.
    + destruct (fetchOutcome_succeeds _ Hi) as (r & data & Ha & Hok & Hjs & Hmf & Hout).
      rewrite Hout in Hrun.
      rewrite <- app_assoc, <- requestsBefore_succ in Hrun.
      exists i, r, data. split; [lia|]. split; [intros k Hk; lia|].
      repeat split; try assumption; congruence.
Qed.

End WalkFacts.

(** How a string of the pattern is read as a date. *)
Lemma newDate_of_digits (s : jsstring) y1 y2 y3 y4 m1 m2 d1 d2 :
  s = [y1; y2; y3; y4; 45%N; m1; m2; 45%N; d1; d2] ->
  forallb isDigit [y1; y2; y3; y4; m1; m2; d1; d2] = true ->
  let y := digitsValue [y1; y2; y3; y4] in
  let m := digitsValue [m1; m2] in
  let d := digitsValue [d1; d2] in
  matchesDateRegex s = true
  /\ newDateMidnightZ s
     = if (1 <=? m) && (m <=? 12) && (1 <=? d) && (d <=? 31)
       then Some (daysFromCivil y m d * msPerDay)
       else None.
Proof.
  intros -> Hd. cbv zeta. cbn [forallb] in Hd.
  repeat match goal with
         | H : _ && _ = true |- _ =>
             apply andb_prop in H; let H1 := fresh "D" in destruct H as [H1 H]
         end.
  assert (Hre : matchesDateRegex [y1; y2; y3; y4; 45%N; m1; m2; 45%N; d1; d2]
                = true).
  { cbn [matchesDateRegex]. rewrite D, D0, D1, D2, D3, D4, D5, D6. reflexivity. }
  split; [exact Hre|].
  unfold newDateMidnightZ. rewrite Hre.
  change (slice 0 4 [y1; y2; y3; y4; 45%N; m1; m2; 45%N; d1; d2])
    with [y1; y2; y3; y4].
  change (slice 5 7 [y1; y2; y3; y4; 45%N; m1; m2; 45%N; d1; d2])
    with [m1; m2].
  change (slice 8 10 [y1; y2; y3; y4; 45%N; m1; m2; 45%N; d1; d2])
    with [d1; d2].
  cbv zeta.
  apply isDigit_value in D, D0, D1, D2, D3, D4, D5, D6.
  assert (Hy : 0 <= digitsValue [y1; y2; y3; y4] <= 9999)
    by (rewrite digitsValue4; lia).
  generalize dependent (digitsValue [y1; y2; y3; y4]). intros y Hy.
  generalize (digitsValue [m1; m2]) (digitsValue [d1; d2]). intros m d.
  destruct ((1 <=? m) && (m <=? 12) && (1 <=? d) && (d <=? 31)) eqn:Hc;
    [|reflexivity].
  repeat (apply andb_prop in Hc; destruct Hc as [Hc ?]).
  repeat match goal with
         | E : (_ <=? _) = true |- _ => apply Z.leb_le in E
         end.
  unfold MakeDate, MakeDay. cbv zeta.
  rewrite Z.div_small by lia. rewrite Z.mod_small by lia.
  replace (y + 0) with y by lia. replace (m - 1 + 1) with m by lia.
  rewrite <- daysFromCivil_day, Z.add_0_r.
  pose proof (daysFromCivil_bounds y m d Hy ltac:(lia) ltac:(lia)) as Hb.
  unfold TimeClip.
  destruct (Z.leb_spec (Z.abs (daysFromCivil y m d * msPerDay)) 8640000000000000)
    as [_|Hbad]; [reflexivity|].
  unfold msPerDay in Hbad. lia.
Qed.

(** A date passes validation exactly when it is written as the pattern
    asks, with a month from 01 to 12 and a day from 01 to 31. *)
Lemma valid_date_written (date : jsstring) :
  isValidDateFormat date = true <->
  exists y1 y2 y3 y4 m1 m2 d1 d2,
    date = [y1; y2; y3; y4; 45%N; m1; m2; 45%N; d1; d2]
    /\ forallb isDigit [y1; y2; y3; y4; m1; m2; d1; d2] = true
    /\ 1 <= digitsValue [m1; m2] <= 12
    /\ 1 <= digitsValue [d1; d2] <= 31.
Proof.
  unfold isValidDateFormat, getTime. split.
  - intros H.
    destruct (matchesDateRegex date) eqn:Hre; [|discriminate H]. cbn [negb] in H.
    destruct (matchesDateRegex_inv _ Hre)
      as (y1 & y2 & y3 & y4 & m1 & m2 & d1 & d2 & Es & Hy1 & Hy2 & Hy3 & Hy4
          & Hm1 & Hm2 & Hd1 & Hd2).
    exists y1, y2, y3, y4, m1, m2, d1, d2.
    assert (Hd : forallb isDigit [y1; y2; y3; y4; m1; m2; d1; d2] = true)
      by (cbn [forallb]; rewrite Hy1, Hy2, Hy3, Hy4, Hm1, Hm2, Hd1, Hd2;
          reflexivity).
    destruct (newDate_of_digits date _ _ _ _ _ _ _ _ Es Hd) as [_ Hp].
    rewrite Hp in H.
    destruct ((1 <=? digitsValue [m1; m2]) && (digitsValue [m1; m2] <=? 12)
              && (1 <=? digitsValue [d1; d2]) && (digitsValue [d1; d2] <=? 31))
      eqn:Hc; [|discriminate H].
    repeat (apply andb_prop in Hc; destruct Hc as [Hc ?]).
    repeat match goal with
           | E : (_ <=? _) = true |- _ => apply Z.leb_le in E
           end.
    repeat split; auto.
  - intros (y1 & y2 & y3 & y4 & m1 & m2 & d1 & d2 & Es & Hd & Hm & Hday).
    destruct (newDate_of_digits date _ _ _ _ _ _ _ _ Es Hd) as [Hre Hp].
    rewrite Hre, Hp. cbn [negb].
    destruct Hm as [Hm1 Hm2], Hday as [Hd1 Hd2].
    apply Z.leb_le in Hm1, Hm2, Hd1, Hd2.
    rewrite Hm1, Hm2, Hd1, Hd2. reflexivity.
Qed.

End ApodFacts.

(** ** Claims about the APOD service *)

Module ApodClaims.

Import Apod ApodTrace ApodScenarios DateFacts ApodFacts.

Lemma effectiveMaxDaysBack_range options :
  0 <= effectiveMaxDaysBack options <= 30.
Proof.
  unfold effectiveMaxDaysBack, clampInt.
  destruct (opt_maxDaysBack options) as [[| | |q]|]; simpl; lia.
Qed.

Lemma matchesDateRegex_iff s :
  matchesDateRegex s = true <->
  exists y1 y2 y3 y4 m1 m2 d1 d2,
    s = [y1; y2; y3; y4; 45%N; m1; m2; 45%N; d1; d2]
    /\ isDigit y1 = true /\ isDigit y2 = true /\ isDigit y3 = true
    /\ isDigit y4 = true /\ isDigit m1 = true /\ isDigit m2 = true
    /\ isDigit d1 = true /\ isDigit d2 = true.
Proof.
  split; [apply matchesDateRegex_inv|].
  intros (y1 & y2 & y3 & y4 & m1 & m2 & d1 & d2 & -> & H1 & H2 & H3 & H4
          & H5 & H6 & H7 & H8).
  unfold matchesDateRegex. rewrite H1, H2, H3, H4, H5, H6, H7, H8. reflexivity.
Qed.


(** C1 (as amended). The look-back bound of a call is the floor of
    [maxDaysBack] clamped into [0, 30]: 10 when [maxDaysBack] is missing,
    and 0, the minimum, when it is NaN or an infinity. It always lies in
    [0, 30], and a call with NaN, [Infinity] or [-Infinity] runs exactly
    as a call with [maxDaysBack = 0]. *)
Theorem C1_effective_bound (date : option jsstring) :
  let opts := fun v => {| opt_date := date; opt_maxDaysBack := v |} in
  effectiveMaxDaysBack (opts None) = 10
  /\ (forall q : Q,
        effectiveMaxDaysBack (opts (Some (JsFinite q)))
        = Z.max 0 (Z.min 30 (Qfloor q)))
  /\ (forall n : Z,
        effectiveMaxDaysBack (opts (Some (ofInt n))) = Z.max 0 (Z.min 30 n))
  /\ effectiveMaxDaysBack (opts (Some JsNaN)) = 0
  /\ effectiveMaxDaysBack (opts (Some JsPosInf)) = 0
  /\ effectiveMaxDaysBack (opts (Some JsNegInf)) = 0
  /\ (forall v, 0 <= effectiveMaxDaysBack (opts v) <= 30)
  /\ (forall network apiKey now log,
        let run := fun v => getSpacePictureOfTheDay network apiKey now (opts (Some v)) log in
        run JsNaN = run (ofInt 0) /\ run JsPosInf = run (ofInt 0)
        /\ run JsNegInf = run (ofInt 0)).
Proof.
  cbv zeta. repeat split; try reflexivity.
  - intros n. unfold effectiveMaxDaysBack, clampInt, ofInt.
    cbn [opt_maxDaysBack Number_isFinite negb]. rewrite Qfloor_Z. reflexivity.
  - apply effectiveMaxDaysBack_range.
  - apply effectiveMaxDaysBack_range.
Qed.

(** C1, as stated, fails: with [maxDaysBack = NaN] the bound is 0, not the
    default 10, and against a server that always fails the call with NaN
    makes one request where the call with 10 makes eleven. *)
Lemma C1_nan_is_not_the_default :
  let nan := optionsOf "2026-01-22" JsNaN in
  let ten := optionsOf "2026-01-22" (ofInt 10) in
  effectiveMaxDaysBack nan = 0
  /\ effectiveMaxDaysBack nan <> effectiveMaxDaysBack ten
  /\ length (snd (getSpacePictureOfTheDay serverError testKey noon20260122 nan [])) = 1%nat
  /\ length (snd (getSpacePictureOfTheDay serverError testKey noon20260122 ten [])) = 11%nat
  /\ getSpacePictureOfTheDay serverError testKey noon20260122 nan []
     <> getSpacePictureOfTheDay serverError testKey noon20260122 ten [].
Proof.
  cbv zeta. split; [reflexivity|]. split; [discriminate|].
  assert (H1 : length (snd (getSpacePictureOfTheDay serverError testKey noon20260122
                              (optionsOf "2026-01-22" JsNaN) [])) = 1%nat)
    by (vm_compute; reflexivity).
  assert (H2 : length (snd (getSpacePictureOfTheDay serverError testKey noon20260122
                              (optionsOf "2026-01-22" (ofInt 10)) [])) = 11%nat)
    by (vm_compute; reflexivity).
  split; [exact H1|]. split; [exact H2|].
  intros E. rewrite E in H1. rewrite H1 in H2. discriminate H2.
Qed.

(** C8. A [date] argument is rejected exactly when it is not written as
    four digits, a dash, two digits, a dash and two digits with a month
    from 01 to 12 and a day from 01 to 31, which is when it does not match
    the pattern or does not parse: [getSpacePictureOfTheDay] then throws
    "Invalid date format. Use YYYY-MM-DD." at once, and the log of
    requests is left as it was. A date that is so written is accepted,
    whether or not the day exists in its month: a request is made, the
    first one for the date that [parseDateUTC] reads. *)
Theorem C8_invalid_date_rejected
    (network : list ApodRequest -> ApodRequest -> jsstring + Response)
    (apiKey : jsstring) (now : Date) (date : jsstring)
    (maxDaysBack : option JsNumber) (log : list ApodRequest) :
  let run :=
    getSpacePictureOfTheDay network apiKey now
      {| opt_date := Some date; opt_maxDaysBack := maxDaysBack |} log in
  let invalid := (inl (lit "Invalid date format. Use YYYY-MM-DD."), log) in
  let written :=
    exists y1 y2 y3 y4 m1 m2 d1 d2,
      date = [y1; y2; y3; y4; 45%N; m1; m2; 45%N; d1; d2]
      /\ forallb isDigit [y1; y2; y3; y4; m1; m2; d1; d2] = true
      /\ 1 <= digitsValue [m1; m2] <= 12
      /\ 1 <= digitsValue [d1; d2] <= 31 in
  (matchesDateRegex date = false \/ getTime (newDateMidnightZ date) = None ->
   run = invalid)
  /\ (~ written -> run = invalid)
  /\ (written ->
      run <> invalid
      /\ exists rest,
           snd run
           = log ++ {| req_api_key := apiKey;
                       req_date := Some (formatDateUTC (parseDateUTC date)) |}
                    :: rest).
Proof.
  cbv zeta.
  assert (Hreject : isValidDateFormat date = false ->
            getSpacePictureOfTheDay network apiKey now
              {| opt_date := Some date; opt_maxDaysBack := maxDaysBack |} log
            = (inl (lit "Invalid date format. Use YYYY-MM-DD."), log)).
  { intros Hv. unfold getSpacePictureOfTheDay. cbn [opt_date].
    rewrite Hv. reflexivity. }
  split; [|split].
  - intros H. apply Hreject.
    unfold isValidDateFormat. destruct H as [H|H]; rewrite H.
    + reflexivity.
    + destruct (matchesDateRegex date); reflexivity.
  - intros Hw. apply Hreject.
    destruct (isValidDateFormat date) eqn:Hv; [|reflexivity].
    exfalso. apply Hw. apply valid_date_written. exact Hv.
  - intros Hw. apply valid_date_written in Hw.
    assert (Hsent : exists rest,
              snd (getSpacePictureOfTheDay network apiKey now
                     {| opt_date := Some date; opt_maxDaysBack := maxDaysBack |}
                     log)
              = log ++ {| req_api_key := apiKey;
                          req_date := Some (formatDateUTC (parseDateUTC date)) |}
                       :: rest).
    { unfold getSpacePictureOfTheDay. cbn [opt_date]. rewrite Hw. cbn [negb].
      pose proof (effectiveMaxDaysBack_range
                    {| opt_date := Some date; opt_maxDaysBack := maxDaysBack |})
        as Hr.
      destruct (Z.to_nat _) as [|n] eqn:En; [lia|].
      cbn [walk]. unfold tryCatch, bind.
      rewrite (fetchApod_run network apiKey) by apply formatDateUTC_truthy.
      destruct (fetchOutcome _) as [reason|apod].
      - match goal with
        | |- context [walk _ _ ?r ?n ?c ?f ?l] =>
            destruct (walk_requests network apiKey r n c f l) as (reqs & E & _)
        end.
        exists reqs. rewrite E, <- app_assoc. reflexivity.
      - exists []. reflexivity. }
    split; [|exact Hsent].
    destruct Hsent as [rest Hsent]. intros E. rewrite E in Hsent.
    cbn [snd] in Hsent. apply (f_equal (@length _)) in Hsent.
    rewrite length_app in Hsent. cbn [length] in Hsent. lia.
Qed.

(** A day beyond the end of its month, but not beyond 31, does parse: the
    date runs on into the next month, and the walk starts there. *)
Example february_30_parses :
  isValidDateFormat (lit "2026-02-30") = true
  /\ parseDateUTC (lit "2026-02-30") = parseDateUTC (lit "2026-03-02")
  /\ isValidDateFormat (lit "2026-02-32") = false
  /\ isValidDateFormat (lit "2026-13-01") = false
  /\ isValidDateFormat (lit "2026-00-10") = false.
Proof. repeat split; vm_compute; reflexivity. Qed.

(** The date of the specification's example, "01-22-2026", is rejected
    before any request. *)
Lemma C8_witness :
  getSpacePictureOfTheDay serverError testKey noon20260122
    {| opt_date := Some (lit "01-22-2026"); opt_maxDaysBack := None |} []
  = (inl (lit "Invalid date format. Use YYYY-MM-DD."), []).
Proof.
  pose proof (C8_invalid_date_rejected serverError testKey noon20260122
                (lit "01-22-2026") None []) as H.
  cbv zeta in H. destruct H as [H _].
  apply H. left. reflexivity.
Defined.

(** 2026-02-30 matches the pattern and is no date of the calendar,
    February 2026 having 28 days; it is not rejected: a request is made,
    for 2026-03-02. *)
Lemma C8_february_30_is_fetched :
  let run :=
    getSpacePictureOfTheDay serverError testKey noon20260122
      (optionsOf "2026-02-30" (ofInt 0)) [] in
  matchesDateRegex (lit "2026-02-30") = true
  /\ MonthLength.daysInMonth 2026 2 = 28
  /\ run <> (inl (lit "Invalid date format. Use YYYY-MM-DD."), [])
  /\ run
     = (inl (lit "Unable to fetch NASA APOD after checking 1 day(s) back from 2026-02-30. Last error (2026-03-02): NASA API error (500): Server error"),
        [{| req_api_key := testKey; req_date := Some (lit "2026-03-02") |}]).
Proof.
  cbv zeta.
  assert (E : getSpacePictureOfTheDay serverError testKey noon20260122
                (optionsOf "2026-02-30" (ofInt 0)) []
              = (inl (lit "Unable to fetch NASA APOD after checking 1 day(s) back from 2026-02-30. Last error (2026-03-02): NASA API error (500): Server error"),
                 [{| req_api_key := testKey;
                     req_date := Some (lit "2026-03-02") |}]))
    by (vm_compute; reflexivity).
  split; [vm_compute; reflexivity|]. split; [vm_compute; reflexivity|].
  split; [|exact E].
  rewrite E. intros H. discriminate H.
Qed.



(** C3 (as amended). When [getSpacePictureOfTheDay] returns a picture:
    [requestedDate] is the date asked for, which parses to a time [t0];
    one attempt [i], with [0 <= i <= maxDaysBack], was answered with a
    2xx status and a body that has every field, all attempts before it
    having failed; that attempt asked for the date [i] days before [t0],
    so never for a later date than the requested one; [dateUsed] is the
    [date] of the body and [mediaUrl] its [url], which is not empty.
    Hence, whenever the body is dated as was asked, [dateUsed] is the
    date of attempt [i], and it reads back as a date at or before the
    requested one when its year has four digits. *)
Theorem C3_success_is_a_walk_back
    (network : list ApodRequest -> ApodRequest -> jsstring + Response)
    (apiKey : jsstring) (now : Date) (options : Options)
    (log log' : list ApodRequest) (pic : SpacePictureOfTheDay) :
  getSpacePictureOfTheDay network apiKey now options log = (inr pic, log') ->
  exists (t0 : Z) (i : nat) (r : Response) (data : ApodJson),
    requestedDate pic = requestedDateOf now options
    /\ parseDateUTC (requestedDate pic) = Some t0
    /\ 0 <= Z.of_nat i <= effectiveMaxDaysBack options
    /\ timeOfAttempt t0 i = t0 - Z.of_nat i * msPerDay
    /\ timeOfAttempt t0 i <= t0
    /\ (forall k, (k < i)%nat ->
                  attemptFails (answerOfAttempt network apiKey t0 log k) = true)
    /\ answerOfAttempt network apiKey t0 log i = inr r
    /\ ok r = true /\ json r = inr data /\ missingField data = false
    /\ log' = log ++ requestsBefore apiKey t0 (S i)
    /\ dateUsed pic = orEmpty (j_date data)
    /\ mediaUrl pic = orEmpty (j_url data)
    /\ mediaUrl pic <> []
    /\ (j_date data = req_date (requestOfAttempt apiKey t0 i) ->
        dateUsed pic = formatDateUTC (Some (timeOfAttempt t0 i))
        /\ (1000 <= YearFromTime (timeOfAttempt t0 i) <= 9999 ->
            parseDateUTC (dateUsed pic) = Some (timeOfAttempt t0 i))).
Proof.
  unfold getSpacePictureOfTheDay. fold (requestedDateOf now options).
  intros Hrun.
  destruct (isValidDateFormat (requestedDateOf now options)) eqn:Hvalid;
    [|discriminate Hrun].
  cbn [negb] in Hrun.
  destruct (valid_date_parses _ Hvalid) as (t0 & Hparse & Hmid & Hlo & Hhi).
  pose proof (effectiveMaxDaysBack_range options) as Hrange.
  rewrite Hparse in Hrun.
  pose proof (walk_success network apiKey t0 (requestedDateOf now options)
                (Z.to_nat (effectiveMaxDaysBack options + 1)) 0 [] log pic log')
    as Hw.
  unfold timeOfAttempt at 2 3 in Hw. cbn [Z.of_nat] in Hw.
  replace (t0 - 0 * msPerDay) with t0 in Hw by lia.
  change (requestsBefore apiKey t0 0) with (@nil ApodRequest) in Hw.
  rewrite app_nil_r in Hw.
  destruct Hw as (j & r & data & Hj & Hbefore & Hans & Hok & Hjson & Hmiss & Hpic & Hlog).
  - unfold timeOfAttempt, msPerDay in *. lia.
  - unfold msPerDay in *. lia.
  - exact Hrun.
  - exists t0, j, r, data. subst pic. cbn [requestedDate dateUsed mediaUrl toSpacePictureOfTheDay apodOfJson date url].
    repeat match goal with |- _ /\ _ => split end;
      try assumption; try reflexivity.
    + lia.
    + lia.
    + unfold timeOfAttempt, msPerDay. lia.
    + intros k Hk. apply Hbefore. lia.
    + unfold missingField in Hmiss.
      repeat (apply orb_false_elim in Hmiss; destruct Hmiss as [Hmiss ?]).
      destruct (j_url data) as [[|c u]|]; discriminate.
    + intros Hecho. rewrite Hecho. cbn [requestOfAttempt req_date orEmpty].
      split; [reflexivity|]. intros Hyear.
      apply newDate_formatDateUTC; [|exact Hyear|].
      * unfold TimeWithinDay, timeOfAttempt in *.
        replace (t0 - Z.of_nat j * msPerDay)
          with (t0 + (- Z.of_nat j) * msPerDay) by lia.
        rewrite Z.mod_add by (unfold msPerDay; lia). exact Hmid.
      * unfold timeOfAttempt, msPerDay in *. lia.
Qed.

(** The walk-back test of the repository: 2026-01-22 fails, 2026-01-21
    succeeds, after two requests. *)
Lemma C3_witness :
  let options := optionsOf "2026-01-22" (ofInt 5) in
  let pic := toSpacePictureOfTheDay (apodOfJson previousDayBody) (lit "2026-01-22") in
  let log' := [{| req_api_key := testKey; req_date := Some (lit "2026-01-22") |};
               {| req_api_key := testKey; req_date := Some (lit "2026-01-21") |}] in
  getSpacePictureOfTheDay firstDateFails testKey noon20260122 options []
  = (inr pic, log')
  /\ dateUsed pic = lit "2026-01-21"
  /\ exists (t0 : Z) (i : nat) (r : Response) (data : ApodJson),
      requestedDate pic = requestedDateOf noon20260122 options
      /\ parseDateUTC (requestedDate pic) = Some t0
      /\ 0 <= Z.of_nat i <= effectiveMaxDaysBack options
      /\ timeOfAttempt t0 i = t0 - Z.of_nat i * msPerDay
      /\ timeOfAttempt t0 i <= t0
      /\ (forall k, (k < i)%nat ->
                    attemptFails (answerOfAttempt firstDateFails testKey t0 [] k) = true)
      /\ answerOfAttempt firstDateFails testKey t0 [] i = inr r
      /\ ok r = true /\ json r = inr data /\ missingField data = false
      /\ log' = [] ++ requestsBefore testKey t0 (S i)
      /\ dateUsed pic = orEmpty (j_date data)
      /\ mediaUrl pic = orEmpty (j_url data)
      /\ mediaUrl pic <> []
      /\ (j_date data = req_date (requestOfAttempt testKey t0 i) ->
          dateUsed pic = formatDateUTC (Some (timeOfAttempt t0 i))
          /\ (1000 <= YearFromTime (timeOfAttempt t0 i) <= 9999 ->
              parseDateUTC (dateUsed pic) = Some (timeOfAttempt t0 i))).
Proof.
  cbv zeta.
  assert (Hrun : getSpacePictureOfTheDay firstDateFails testKey noon20260122
                   (optionsOf "2026-01-22" (ofInt 5)) []
                 = (inr (toSpacePictureOfTheDay (apodOfJson previousDayBody)
                           (lit "2026-01-22")),
                    [{| req_api_key := testKey; req_date := Some (lit "2026-01-22") |};
                     {| req_api_key := testKey; req_date := Some (lit "2026-01-21") |}]))
    by (vm_compute; reflexivity).
  split; [exact Hrun|]. split; [reflexivity|].
  exact (C3_success_is_a_walk_back firstDateFails testKey noon20260122
           (optionsOf "2026-01-22" (ofInt 5)) [] _ _ Hrun).
Defined.

(** C3, as stated, fails: [dateUsed] is the date the server reports, not
    the date of the walk. A server that answers the request for
    2026-01-22 with a picture dated 2026-01-23 gives a successful result
    whose [dateUsed] is the day after [requestedDate]. *)
Lemma C3_dateUsed_may_be_later :
  exists pic log',
    getSpacePictureOfTheDay answersLaterDate testKey noon20260122
      (optionsOf "2026-01-22" (ofInt 5)) [] = (inr pic, log')
    /\ requestedDate pic = lit "2026-01-22"
    /\ dateUsed pic = lit "2026-01-23"
    /\ parseDateUTC (requestedDate pic) = Some 1769040000000
    /\ parseDateUTC (dateUsed pic) = Some 1769126400000
    /\ ~ (1769126400000 <= 1769040000000).
Proof.
  eexists. eexists. split; [vm_compute; reflexivity|].
  repeat split; try (vm_compute; reflexivity). lia.
Qed.

Lemma dropWhileEnd_length p s : (length (dropWhileEnd p s) <= length s)%nat.
Proof.
  induction s as [|c r IH]; [apply Nat.le_refl|].
  cbn [dropWhileEnd]. destruct (dropWhileEnd p r) as [|x r'].
  - destruct (p c); cbn [length]; lia.
  - cbn [length] in *. lia.
Qed.

(** C2 (as amended). The block of a result starts with the banner, the
    dated title line and an empty line; the line that follows is made of
    the explanation with every run of white space turned into one space
    and both ends trimmed: that text itself when it has at most 420 code
    units, otherwise its first 419 code units, trimmed at the end, with
    one ellipsis appended. The line never has more than 420 code units. *)
Theorem C2_explanation_line (apod : ApodApiResponse) (requested : jsstring) :
  let pic := toSpacePictureOfTheDay apod requested in
  let text := normalizeWhitespace (explanation apod) in
  let line := if (length text <=? 420)%nat then text
              else trimEnd (firstn 419 text) ++ [ellipsis] in
  explanationLine apod = Some line
  /\ (exists rest,
        spaceEditionBlock pic
        = lit "Did you know? Space Edition!" ++ [10%N]
          ++ (lit "NASA APOD (" ++ date apod ++ lit ") " ++ [emDash] ++ lit " "
              ++ title apod) ++ [10%N]
          ++ [10%N]
          ++ line ++ [10%N]
          ++ [10%N]
          ++ rest)
  /\ (length line <= 420)%nat.
Proof.
  cbv zeta.
  assert (Htr : truncate (normalizeWhitespace (explanation apod)) 420
                = if (length (normalizeWhitespace (explanation apod)) <=? 420)%nat
                  then normalizeWhitespace (explanation apod)
                  else trimEnd (firstn 419 (normalizeWhitespace (explanation apod)))
                       ++ [ellipsis]).
  { unfold truncate, sliceTo.
    destruct (Nat.leb_spec (length (normalizeWhitespace (explanation apod))) 420);
      destruct (Z.leb_spec (Z.of_nat (length (normalizeWhitespace (explanation apod)))) 420);
      try lia; reflexivity. }
  split; [|split].
  - unfold explanationLine, spaceEditionLines. cbn [app nth_error].
    rewrite Htr. reflexivity.
  - cbn [toSpacePictureOfTheDay spaceEditionBlock].
    unfold buildSpaceEditionBlock, spaceEditionLines. rewrite Htr.
    cbn [app]. cbn [join]. cbn [app].
    eexists. repeat rewrite <- app_assoc. cbn [app]. reflexivity.
  - destruct (Nat.leb_spec (length (normalizeWhitespace (explanation apod))) 420);
      [assumption|].
    rewrite length_app. cbn [length].
    pose proof (dropWhileEnd_length isWhiteSpace
                  (firstn 419 (normalizeWhitespace (explanation apod)))) as Hl.
    rewrite length_firstn in Hl. unfold trimEnd. lia.
Qed.

(** C2, as stated, fails in two ways. An explanation of 421 letters is cut
    after 419 of them, not 420; and an explanation of four code units with
    two spaces in a row is not left unchanged. *)
Lemma C2_cut_at_419_and_normalised :
  let long := repeat 97%N 421 in
  explanationLine (apodExplaining long) = Some (repeat 97%N 419 ++ [ellipsis])
  /\ explanationLine (apodExplaining long)
     <> Some (trimEnd (firstn 420 long) ++ [ellipsis])
  /\ explanationLine (apodExplaining (lit "a  b")) = Some (lit "a b")
  /\ explanationLine (apodExplaining (lit "a  b")) <> Some (lit "a  b").
Proof.
  cbv zeta.
  assert (H1 : explanationLine (apodExplaining (repeat 97%N 421))
               = Some (repeat 97%N 419 ++ [ellipsis])) by (vm_compute; reflexivity).
  assert (H2 : explanationLine (apodExplaining (lit "a  b")) = Some (lit "a b"))
    by (vm_compute; reflexivity).
  split; [exact H1|]. split.
  - rewrite H1. intros E. apply (f_equal (option_map (@length codeUnit))) in E.
    vm_compute in E. discriminate E.
  - split; [exact H2|]. rewrite H2. discriminate.
Qed.

End ApodClaims.

(** ** Base64 *)

Module Base64Facts.

Import Buffer Rfc4648 Gmail GmailTrace.

Local Open Scope N_scope.

Lemma sextets_complete i : i < 64 -> In i sextets.
Proof.
  intros H. unfold sextets.
  replace i with (N.of_nat (N.to_nat i)) by apply N2Nat.id.
  apply in_map. apply in_seq. lia.
Qed.

Lemma sextetCheck_all : forallb sextetCheck sextets = true.
Proof. vm_compute. reflexivity. Qed.

Lemma sextet_urlChar i :
  i < 64 ->
  sextet (urlChar (base64Char i)) = Some i
  /\ isPad (urlChar (base64Char i)) = false.
Proof.
  intros H.
  pose proof (proj1 (forallb_forall _ _) sextetCheck_all i (sextets_complete i H)) as Hc.
  unfold sextetCheck in Hc.
  destruct (sextet (urlChar (base64Char i))) as [j|]; [|discriminate Hc].
  apply andb_prop in Hc. destruct Hc as [Hc _].
  apply andb_prop in Hc. destruct Hc as [Hj Hp].
  apply N.eqb_eq in Hj. subst j.
  split; [reflexivity|]. apply negb_true_iff. exact Hp.
Qed.

Lemma urlChar_alphabet i :
  i < 64 -> urlChar (base64Char i) = urlAlphabet i.
Proof.
  intros H.
  pose proof (proj1 (forallb_forall _ _) sextetCheck_all i (sextets_complete i H)) as Hc.
  unfold sextetCheck in Hc.
  destruct (sextet (urlChar (base64Char i))) as [j|]; [|discriminate Hc].
  apply andb_prop in Hc. destruct Hc as [_ Hc].
  apply N.eqb_eq in Hc. exact Hc.
Qed.

Lemma toBase64url_map s :
  toBase64url s = dropWhileEnd isPad (map urlChar s).
Proof. unfold toBase64url. rewrite map_map. reflexivity. Qed.

Lemma dropWhileEnd_keep p c r :
  p c = false -> dropWhileEnd p (c :: r) = c :: dropWhileEnd p r.
Proof.
  intros H. cbn [dropWhileEnd]. rewrite H.
  destruct (dropWhileEnd p r); reflexivity.
Qed.

Lemma byteOf_to_N b : byteOf (Byte.to_N b) = b.
Proof. unfold byteOf. rewrite Byte.of_to_N. reflexivity. Qed.

(** Lists taken three elements at a time. *)
Lemma list_ind3 {A} (P : list A -> Prop) :
  P [] -> (forall a, P [a]) -> (forall a b, P [a; b]) ->
  (forall a b c r, P r -> P (a :: b :: c :: r)) ->
  forall l, P l.
Proof.
  intros H0 H1 H2 H3.
  assert (H : forall l, P l /\ (forall a, P (a :: l)) /\ (forall a b, P (a :: b :: l))).
  { induction l as [|x l (IH0 & IH1 & IH2)].
    - repeat split; auto.
    - repeat split; auto. }
  intros l. apply H.
Qed.

Lemma sextets_of_bytes (A B C : N) :
  A <= 255 -> B <= 255 -> C <= 255 ->
  let x0 := A / 4 in
  let x1 := (A mod 4) * 16 + B / 16 in
  let x2 := (B mod 16) * 4 + C / 64 in
  let x3 := C mod 64 in
  (x0 < 64 /\ x1 < 64 /\ x2 < 64 /\ x3 < 64)
  /\ x0 * 4 + x1 / 16 = A
  /\ (x1 mod 16) * 16 + x2 / 4 = B
  /\ (x2 mod 4) * 64 + x3 = C.
Proof.
  intros HA HB HC. cbv zeta.
  repeat split; euclid.
Qed.

(** What is decoded from the encoding of a buffer is the buffer, and the
    encoding is written in the URL-safe alphabet alone. *)
Lemma base64url_roundtrip (bs : list byte) :
  base64urlDecode (toBase64url (toBase64 bs)) = Some bs
  /\ forallb isUrlSafeChar (toBase64url (toBase64 bs)) = true.
Proof.
  induction bs as [|a|a b|a b c r [IHd IHs]] using list_ind3.
  - split; reflexivity.
  - pose proof (Byte.to_N_bounded a) as Ha.
    destruct (sextets_of_bytes (Byte.to_N a) 0 0 Ha ltac:(lia) ltac:(lia))
      as ((H0 & H1 & _ & _) & Ea & _ & _).
    cbv zeta in *. change (0 / 16) with 0 in *. rewrite N.add_0_r in *.
    destruct (sextet_urlChar _ H0) as [S0 P0].
    destruct (sextet_urlChar _ H1) as [S1 P1].
    rewrite toBase64url_map. cbn [toBase64 map].
    rewrite (dropWhileEnd_keep _ _ _ P0), (dropWhileEnd_keep _ _ _ P1).
    change (dropWhileEnd isPad [urlChar padChar; urlChar padChar]) with (@nil codeUnit).
    unfold isUrlSafeChar. cbn [base64urlDecode forallb].
    rewrite S0, S1, Ea, byteOf_to_N. split; reflexivity.
  - pose proof (Byte.to_N_bounded a) as Ha.
    pose proof (Byte.to_N_bounded b) as Hb.
    destruct (sextets_of_bytes (Byte.to_N a) (Byte.to_N b) 0 Ha Hb ltac:(lia))
      as ((H0 & H1 & H2 & _) & Ea & Eb & _).
    cbv zeta in *. change (0 / 64) with 0 in *. rewrite N.add_0_r in *.
    destruct (sextet_urlChar _ H0) as [S0 P0].
    destruct (sextet_urlChar _ H1) as [S1 P1].
    destruct (sextet_urlChar _ H2) as [S2 P2].
    rewrite toBase64url_map. cbn [toBase64 map].
    rewrite (dropWhileEnd_keep _ _ _ P0), (dropWhileEnd_keep _ _ _ P1),
      (dropWhileEnd_keep _ _ _ P2).
    change (dropWhileEnd isPad [urlChar padChar]) with (@nil codeUnit).
    unfold isUrlSafeChar. cbn [base64urlDecode forallb].
    rewrite S0, S1, S2, Ea, Eb, !byteOf_to_N. split; reflexivity.
  - pose proof (Byte.to_N_bounded a) as Ha.
    pose proof (Byte.to_N_bounded b) as Hb.
    pose proof (Byte.to_N_bounded c) as Hc.
    destruct (sextets_of_bytes (Byte.to_N a) (Byte.to_N b) (Byte.to_N c) Ha Hb Hc)
      as ((H0 & H1 & H2 & H3) & Ea & Eb & Ec).
    cbv zeta in *.
    destruct (sextet_urlChar _ H0) as [S0 P0].
    destruct (sextet_urlChar _ H1) as [S1 P1].
    destruct (sextet_urlChar _ H2) as [S2 P2].
    destruct (sextet_urlChar _ H3) as [S3 P3].
    rewrite toBase64url_map in *. cbn [toBase64 map app].
    rewrite (dropWhileEnd_keep _ _ _ P0), (dropWhileEnd_keep _ _ _ P1),
      (dropWhileEnd_keep _ _ _ P2), (dropWhileEnd_keep _ _ _ P3).
    unfold isUrlSafeChar in *. cbn [base64urlDecode forallb].
    rewrite S0, S1, S2, S3, IHd, IHs, Ea, Eb, Ec, !byteOf_to_N.
    split; reflexivity.
Qed.

(** Encoding in base64, rewriting [+] and [/] and dropping the padding is
    encoding in base64url without padding. *)
Lemma toBase64url_refines (bs : list byte) :
  toBase64url (toBase64 bs) = base64urlEncode bs.
Proof.
  induction bs as [|a|a b|a b c r IH] using list_ind3.
  - reflexivity.
  - pose proof (Byte.to_N_bounded a) as Ha.
    destruct (sextets_of_bytes (Byte.to_N a) 0 0 Ha ltac:(lia) ltac:(lia))
      as ((H0 & H1 & _ & _) & _).
    cbv zeta in *. change (0 / 16) with 0 in *. rewrite N.add_0_r in *.
    destruct (sextet_urlChar _ H0) as [_ P0].
    destruct (sextet_urlChar _ H1) as [_ P1].
    rewrite toBase64url_map. cbn [toBase64 map base64urlEncode].
    rewrite (dropWhileEnd_keep _ _ _ P0), (dropWhileEnd_keep _ _ _ P1).
    change (dropWhileEnd isPad [urlChar padChar; urlChar padChar]) with (@nil codeUnit).
    rewrite !urlChar_alphabet by assumption. reflexivity.
  - pose proof (Byte.to_N_bounded a) as Ha.
    pose proof (Byte.to_N_bounded b) as Hb.
    destruct (sextets_of_bytes (Byte.to_N a) (Byte.to_N b) 0 Ha Hb ltac:(lia))
      as ((H0 & H1 & H2 & _) & _).
    cbv zeta in *. change (0 / 64) with 0 in *. rewrite N.add_0_r in *.
    destruct (sextet_urlChar _ H0) as [_ P0].
    destruct (sextet_urlChar _ H1) as [_ P1].
    destruct (sextet_urlChar _ H2) as [_ P2].
    rewrite toBase64url_map. cbn [toBase64 map base64urlEncode].
    rewrite (dropWhileEnd_keep _ _ _ P0), (dropWhileEnd_keep _ _ _ P1),
      (dropWhileEnd_keep _ _ _ P2).
    change (dropWhileEnd isPad [urlChar padChar]) with (@nil codeUnit).
    rewrite !urlChar_alphabet by assumption. reflexivity.
  - pose proof (Byte.to_N_bounded a) as Ha.
    pose proof (Byte.to_N_bounded b) as Hb.
    pose proof (Byte.to_N_bounded c) as Hc.
    destruct (sextets_of_bytes (Byte.to_N a) (Byte.to_N b) (Byte.to_N c) Ha Hb Hc)
      as ((H0 & H1 & H2 & H3) & _).
    cbv zeta in *.
    destruct (sextet_urlChar _ H0) as [_ P0].
    destruct (sextet_urlChar _ H1) as [_ P1].
    destruct (sextet_urlChar _ H2) as [_ P2].
    destruct (sextet_urlChar _ H3) as [_ P3].
    rewrite toBase64url_map in *. cbn [toBase64 map app base64urlEncode].
    rewrite (dropWhileEnd_keep _ _ _ P0), (dropWhileEnd_keep _ _ _ P1),
      (dropWhileEnd_keep _ _ _ P2), (dropWhileEnd_keep _ _ _ P3).
    rewrite IH, !urlChar_alphabet by assumption. reflexivity.
Qed.

End Base64Facts.

(** ** UTF-8 *)

Module Utf8Facts.

Import Buffer Utf8.

Local Open Scope N_scope.

Lemma to_N_byteOf n : (n < 256)%N -> Byte.to_N (byteOf n) = n.
Proof.
  intros H. unfold byteOf.
  destruct (Byte.of_N n) as [b|] eqn:E.
  - apply Byte.to_of_N. exact E.
  - pose proof (Byte.to_of_N_option_map n) as Hm. rewrite E in Hm. cbn in Hm.
    destruct (N.leb_spec n 255); [discriminate Hm | lia].
Qed.

Lemma decode_codePoint cp rest :
  cp < 1114112 ->
  decode (utf8OfCodePoint cp ++ rest)
  = option_map (app (unitsOfCodePoint cp)) (decode rest).
Proof.
  intros Hcp. unfold utf8OfCodePoint, unitsOfCodePoint.
  destruct (N.ltb_spec cp 128) as [H1|H1].
  - destruct (N.ltb_spec cp 65536); [|lia].
    cbn [app decode]. rewrite to_N_byteOf by lia.
    destruct (N.ltb_spec cp 128); [reflexivity | lia].
  - destruct (N.ltb_spec cp 2048) as [H2|H2].
    + destruct (N.ltb_spec cp 65536); [|lia].
      cbn [app decode].
      assert (B0 : 192 + cp / 64 < 224 /\ 192 <= 192 + cp / 64)
        by (euclid).
      assert (B1 : 128 <= 128 + cp mod 64 < 192)
        by (euclid).
      rewrite !to_N_byteOf by lia. unfold isContinuation.
      destruct (N.ltb_spec (192 + cp / 64) 128); [lia|].
      destruct (N.ltb_spec (192 + cp / 64) 192); [lia|].
      destruct (N.leb_spec 128 (128 + cp mod 64)); [|lia].
      destruct (N.ltb_spec (128 + cp mod 64) 192); [|lia].
      cbn [andb negb orb].
      destruct (N.ltb_spec (192 + cp / 64) 224); [|lia].
      replace ((192 + cp / 64 - 192) * 64 + (128 + cp mod 64 - 128)) with cp
        by (euclid).
      reflexivity.
    + destruct (N.ltb_spec cp 65536) as [H3|H3].
      * cbn [app decode].
        assert (B0 : 224 <= 224 + cp / 4096 < 240)
          by (euclid).
        assert (B1 : 128 <= 128 + (cp / 64) mod 64 < 192)
          by (euclid).
        assert (B2 : 128 <= 128 + cp mod 64 < 192)
          by (euclid).
        rewrite !to_N_byteOf by lia. unfold isContinuation.
        destruct (N.ltb_spec (224 + cp / 4096) 128); [lia|].
        destruct (N.ltb_spec (224 + cp / 4096) 192); [lia|].
        destruct (N.ltb_spec (224 + cp / 4096) 224); [lia|].
        destruct (N.ltb_spec (224 + cp / 4096) 240); [|lia].
        destruct (N.leb_spec 128 (128 + (cp / 64) mod 64)); [|lia].
        destruct (N.ltb_spec (128 + (cp / 64) mod 64) 192); [|lia].
        destruct (N.leb_spec 128 (128 + cp mod 64)); [|lia].
        destruct (N.ltb_spec (128 + cp mod 64) 192); [|lia].
        cbn [andb negb orb].
        replace ((224 + cp / 4096 - 224) * 4096
                 + (128 + (cp / 64) mod 64 - 128) * 64 + (128 + cp mod 64 - 128))
          with cp by (euclid).
        reflexivity.
      * cbn [app decode].
        assert (B0 : 240 <= 240 + cp / 262144 < 248)
          by (euclid).
        assert (B1 : 128 <= 128 + (cp / 4096) mod 64 < 192)
          by (euclid).
        assert (B2 : 128 <= 128 + (cp / 64) mod 64 < 192)
          by (euclid).
        assert (B3 : 128 <= 128 + cp mod 64 < 192)
          by (euclid).
        rewrite !to_N_byteOf by lia. unfold isContinuation.
        destruct (N.ltb_spec (240 + cp / 262144) 128); [lia|].
        destruct (N.ltb_spec (240 + cp / 262144) 192); [lia|].
        destruct (N.ltb_spec (240 + cp / 262144) 224); [lia|].
        destruct (N.ltb_spec (240 + cp / 262144) 240); [lia|].
        destruct (N.leb_spec 248 (240 + cp / 262144)); [lia|].
        destruct (N.leb_spec 128 (128 + (cp / 4096) mod 64)); [|lia].
        destruct (N.ltb_spec (128 + (cp / 4096) mod 64) 192); [|lia].
        destruct (N.leb_spec 128 (128 + (cp / 64) mod 64)); [|lia].
        destruct (N.ltb_spec (128 + (cp / 64) mod 64) 192); [|lia].
        destruct (N.leb_spec 128 (128 + cp mod 64)); [|lia].
        destruct (N.ltb_spec (128 + cp mod 64) 192); [|lia].
        cbn [andb negb orb].
        replace ((240 + cp / 262144 - 240) * 262144
                 + (128 + (cp / 4096) mod 64 - 128) * 4096
                 + (128 + (cp / 64) mod 64 - 128) * 64 + (128 + cp mod 64 - 128))
          with cp by (euclid).
        unfold unitsOfCodePoint.
        destruct (N.ltb_spec cp 65536); [lia|]. reflexivity.
Qed.

(** Reading as UTF-8 the bytes of a string in which every surrogate is
    paired gives the string back. *)
Lemma decode_from s : forall n,
  (length s <= n)%nat -> wellFormed s = true -> decode (Buffer.from s) = Some s.
Proof.
  intros n. revert s. induction n as [|n IH]; intros s Hn Hwf.
  - destruct s; [reflexivity | cbn in Hn; lia].
  - destruct s as [|c r]; [reflexivity|].
    cbn [wellFormed Buffer.from] in *.
    destruct (isHighSurrogate c) eqn:Hhi.
    + destruct r as [|c2 r']; [discriminate Hwf|].
      apply andb_prop in Hwf. destruct Hwf as [Hlo Hwf]. rewrite Hlo.
      unfold isHighSurrogate, isLowSurrogate in Hhi, Hlo.
      apply andb_prop in Hhi, Hlo. destruct Hhi as [Hh1 Hh2]. destruct Hlo as [Hl1 Hl2].
      apply N.leb_le in Hh1, Hh2, Hl1, Hl2.
      rewrite decode_codePoint by lia.
      rewrite IH by (try assumption; cbn [length] in Hn; lia).
      cbn [option_map]. unfold unitsOfCodePoint.
      destruct (N.ltb_spec (65536 + (c - 55296) * 1024 + (c2 - 56320)) 65536); [lia|].
      f_equal. cbn [app]. f_equal; [|f_equal];
        euclid.
    + apply andb_prop in Hwf. destruct Hwf as [Hwf Hr].
      apply andb_prop in Hwf. destruct Hwf as [Hlo Hc].
      apply negb_true_iff in Hlo. rewrite Hlo.
      apply N.ltb_lt in Hc.
      rewrite decode_codePoint by lia.
      rewrite IH by (try assumption; cbn [length] in Hn; lia).
      cbn [option_map]. unfold unitsOfCodePoint.
      destruct (N.ltb_spec c 65536); [reflexivity | lia].
Qed.

Lemma utf8_roundtrip s :
  wellFormed s = true -> decode (Buffer.from s) = Some s.
Proof. apply (decode_from s (length s)). apply Nat.le_refl. Qed.

(** A surrogate without its partner is written as U+FFFD: two strings
    that differ have the same bytes. *)
Example lone_surrogate_is_replaced :
  Buffer.from [55296] = Buffer.from [65533]
  /\ wellFormed [55296] = false.
Proof. split; reflexivity. Qed.

End Utf8Facts.

(** ** Claims about the Gmail service *)

Module GmailClaims.

Import Buffer Rfc4648 Gmail GmailTrace GmailScenarios Base64Facts.

Lemma eqb_eq a : forall b, JsStr.eqb a b = true <-> a = b.
Proof.
  induction a as [|x a IH]; intros [|y b]; cbn [JsStr.eqb];
    try (split; [discriminate | discriminate]); [split; reflexivity|].
  rewrite andb_true_iff, N.eqb_eq, IH.
  split; [intros [-> ->]; reflexivity | intros E; injection E; auto].
Qed.

Lemma join_app sep (p q : list jsstring) :
  p <> [] -> q <> [] -> join sep (p ++ q) = join sep p ++ sep ++ join sep q.
Proof.
  intros Hp Hq. induction p as [|x p IH]; [contradiction|].
  destruct p as [|y p].
  - cbn [app join]. destruct q as [|z q]; [contradiction|]. reflexivity.
  - change ((x :: y :: p) ++ q) with (x :: (y :: p) ++ q).
    change (join sep (x :: (y :: p) ++ q))
      with (x ++ sep ++ join sep ((y :: p) ++ q)).
    rewrite IH by discriminate.
    change (join sep (x :: y :: p)) with (x ++ sep ++ join sep (y :: p)).
    rewrite <- !app_assoc. reflexivity.
Qed.

(** The value [headerValue] extracts is not empty exactly when the first
    header with that very name has a value that is not empty. *)
Lemma headerValue_nonempty n hs :
  headerValue n hs <> [] <->
  exists before h after v,
    hs = before ++ h :: after
    /\ existsb (named n) before = false
    /\ name h = Some n /\ value h = Some v /\ v <> [].
Proof.
  unfold headerValue. fold (named n).
  induction hs as [|x hs IH].
  - cbn [find]. split; [intros H; contradiction H; reflexivity|].
    intros (before & h & after & v & E & _). destruct before; discriminate E.
  - cbn [find]. destruct (named n x) eqn:Hx.
    + split.
      * intros Hv. destruct (value x) as [v|] eqn:Hval; [|contradiction Hv; reflexivity].
        exists [], x, hs, v.
        split; [reflexivity|]. split; [reflexivity|].
        split; [|split; [exact Hval | exact Hv]].
        unfold named in Hx. destruct (name x) as [m|]; [|discriminate Hx].
        apply eqb_eq in Hx. subst m. reflexivity.
      * intros (before & h & after & v & E & Hb & Hn & Hv & Hne).
        destruct before as [|b before].
        -- injection E as -> ->. rewrite Hv. exact Hne.
        -- injection E as -> ->. cbn [existsb] in Hb. rewrite Hx in Hb. discriminate Hb.
    + rewrite IH. split.
      * intros (before & h & after & v & -> & Hb & Hrest).
        exists (x :: before), h, after, v. split; [reflexivity|].
        split; [cbn [existsb]; rewrite Hx; exact Hb | exact Hrest].
      * intros (before & h & after & v & E & Hb & Hn & Hrest).
        destruct before as [|b before].
        -- injection E as -> ->. unfold named in Hx. rewrite Hn in Hx.
           rewrite (proj2 (eqb_eq n n) eq_refl) in Hx. discriminate Hx.
        -- injection E as -> ->. cbn [existsb] in Hb. rewrite Hx in Hb.
           cbn [orb] in Hb. exists before, h, after, v.
           split; [reflexivity|]. split; [exact Hb|]. split; [exact Hn | exact Hrest].
Qed.

Lemma headerValue_absent n hs :
  existsb (named n) hs = false -> headerValue n hs = [].
Proof.
  unfold headerValue. fold (named n).
  induction hs as [|x hs IH]; [reflexivity|].
  cbn [existsb find]. intros H. apply orb_false_elim in H. destruct H as [Hx H].
  rewrite Hx. apply IH. exact H.
Qed.

Lemma emailLines_layout msg replyBody :
  emailLinesOf msg replyBody = headerLinesOf msg ++ [[]; replyBody].
Proof.
  unfold emailLinesOf, headerLinesOf, messageIdOf, threadingLines. cbv zeta.
  destruct (headerValue (lit "Message-ID") (orNil (headers msg)));
    cbn [app]; reflexivity.
Qed.

Lemma headerLines_nonempty msg : headerLinesOf msg <> [].
Proof. unfold headerLinesOf. cbv zeta. cbn [app]. discriminate. Qed.

Lemma rawEmail_layout msg replyBody :
  rawEmailOf msg replyBody
  = join crlf (headerLinesOf msg) ++ crlf ++ crlf ++ replyBody.
Proof.
  unfold rawEmailOf. rewrite emailLines_layout.
  rewrite join_app by (try apply headerLines_nonempty; discriminate).
  reflexivity.
Qed.

(** C5 (as amended). The lines the composer joins with CRLF are the header
    lines, one empty line, and the reply body, in that order, and no
    header line is empty: the empty line that separates headers from body
    is emitted exactly once. Among the header lines, those that set
    [In-Reply-To] or [References] are exactly the two lines carrying the
    extracted Message-ID when it is not empty, and none otherwise; and it
    is not empty exactly when the first header named [Message-ID], in
    that very spelling, has a value that is not empty. *)
Theorem C5_reply_layout (msg : Message) (replyBody : jsstring) :
  emailLinesOf msg replyBody = headerLinesOf msg ++ [[]; replyBody]
  /\ rawEmailOf msg replyBody
     = join crlf (headerLinesOf msg) ++ crlf ++ crlf ++ replyBody
  /\ existsb (fun line => JsStr.eqb line []) (headerLinesOf msg) = false
  /\ filter isThreadingLine (headerLinesOf msg)
     = match messageIdOf msg with
       | [] => []
       | _ :: _ => [lit "In-Reply-To: " ++ messageIdOf msg;
                    lit "References: " ++ messageIdOf msg]
       end
  /\ (existsb isThreadingLine (headerLinesOf msg) = true
      <-> messageIdOf msg <> [])
  /\ (messageIdOf msg <> [] <->
      exists before h after v,
        orNil (headers msg) = before ++ h :: after
        /\ existsb (named (lit "Message-ID")) before = false
        /\ name h = Some (lit "Message-ID")
        /\ value h = Some v /\ v <> []
        /\ messageIdOf msg = v).
Proof.
  split; [apply emailLines_layout|].
  split; [apply rawEmail_layout|].
  assert (Hfilter : filter isThreadingLine (headerLinesOf msg)
                    = match messageIdOf msg with
                      | [] => []
                      | _ :: _ => [lit "In-Reply-To: " ++ messageIdOf msg;
                                   lit "References: " ++ messageIdOf msg]
                      end).
  { unfold headerLinesOf, threadingLines. cbv zeta.
    destruct (messageIdOf msg); reflexivity. }
  split; [|split; [exact Hfilter|split]].
  - unfold headerLinesOf, threadingLines. cbv zeta.
    destruct (messageIdOf msg); reflexivity.
  - unfold headerLinesOf, threadingLines. cbv zeta.
    destruct (messageIdOf msg); cbn; split; congruence.
  - unfold messageIdOf. rewrite headerValue_nonempty. split.
    + intros (before & h & after & v & E & Hb & Hn & Hv & Hne).
      exists before, h, after, v. repeat split; try assumption.
      unfold headerValue. fold (named (lit "Message-ID")). rewrite E.
      clear E. induction before as [|b before IH].
      * cbn [app find]. unfold named at 1. rewrite Hn.
        rewrite (proj2 (eqb_eq _ _) eq_refl). rewrite Hv. reflexivity.
      * cbn [existsb] in Hb. apply orb_false_elim in Hb. destruct Hb as [Hb1 Hb2].
        cbn [app find]. rewrite Hb1. apply IH. exact Hb2.
    + intros (before & h & after & v & E & Hb & Hn & Hv & Hne & _).
      exists before, h, after, v. repeat split; assumption.
Qed.

(** The original message of the repository's tests has a Message-ID, so
    its reply carries the two threading lines. *)
Lemma C5_witness :
  existsb isThreadingLine (headerLinesOf original) = true
  /\ filter isThreadingLine (headerLinesOf original)
     = [lit "In-Reply-To: <original-message-id>";
        lit "References: <original-message-id>"].
Proof.
  destruct (C5_reply_layout original (lit "This is my reply"))
    as (_ & _ & _ & Hfilter & Hiff & _).
  split.
  - apply (proj2 Hiff). vm_compute. discriminate.
  - rewrite Hfilter. vm_compute. reflexivity.
Defined.

(** C5, as stated, fails: a message that carries a [Message-ID] header
    whose value is empty gets no [In-Reply-To] and no [References] line. *)
Lemma C5_empty_message_id_is_not_threaded :
  (exists h, In h (orNil (headers emptyMessageId))
             /\ name h = Some (lit "Message-ID") /\ value h = Some [])
  /\ emailLinesOf emptyMessageId (lit "Reply text")
     = [lit "To: original@example.com";
        lit "Subject: Re: Original Subject";
        lit "Content-Type: text/plain; charset=utf-8";
        [];
        lit "Reply text"]
  /\ ~ In (lit "In-Reply-To: ") (emailLinesOf emptyMessageId (lit "Reply text"))
  /\ ~ In (lit "References: ") (emailLinesOf emptyMessageId (lit "Reply text"))
  /\ existsb isThreadingLine (emailLinesOf emptyMessageId (lit "Reply text")) = false.
Proof.
  split.
  - exists {| name := Some (lit "Message-ID"); value := Some [] |}.
    split; [|split; reflexivity].
    cbn. right. right. left. reflexivity.
  - assert (H : emailLinesOf emptyMessageId (lit "Reply text")
                = [lit "To: original@example.com";
                   lit "Subject: Re: Original Subject";
                   lit "Content-Type: text/plain; charset=utf-8";
                   [];
                   lit "Reply text"]) by (vm_compute; reflexivity).
    split; [exact H|]. rewrite H.
    split; [|split; [|vm_compute; reflexivity]].
    + cbn [In]. intros [E|[E|[E|[E|[E|[]]]]]]; discriminate E.
    + cbn [In]. intros [E|[E|[E|[E|[E|[]]]]]]; discriminate E.
Qed.

Lemma urlSafe_is_not_pad s :
  forallb isUrlSafeChar s = true -> existsb isPad s = false.
Proof.
  induction s as [|c s IH]; [reflexivity|].
  cbn [forallb existsb]. intros H. apply andb_prop in H. destruct H as [Hc Hs].
  rewrite (IH Hs), orb_false_r.
  unfold isPad. destruct (N.eqb_spec c 61) as [->|]; [discriminate Hc | reflexivity].
Qed.

(** C7. When the original message is found, the payload submitted with the
    draft is the base64url encoding, without padding, of the buffer that
    was encoded; it is written in the URL-safe alphabet alone, so without
    any padding character, and decoding it by RFC 4648 section 5 gives back,
    byte for byte, the buffer that was encoded: the UTF-8 bytes of the
    header lines, an empty line and the reply body, joined by CRLF. Read
    as UTF-8, those bytes are that very text whenever every surrogate in
    it is paired. *)
Theorem C7_draft_payload_roundtrip
    (messages_get : list GmailCall -> jsstring -> jsstring + Message)
    (drafts_create : list GmailCall -> jsstring -> jsstring -> jsstring + Draft)
    (emailId replyBody : jsstring) (log : list GmailCall) (msg : Message) :
  messages_get log emailId = inr msg ->
  let raw := rawEmailOf msg replyBody in
  let payload := encodedEmailOf raw in
  snd (createDraftReply messages_get drafts_create emailId replyBody log)
  = log ++ [MessagesGet emailId (lit "full") [];
            DraftsCreate (threadId msg) payload]
  /\ payload = base64urlEncode (Buffer.from raw)
  /\ forallb isUrlSafeChar payload = true
  /\ existsb isPad payload = false
  /\ base64urlDecode payload = Some (Buffer.from raw)
  /\ raw = join crlf (headerLinesOf msg) ++ crlf ++ crlf ++ replyBody
  /\ (Utf8.wellFormed raw = true ->
      option_map Utf8.decode (base64urlDecode payload) = Some (Some raw)).
Proof.
  intros Hget. cbv zeta.
  destruct (base64url_roundtrip (Buffer.from (rawEmailOf msg replyBody)))
    as [Hdec Hsafe].
  split; [|split; [apply toBase64url_refines|
           split; [exact Hsafe|split; [apply urlSafe_is_not_pad; exact Hsafe|
           split; [exact Hdec | split; [apply rawEmail_layout|]]]]]].
  2: { intros Hwf. unfold encodedEmailOf. rewrite Hdec. cbn [option_map].
       rewrite Utf8Facts.utf8_roundtrip by exact Hwf. reflexivity. }
  unfold createDraftReply, bind, perform. rewrite Hget.
  destruct (drafts_create _ _ _); cbn [snd]; rewrite <- app_assoc; reflexivity.
Qed.

(** The reply of the repository's test: the payload decodes to the raw
    message. *)
Lemma C7_witness :
  let raw := rawEmailOf original (lit "This is my reply") in
  let payload := encodedEmailOf raw in
  snd (createDraftReply getsOriginal createsDraft1 (lit "msg1")
         (lit "This is my reply") [])
  = [] ++ [MessagesGet (lit "msg1") (lit "full") [];
           DraftsCreate (threadId original) payload]
  /\ payload = base64urlEncode (Buffer.from raw)
  /\ forallb isUrlSafeChar payload = true
  /\ existsb isPad payload = false
  /\ base64urlDecode payload = Some (Buffer.from raw)
  /\ raw = join crlf (headerLinesOf original) ++ crlf ++ crlf
           ++ lit "This is my reply"
  /\ (Utf8.wellFormed raw = true ->
      option_map Utf8.decode (base64urlDecode payload) = Some (Some raw)).
Proof.
  exact (C7_draft_payload_roundtrip getsOriginal createsDraft1 (lit "msg1")
           (lit "This is my reply") [] original eq_refl).
Defined.

(** No promise of a list of fulfilled promises is the first rejected. *)
Lemma firstRejected_fulfilled {A} (values : list A) (order : list nat) :
  firstRejected (map (@inr jsstring A) values) order = None.
Proof.
  induction order as [|i order IH]; [reflexivity|].
  cbn [firstRejected]. rewrite nth_error_map.
  destruct (nth_error values i); exact IH.
Qed.

Lemma Promise_all_fulfilled {S A} (order : list nat) (values : list A) (s : S) :
  Promise_all order (map inr values) s = (inr values, s).
Proof.
  unfold Promise_all. rewrite firstRejected_fulfilled.
  induction values as [|a values IH]; [reflexivity|].
  cbn [map valuesInOrder]. unfold bind. rewrite IH. reflexivity.
Qed.

(** The value of the first header of a name is the value extracted. *)
Lemma headerValue_first n before h after v :
  existsb (named n) before = false ->
  name h = Some n -> value h = Some v ->
  headerValue n (before ++ h :: after) = v.
Proof.
  intros Hb Hn Hv. unfold headerValue. fold (named n).
  induction before as [|x before IH].
  - cbn [app find]. unfold named at 1. rewrite Hn.
    rewrite (proj2 (eqb_eq n n) eq_refl). rewrite Hv. reflexivity.
  - cbn [existsb] in Hb. apply orb_false_elim in Hb. destruct Hb as [Hx Hb].
    cbn [app find]. rewrite Hx. apply (IH Hb).
Qed.

Section UnreadFacts.

Variable messages_get : list GmailCall -> jsstring -> jsstring + Message.
Variable fetched : nat -> Message.

(** When every [messages.get] is answered with a message, the promises
    are fulfilled with the summaries of those messages, in the order of
    the listing, after one call per listed message. *)
Lemma emailPromises_fulfilled refs : forall log offset,
  (forall i ref, nth_error refs i = Some ref ->
                 messages_get (log ++ map metadataCall (firstn i refs)) (ref_id ref)
                 = inr (fetched (offset + i))) ->
  emailPromises messages_get refs log
  = (map (fun i => inr (toUnreadEmail (fetched i))) (seq offset (length refs)),
     log ++ map metadataCall refs).
Proof.
  induction refs as [|ref refs IH]; intros log offset H.
  - cbn. rewrite app_nil_r. reflexivity.
  - cbn [emailPromises].
    pose proof (H O ref eq_refl) as H0.
    cbn [firstn map] in H0. rewrite app_nil_r, Nat.add_0_r in H0. rewrite H0.
    fold (metadataCall ref).
    rewrite (IH (log ++ [metadataCall ref]) (S offset)).
    + cbn [length seq map]. rewrite <- app_assoc. reflexivity.
    + intros i r Hi. rewrite <- app_assoc. cbn [app].
      replace (S offset + i)%nat with (offset + S i)%nat by lia.
      apply (H (S i) r). exact Hi.
Qed.

End UnreadFacts.

(** C9. When the provider lists N unread messages and answers every
    [messages.get], [getUnreadEmails] returns exactly N summaries, after
    one [messages.get] per listed id in the order of the listing, in
    whatever order the answers arrive. The i-th summary is made of the
    message sent back for the i-th listed id: [emailId] and [threadId]
    are the ids of that message, which are the listed ids when the
    provider sends back the message it was asked for, and only then;
    [sender], [subject] and [body] are the values of its [From] and
    [Subject] headers and its snippet; the value of a header is that of
    the first header of that very name, and the empty string when no
    header has the name. *)
Theorem C9_unread_in_listing_order
    (messages_list : list GmailCall -> jsstring -> jsstring + option (list MessageRef))
    (messages_get : list GmailCall -> jsstring -> jsstring + Message)
    (settling : list GmailCall -> list nat)
    (log : list GmailCall) (listing : option (list MessageRef))
    (fetched : nat -> Message) :
  let refs := orNil listing in
  messages_list log (lit "is:unread") = inr listing ->
  (forall i ref, nth_error refs i = Some ref ->
     messages_get ((log ++ [listCall]) ++ map metadataCall (firstn i refs))
                  (ref_id ref) = inr (fetched i)) ->
  exists summaries,
    getUnreadEmails messages_list messages_get settling log
    = (inr summaries, (log ++ [listCall]) ++ map metadataCall refs)
    /\ length summaries = length refs
    /\ (forall i ref, nth_error refs i = Some ref ->
          exists s,
            nth_error summaries i = Some s
            /\ emailId s = id (fetched i)
            /\ um_threadId s = threadId (fetched i)
            /\ (emailId s = ref_id ref <-> id (fetched i) = ref_id ref)
            /\ (um_threadId s = ref_threadId ref
                <-> threadId (fetched i) = ref_threadId ref)
            /\ sender s = headerValue (lit "From") (orNil (headers (fetched i)))
            /\ subject s = headerValue (lit "Subject") (orNil (headers (fetched i)))
            /\ body s = match snippet (fetched i) with Some b => b | None => [] end)
    /\ (forall n hs, existsb (named n) hs = false -> headerValue n hs = [])
    /\ (forall n before h after v,
          existsb (named n) before = false ->
          name h = Some n -> value h = Some v ->
          headerValue n (before ++ h :: after) = v).
Proof.
  cbv zeta. intros Hlist Hget.
  exists (map (fun i => toUnreadEmail (fetched i)) (seq 0 (length (orNil listing)))).
  split; [|split; [|split; [|split]]].
  - unfold getUnreadEmails, bind, perform. fold listCall. rewrite Hlist.
    destruct (orNil listing) as [|ref refs] eqn:Hrefs.
    + cbn. rewrite app_nil_r. reflexivity.
    + cbn [length Nat.eqb].
      rewrite (emailPromises_fulfilled messages_get fetched (ref :: refs)
                 (log ++ [listCall]) 0) by exact Hget.
      rewrite <- (Promise_all_fulfilled
                    (settling ((log ++ [listCall])
                               ++ map metadataCall (ref :: refs)))).
      rewrite map_map. reflexivity.
  - rewrite length_map, length_seq. reflexivity.
  - intros i ref Hi. exists (toUnreadEmail (fetched i)).
    assert (Hlt : (i < length (orNil listing))%nat)
      by (apply nth_error_Some; congruence).
    split; [|repeat split; auto].
    rewrite nth_error_map, nth_error_seq.
    destruct (Nat.ltb_spec i (length (orNil listing))); [reflexivity | lia].
  - apply headerValue_absent.
  - apply headerValue_first.
Qed.

(** The listing of the repository's test: two ids, two summaries in the
    same order, although the second answer arrives first. *)
Lemma C9_witness :
  exists summaries,
    getUnreadEmails listsTwo getsTwo MoreScenarios.secondSettlesFirst []
    = (inr summaries,
       ([] ++ [listCall])
       ++ map metadataCall [{| ref_id := lit "msg1"; ref_threadId := lit "thread1" |};
                            {| ref_id := lit "msg2"; ref_threadId := lit "thread2" |}])
    /\ length summaries = 2%nat
    /\ (forall i ref,
          nth_error [{| ref_id := lit "msg1"; ref_threadId := lit "thread1" |};
                     {| ref_id := lit "msg2"; ref_threadId := lit "thread2" |}] i
          = Some ref ->
          exists s,
            nth_error summaries i = Some s
            /\ emailId s = id (fetchedTwo i)
            /\ um_threadId s = threadId (fetchedTwo i)
            /\ (emailId s = ref_id ref <-> id (fetchedTwo i) = ref_id ref)
            /\ (um_threadId s = ref_threadId ref
                <-> threadId (fetchedTwo i) = ref_threadId ref)
            /\ sender s = headerValue (lit "From") (orNil (headers (fetchedTwo i)))
            /\ subject s = headerValue (lit "Subject") (orNil (headers (fetchedTwo i)))
            /\ body s = match snippet (fetchedTwo i) with Some b => b | None => [] end)
    /\ (forall n hs, existsb (named n) hs = false -> headerValue n hs = [])
    /\ (forall n before h after v,
          existsb (named n) before = false ->
          name h = Some n -> value h = Some v ->
          headerValue n (before ++ h :: after) = v).
Proof.
  apply (C9_unread_in_listing_order listsTwo getsTwo
           MoreScenarios.secondSettlesFirst []
           (Some [{| ref_id := lit "msg1"; ref_threadId := lit "thread1" |};
                  {| ref_id := lit "msg2"; ref_threadId := lit "thread2" |}])
           fetchedTwo).
  - reflexivity.
  - intros [|[|i]] ref H; cbn in H.
    + injection H as <-. reflexivity.
    + injection H as <-. reflexivity.
    + destruct i; discriminate H.
Defined.

(** The ids of a summary are not those of the listing when the provider
    answers with another message: for the listed [m1] in thread [t1] the
    summary carries the ids of the message that came back. *)
Lemma C9_ids_are_those_of_the_fetched_message :
  exists s,
    getUnreadEmails MoreScenarios.listsOne MoreScenarios.getsOther
      MoreScenarios.settlesInListingOrder []
    = (inr [s],
       [listCall;
        metadataCall {| ref_id := lit "m1"; ref_threadId := lit "t1" |}])
    /\ emailId s = lit "OTHER"
    /\ emailId s <> lit "m1"
    /\ um_threadId s = lit "OTHER-THREAD"
    /\ um_threadId s <> lit "t1".
Proof.
  exists {| sender := []; subject := []; body := [];
            emailId := lit "OTHER"; um_threadId := lit "OTHER-THREAD" |}.
  split; [vm_compute; reflexivity|].
  cbn [emailId um_threadId]. repeat split; discriminate.
Qed.

End GmailClaims.

(** ** The reply guardrail *)

Module GuardrailClaims.

Import ReplyValidation GuardrailSpec.

Lemma startsWith_app p : forall s,
  startsWith p s = true <-> exists post, s = p ++ post.
Proof.
  induction p as [|x p IH]; intros s.
  - cbn. split; [intros _; exists s; reflexivity | reflexivity].
  - destruct s as [|y s]; cbn [startsWith].
    + split; [discriminate | intros [post E]; discriminate E].
    + rewrite andb_true_iff, N.eqb_eq, IH. split.
      * intros [-> [post ->]]. exists post. reflexivity.
      * intros [post E]. cbn [app] in E. injection E as -> ->.
        split; [reflexivity | exists post; reflexivity].
Qed.

Lemma indexOf_unfold p s :
  indexOf p s
  = if startsWith p s then Some O
    else match s with
         | [] => None
         | _ :: r => option_map S (indexOf p r)
         end.
Proof. destruct s; reflexivity. Qed.

(** [indexOf] finds the first occurrence. *)
Lemma indexOf_Some p : forall s i,
  indexOf p s = Some i <->
  ((i <= length s)%nat /\ startsWith p (skipn i s) = true
   /\ forall j, (j < i)%nat -> startsWith p (skipn j s) = false).
Proof.
  induction s as [|c s IH]; intros i; rewrite indexOf_unfold.
  - destruct (startsWith p []) eqn:H0.
    + split.
      * intros E. injection E as <-. repeat split; [lia | exact H0 | intros j Hj; lia].
      * intros (Hi & _ & _). cbn [length] in Hi.
        replace i with O by lia. reflexivity.
    + split; [discriminate|].
      intros (Hi & Hs & _). cbn [length] in Hi. replace i with O in Hs by lia.
      cbn [skipn] in Hs. congruence.
  - destruct (startsWith p (c :: s)) eqn:H0.
    + split.
      * intros E. injection E as <-.
        repeat split; [cbn [length]; lia | exact H0 | intros j Hj; lia].
      * intros (_ & _ & Hmin). destruct i as [|i]; [reflexivity|].
        specialize (Hmin O ltac:(lia)). cbn [skipn] in Hmin. congruence.
    + destruct i as [|i].
      * split.
        -- destruct (indexOf p s); discriminate.
        -- intros (_ & Hs & _). cbn [skipn] in Hs. congruence.
      * destruct (indexOf p s) as [k|] eqn:Hk; cbn [option_map].
        -- split.
           ++ intros E. injection E as ->.
              destruct (proj1 (IH i) eq_refl) as (Hi & Hs & Hmin).
              repeat split; [cbn [length]; lia | exact Hs |].
              intros [|j] Hj; [exact H0 | apply Hmin; lia].
           ++ intros (Hi & Hs & Hmin). f_equal.
              assert (E : Some k = Some i); [|injection E; auto].
              apply IH. repeat split; [cbn [length] in Hi; lia | exact Hs |].
              intros j Hj. apply (Hmin (S j)). lia.
        -- split; [discriminate|].
           intros (Hi & Hs & Hmin).
           assert (E : @None nat = Some i); [|discriminate E].
           apply IH. repeat split; [cbn [length] in Hi; lia | exact Hs |].
           intros j Hj. apply (Hmin (S j)). lia.
Qed.

Lemma indexOf_None p : forall s,
  indexOf p s = None <-> forall j, startsWith p (skipn j s) = false.
Proof.
  induction s as [|c s IH]; rewrite indexOf_unfold.
  - destruct (startsWith p []) eqn:H0.
    + split; [discriminate | intros H; specialize (H O); cbn in H; congruence].
    + split; [|reflexivity]. intros _ j. destruct j; exact H0.
  - destruct (startsWith p (c :: s)) eqn:H0.
    + split; [discriminate | intros H; specialize (H O); cbn in H; congruence].
    + destruct (indexOf p s) as [k|] eqn:Hk; cbn [option_map].
      * split; [discriminate|]. intros H.
        assert (E : Some k = None); [|discriminate E].
        apply IH. intros j. apply (H (S j)).
      * split; [|reflexivity]. intros _ [|j]; [exact H0|].
        cbn [skipn]. apply (proj1 IH eq_refl).
Qed.

Lemma occursAt_startsWith p s i :
  occursAt p s i <-> ((i <= length s)%nat /\ startsWith p (skipn i s) = true).
Proof.
  unfold occursAt. rewrite startsWith_app. split.
  - intros (post & E & Hl). split.
    + rewrite <- Hl. rewrite length_firstn. lia.
    + exists post. rewrite <- (firstn_skipn i s) in E at 1.
      apply app_inv_head in E. exact E.
  - intros (Hi & post & E). exists post. split.
    + rewrite <- E. symmetry. apply firstn_skipn.
    + rewrite length_firstn. lia.
Qed.

Lemma trimStart_empty s : trimStart s = [] <-> forallb isWhiteSpace s = true.
Proof.
  induction s as [|c r IH]; [split; reflexivity|].
  cbn [trimStart forallb]. destruct (isWhiteSpace c); cbn [andb].
  - exact IH.
  - split; discriminate.
Qed.

Lemma trimStart_head s :
  trimStart s = [] \/ exists c r, trimStart s = c :: r /\ isWhiteSpace c = false.
Proof.
  induction s as [|c r IH]; [left; reflexivity|].
  cbn [trimStart]. destruct (isWhiteSpace c) eqn:Hc; [exact IH|].
  right. exists c, r. split; [reflexivity | exact Hc].
Qed.

Lemma dropWhileEnd_empty p s : dropWhileEnd p s = [] <-> forallb p s = true.
Proof.
  induction s as [|c r IH]; [split; reflexivity|].
  cbn [dropWhileEnd forallb]. destruct (dropWhileEnd p r) as [|x r'].
  - rewrite (proj1 IH eq_refl), andb_true_r.
    destruct (p c); split; try reflexivity; discriminate.
  - destruct (forallb p r).
    + destruct IH as [_ IH]. discriminate (IH eq_refl).
    + rewrite andb_false_r. split; discriminate.
Qed.

(** Trimming leaves nothing exactly when the string is white space only. *)
Lemma trim_empty s : trim s = [] <-> forallb isWhiteSpace s = true.
Proof.
  unfold trim, trimEnd. rewrite dropWhileEnd_empty.
  destruct (trimStart_head s) as [E | (c & r & E & Hc)]; rewrite E.
  - split; intros _; [apply trimStart_empty; exact E | reflexivity].
  - cbn [forallb]. rewrite Hc. split; [discriminate|].
    intros H. apply trimStart_empty in H. rewrite E in H. discriminate H.
Qed.

Lemma collapse_whiteSpace s : forall inRun,
  forallb isWhiteSpace (collapseFrom inRun s) = forallb isWhiteSpace s.
Proof.
  induction s as [|c r IH]; intros inRun; [reflexivity|].
  cbn [collapseFrom forallb]. destruct (isWhiteSpace c) eqn:Hc.
  - destruct inRun; cbn [forallb andb]; [apply IH|].
    change (isWhiteSpace 32%N) with true. cbn [andb]. apply IH.
  - cbn [forallb]. rewrite Hc. reflexivity.
Qed.

(** Putting a space for a tag or deleting the tag leaves white space only
    in the same cases. *)
Lemma replaceTags_stripTags s : forall inTag,
  forallb isWhiteSpace (replaceTags inTag s)
  = forallb isWhiteSpace (stripTags inTag s).
Proof.
  induction s as [|c r IH]; intros inTag; [reflexivity|].
  cbn [replaceTags stripTags]. destruct inTag.
  - destruct (isGt c); [|apply IH].
    cbn [forallb]. change (isWhiteSpace 32%N) with true. cbn [andb]. apply IH.
  - destruct (isLt c && existsb isGt r); [apply IH|].
    cbn [forallb]. rewrite IH. reflexivity.
Qed.

Lemma length_eqb_0 (s : jsstring) : (length s =? 0)%nat = isEmpty s.
Proof. destruct s; reflexivity. Qed.

Lemma isEmpty_true s : isEmpty s = true <-> s = [].
Proof. destruct s; split; try reflexivity; discriminate. Qed.

(** The test the guardrail makes on the prefix is the one the
    specification words. *)
Lemma guardrail_test_refines prefix :
  isEmpty (trim (collapseWhiteSpace (replaceTags false prefix)))
  = emptyAfterProcessing html prefix.
Proof.
  unfold emptyAfterProcessing, collapseWhiteSpace.
  apply eq_true_iff_eq. rewrite !isEmpty_true, !trim_empty.
  rewrite !collapse_whiteSpace, replaceTags_stripTags. reflexivity.
Qed.

Lemma guardrail_run replyBody format :
  assertReplyBodyHasMainReplyBeforeSpaceEdition replyBody format
  = match indexOf marker replyBody with
    | None => inr tt
    | Some idx =>
        if emptyAfterProcessing format (firstn idx replyBody)
        then inl (missingReplyBodyError format)
        else inr tt
    end.
Proof.
  unfold assertReplyBodyHasMainReplyBeforeSpaceEdition, sliceTo.
  destruct (indexOf marker replyBody) as [idx|]; [|reflexivity].
  destruct format; rewrite length_eqb_0.
  - reflexivity.
  - rewrite guardrail_test_refines. reflexivity.
Qed.

(** C6. The guardrail throws its error exactly when the marker occurs in
    the reply body and the text before its first occurrence is empty after
    processing: trimmed, in plain mode; with tags stripped, runs of white
    space collapsed and the ends trimmed, in HTML mode. In every other
    case it returns; in particular a body in which the marker does not
    occur passes in both formats. *)
Theorem C6_guardrail (replyBody : jsstring) (format : DraftFormat) :
  let result := assertReplyBodyHasMainReplyBeforeSpaceEdition replyBody format in
  (result = inl (missingReplyBodyError format) <->
   exists idx,
     occursAt marker replyBody idx
     /\ (forall j, (j < idx)%nat -> ~ occursAt marker replyBody j)
     /\ emptyAfterProcessing format (firstn idx replyBody) = true)
  /\ (result = inr tt \/ result = inl (missingReplyBodyError format))
  /\ ((forall j, ~ occursAt marker replyBody j) ->
      forall f, assertReplyBodyHasMainReplyBeforeSpaceEdition replyBody f = inr tt).
Proof.
  cbv zeta. rewrite guardrail_run. split; [|split].
  - destruct (indexOf marker replyBody) as [idx|] eqn:Hidx.
    + apply indexOf_Some in Hidx. destruct Hidx as (Hle & Hat & Hmin).
      split.
      * intros H. exists idx. split; [apply occursAt_startsWith; auto|].
        split.
        -- intros j Hj Hocc. apply occursAt_startsWith in Hocc.
           destruct Hocc as [_ Hocc]. rewrite (Hmin j Hj) in Hocc. discriminate Hocc.
        -- destruct (emptyAfterProcessing format (firstn idx replyBody));
             [reflexivity | discriminate H].
      * intros (i & Hocc & Hfirst & Hempty).
        assert (i = idx) as ->.
        { apply occursAt_startsWith in Hocc. destruct Hocc as [Hi Hocc].
          destruct (Nat.lt_trichotomy i idx) as [Hlt|[E|Hgt]]; [|exact E|].
          - rewrite (Hmin i Hlt) in Hocc. discriminate Hocc.
          - exfalso. apply (Hfirst idx Hgt). apply occursAt_startsWith. auto. }
        rewrite Hempty. reflexivity.
    + split; [discriminate|].
      intros (i & Hocc & _). apply occursAt_startsWith in Hocc.
      destruct Hocc as [_ Hocc].
      rewrite (proj1 (indexOf_None marker replyBody) Hidx i) in Hocc.
      discriminate Hocc.
  - destruct (indexOf marker replyBody) as [idx|]; [|left; reflexivity].
    destruct (emptyAfterProcessing format (firstn idx replyBody));
      [right | left]; reflexivity.
  - intros Hnone f. rewrite guardrail_run.
    destruct (indexOf marker replyBody) as [idx|] eqn:Hidx; [|reflexivity].
    apply indexOf_Some in Hidx. destruct Hidx as (Hle & Hat & _).
    exfalso. apply (Hnone idx). apply occursAt_startsWith. auto.
Qed.

(** The marker at the very start of a plain body: the guardrail throws. *)
Lemma C6_witness :
  assertReplyBodyHasMainReplyBeforeSpaceEdition
    (lit "Did you know? Space Edition!" ++ [10%N] ++ lit "X") plain
  = inl plainOnlyMessage.
Proof.
  apply (proj2 (proj1 (C6_guardrail
                         (lit "Did you know? Space Edition!" ++ [10%N] ++ lit "X")
                         plain))).
  exists O. split; [|split].
  - exists ([10%N] ++ lit "X"). split; reflexivity.
  - intros j Hj. lia.
  - reflexivity.
Defined.

(** The cases of the repository's tests and of the specification. *)
Lemma guardrail_examples :
  assertReplyBodyHasMainReplyBeforeSpaceEdition (lit "Hello there") plain = inr tt
  /\ assertReplyBodyHasMainReplyBeforeSpaceEdition
       (lit "Did you know? Space Edition!" ++ [10%N] ++ lit "X") plain
     = inl plainOnlyMessage
  /\ assertReplyBodyHasMainReplyBeforeSpaceEdition
       (lit "Thanks!" ++ [10%N; 10%N] ++ lit "Did you know? Space Edition!"
        ++ [10%N] ++ lit "X") plain
     = inr tt
  /\ assertReplyBodyHasMainReplyBeforeSpaceEdition
       (lit "<h3>Did you know? Space Edition!</h3>") html
     = inl htmlOnlyMessage
  /\ assertReplyBodyHasMainReplyBeforeSpaceEdition
       (lit "<p>Thanks.</p><h3>Did you know? Space Edition!</h3>") html
     = inr tt.
Proof. repeat split; vm_compute; reflexivity. Qed.

End GuardrailClaims.

(** ** The [create_draft_reply] tool *)

Module IndexClaims.

Import Gmail GmailScenarios Index.

(** C10. A [create_draft_reply] call in which [emailId] or [replyBody] is
    absent or the empty string is answered with the error payload
    "emailId and replyBody are required", flagged as an error, and no call
    to the mail provider is made: the log of calls is left as it was. So
    it is in the handler of [index.ts], also for a call without any
    arguments, and in the earlier copy of the server for a call that has
    its arguments object. *)
Theorem C10_required_arguments
    (messages_get : list GmailCall -> jsstring -> jsstring + Message)
    (drafts_create : list GmailCall -> jsstring -> jsstring -> jsstring + Draft)
    (a : DraftReplyArgs) (log : list GmailCall) :
  arg_emailId a = None \/ arg_emailId a = Some []
  \/ arg_replyBody a = None \/ arg_replyBody a = Some [] ->
  let refused :=
    ({| data := inl (lit "emailId and replyBody are required"); isError := true |},
     log) in
  callTool (createDraftReplyHandler messages_get drafts_create (Some a)) log
  = refused
  /\ callTool (createDraftReplyHandler messages_get drafts_create None) log
     = refused
  /\ callTool (createDraftReplyCase messages_get drafts_create (Some a)) log
     = refused.
Proof.
  intros H. cbv zeta.
  unfold callTool, createDraftReplyHandler, createDraftReplyCase.
  destruct a as [e r]. cbn [arg_emailId arg_replyBody] in *.
  assert (Hf : falsy e || falsy r = true).
  { destruct H as [-> | [-> | [-> | ->]]]; cbn [falsy orb];
      try reflexivity; apply orb_true_r. }
  rewrite Hf. repeat split; reflexivity.
Qed.

(** An empty [replyBody] with a good [emailId] is refused without a call. *)
Lemma C10_witness :
  let a := {| arg_emailId := Some (lit "msg1"); arg_replyBody := Some [] |} in
  let refused :=
    ({| data := inl (lit "emailId and replyBody are required"); isError := true |},
     @nil GmailCall) in
  callTool (createDraftReplyHandler getsOriginal createsDraft1 (Some a)) []
  = refused
  /\ callTool (createDraftReplyHandler getsOriginal createsDraft1 None) []
     = refused
  /\ callTool (createDraftReplyCase getsOriginal createsDraft1 (Some a)) []
     = refused.
Proof.
  apply (C10_required_arguments getsOriginal createsDraft1
           {| arg_emailId := Some (lit "msg1"); arg_replyBody := Some [] |} []).
  right. right. right. reflexivity.
Defined.

(** In the earlier copy a call without its arguments object fails on the
    destructuring: it is refused as well, before any call to the provider,
    with the message of the [TypeError]. *)
Lemma earlier_copy_without_arguments
    (messages_get : list GmailCall -> jsstring -> jsstring + Message)
    (drafts_create : list GmailCall -> jsstring -> jsstring -> jsstring + Draft)
    (log : list GmailCall) :
  callTool (createDraftReplyCase messages_get drafts_create None) log
  = ({| data := inl destructureMessage; isError := true |}, log).
Proof. reflexivity. Qed.

(** With both arguments present and not empty the handler does go to the
    provider: its first call fetches the original message. *)
Lemma handler_calls_provider
    (messages_get : list GmailCall -> jsstring -> jsstring + Message)
    (drafts_create : list GmailCall -> jsstring -> jsstring -> jsstring + Draft)
    (c d : codeUnit) (e r : jsstring) (log : list GmailCall) :
  exists rest,
    snd (callTool (createDraftReplyHandler messages_get drafts_create
                     (Some {| arg_emailId := Some (c :: e);
                              arg_replyBody := Some (d :: r) |})) log)
    = log ++ MessagesGet (c :: e) (lit "full") [] :: rest.
Proof.
  unfold callTool, createDraftReplyHandler, createDraftReply, bind, perform.
  cbn [arg_emailId arg_replyBody falsy orb].
  destruct (messages_get log (c :: e)) as [m|msg].
  - exists []. reflexivity.
  - destruct (drafts_create _ _ _); cbn [snd]; rewrite <- app_assoc;
      eexists; reflexivity.
Qed.

End IndexClaims.

(* ================================================================== *)
(** * Further properties *)
(* ================================================================== *)

(** ** The APOD service: requests, dates and text *)

Module ApodMore.

Import Apod ApodTrace ApodScenarios MoreScenarios TextShape DateFacts ApodFacts.

(** X1. Whatever the network answers and whatever the options are, one
    call of [getSpacePictureOfTheDay] only adds requests to those made
    before, at most [maxDaysBack + 1] of them with the clamped
    [maxDaysBack], hence never more than 31; each of them carries the API
    key of the service and a [date] parameter that is not empty. *)
Theorem X1_requests_are_bounded
    (network : list ApodRequest -> ApodRequest -> jsstring + Response)
    (apiKey : jsstring) (now : Date) (options : Options)
    (log : list ApodRequest) :
  exists reqs,
    snd (getSpacePictureOfTheDay network apiKey now options log) = log ++ reqs
    /\ Z.of_nat (length reqs) <= effectiveMaxDaysBack options + 1 <= 31
    /\ Forall (fun r => req_api_key r = apiKey /\ truthy (req_date r) = true) reqs.
Proof.
  assert (Hr : 0 <= effectiveMaxDaysBack options <= 30).
  { unfold effectiveMaxDaysBack, clampInt.
    destruct (opt_maxDaysBack options) as [[| | |q]|]; cbn; lia. }
  unfold getSpacePictureOfTheDay. cbv zeta.
  destruct (negb (isValidDateFormat _)).
  - exists []. cbn. rewrite app_nil_r. repeat split; [lia | lia | constructor].
  - match goal with
    | |- context [walk _ _ ?r ?n ?c ?f ?l] =>
        destruct (walk_requests network apiKey r n c f l) as (reqs & E & L & F)
    end.
    exists reqs. repeat split; [exact E | lia | lia | exact F].
Qed.

(** The day of a time value within the years 1000 to 9999. *)
Lemma day_of_four_digit_year t :
  1000 <= YearFromTime t <= 9999 -> -720000 <= Day t <= 2940000.
Proof.
  intros Hy. pose proof (civilFromDays_spec (Day t)) as Hc.
  unfold YearFromTime in Hy.
  destruct (civilFromDays (Day t)) as [[y m] d]. cbn [fst snd] in *.
  destruct Hc as (E & Hm & Hd). rewrite <- E.
  apply daysFromCivil_bounds; lia.
Qed.

Lemma Day_of_midnight t : Day (Day t * msPerDay) = Day t.
Proof. unfold Day, msPerDay. euclid. Qed.

(** Printing looks at the day only. *)
Lemma formatDateUTC_of_midnight t :
  formatDateUTC (Some (Day t * msPerDay)) = formatDateUTC (Some t).
Proof.
  unfold formatDateUTC, YearFromTime, MonthFromTime, DateFromTime.
  rewrite Day_of_midnight. reflexivity.
Qed.

(** X2. When [date] is left out and the clock shows a year from 1000 to
    9999, the date asked for is today's UTC date as [formatDateUTC] prints
    it: it passes [isValidDateFormat], it parses to midnight UTC of today,
    the walk starts there, and the first request asks for that date. *)
Theorem X2_default_date_is_today
    (network : list ApodRequest -> ApodRequest -> jsstring + Response)
    (apiKey : jsstring) (now : Z) (maxDaysBack : option JsNumber)
    (log : list ApodRequest) :
  1000 <= YearFromTime now <= 9999 ->
  let options := {| opt_date := None; opt_maxDaysBack := maxDaysBack |} in
  let today := formatDateUTC (Some now) in
  isValidDateFormat today = true
  /\ parseDateUTC today = Some (Day now * msPerDay)
  /\ getSpacePictureOfTheDay network apiKey (Some now) options log
     = walk network apiKey today (Z.to_nat (effectiveMaxDaysBack options + 1))
            (Some (Day now * msPerDay)) [] log
  /\ exists rest,
       snd (getSpacePictureOfTheDay network apiKey (Some now) options log)
       = log ++ {| req_api_key := apiKey; req_date := Some today |} :: rest.
Proof.
  intros Hy. cbv zeta.
  pose proof (day_of_four_digit_year now Hy) as Hd.
  assert (Hp : parseDateUTC (formatDateUTC (Some now)) = Some (Day now * msPerDay)).
  { unfold parseDateUTC. rewrite <- formatDateUTC_of_midnight.
    apply newDate_formatDateUTC.
    - unfold TimeWithinDay. apply Z.mod_mul. unfold msPerDay. lia.
    - unfold YearFromTime in *. rewrite Day_of_midnight. exact Hy.
    - unfold msPerDay. lia. }
  assert (Hv : isValidDateFormat (formatDateUTC (Some now)) = true).
  { unfold isValidDateFormat.
    destruct (formatDateUTC_shape now Hy)
      as (y1 & y2 & y3 & y4 & m1 & m2 & d1 & d2 & E & Hre & _).
    rewrite <- E in Hre. rewrite Hre. cbn [negb].
    unfold parseDateUTC in Hp. rewrite Hp. reflexivity. }
  assert (Hrun : getSpacePictureOfTheDay network apiKey (Some now)
                   {| opt_date := None; opt_maxDaysBack := maxDaysBack |} log
                 = walk network apiKey (formatDateUTC (Some now))
                     (Z.to_nat (effectiveMaxDaysBack
                                  {| opt_date := None;
                                     opt_maxDaysBack := maxDaysBack |} + 1))
                     (Some (Day now * msPerDay)) [] log).
  { unfold getSpacePictureOfTheDay. cbn [opt_date]. rewrite Hv, Hp. reflexivity. }
  repeat split; [exact Hv | exact Hp | exact Hrun |].
  rewrite Hrun.
  assert (Hr : 0 <= effectiveMaxDaysBack
                      {| opt_date := None; opt_maxDaysBack := maxDaysBack |}).
  { unfold effectiveMaxDaysBack, clampInt.
    destruct maxDaysBack as [[| | |q]|]; cbn; lia. }
  destruct (Z.to_nat _) as [|n] eqn:En; [lia|].
  cbn [walk]. unfold tryCatch, bind.
  rewrite (fetchApod_run network apiKey) by apply formatDateUTC_truthy.
  rewrite formatDateUTC_of_midnight.
  set (req := {| req_api_key := apiKey;
                 req_date := Some (formatDateUTC (Some now)) |}).
  destruct (fetchOutcome (network log req)) as [reason|apod].
  - match goal with
    | |- context [walk _ _ ?r ?n ?c ?f ?l] =>
        destruct (walk_requests network apiKey r n c f l) as (reqs & E & _)
    end.
    exists reqs. rewrite E, <- app_assoc. reflexivity.
  - exists []. reflexivity.
Qed.

(** On the afternoon of 2026-01-22 the first request asks for 2026-01-22. *)
Lemma X2_witness :
  let options := {| opt_date := None; opt_maxDaysBack := None |} in
  let today := formatDateUTC (Some afternoon20260122) in
  today = lit "2026-01-22"
  /\ isValidDateFormat today = true
  /\ parseDateUTC today = Some (Day afternoon20260122 * msPerDay)
  /\ getSpacePictureOfTheDay serverError testKey (Some afternoon20260122) options []
     = walk serverError testKey today (Z.to_nat (effectiveMaxDaysBack options + 1))
            (Some (Day afternoon20260122 * msPerDay)) [] []
  /\ exists rest,
       snd (getSpacePictureOfTheDay serverError testKey (Some afternoon20260122)
              options [])
       = [] ++ {| req_api_key := testKey; req_date := Some today |} :: rest.
Proof.
  split; [vm_compute; reflexivity|].
  apply (X2_default_date_is_today serverError testKey afternoon20260122 None []).
  vm_compute. split; discriminate.
Defined.

(** X3. [addDaysUTC] moves a date by whole days of 86 400 000 ms and keeps
    its time of day, as long as the result is a time value a [Date] can
    hold; moving by [a] and then by [b] days is moving by [a + b] days, so
    a day back and then a day forward give the date one started from. An
    invalid date stays invalid. *)
Theorem X3_addDaysUTC_adds_days (t a b : Z) :
  Z.abs t <= 8640000000000000 ->
  Z.abs (t + a * msPerDay) <= 8640000000000000 ->
  Z.abs (t + (a + b) * msPerDay) <= 8640000000000000 ->
  addDaysUTC (Some t) a = Some (t + a * msPerDay)
  /\ Day (t + a * msPerDay) = Day t + a
  /\ TimeWithinDay (t + a * msPerDay) = TimeWithinDay t
  /\ addDaysUTC (addDaysUTC (Some t) a) b = addDaysUTC (Some t) (a + b)
  /\ addDaysUTC (Some t) 0 = Some t
  /\ addDaysUTC None a = None.
Proof.
  intros Ht Ha Hab.
  assert (E0 : addDaysUTC (Some t) 0 = Some t).
  { rewrite addDaysUTC_time by (rewrite Z.mul_0_l, Z.add_0_r; exact Ht).
    f_equal. lia. }
  repeat split.
  - apply addDaysUTC_time. exact Ha.
  - unfold Day, msPerDay. euclid.
  - unfold TimeWithinDay, msPerDay. euclid.
  - rewrite (addDaysUTC_time t a) by exact Ha.
    rewrite addDaysUTC_time
      by (replace (t + a * msPerDay + b * msPerDay)
            with (t + (a + b) * msPerDay) by lia; exact Hab).
    rewrite (addDaysUTC_time t (a + b)) by exact Hab. f_equal. lia.
  - exact E0.
Qed.

(** A day back from noon of 2026-01-22 and a day forward again. *)
Lemma X3_witness :
  let t := 1769083200000 in
  addDaysUTC (Some t) (-1) = Some (t + -1 * msPerDay)
  /\ Day (t + -1 * msPerDay) = Day t + -1
  /\ TimeWithinDay (t + -1 * msPerDay) = TimeWithinDay t
  /\ addDaysUTC (addDaysUTC (Some t) (-1)) 1 = addDaysUTC (Some t) (-1 + 1)
  /\ addDaysUTC (Some t) 0 = Some t
  /\ addDaysUTC None (-1) = None.
Proof.
  apply (X3_addDaysUTC_adds_days 1769083200000 (-1) 1);
    unfold msPerDay; lia.
Defined.

(** X4. [isValidDateFormat] accepts exactly the strings of four digits, a
    hyphen, two digits, a hyphen and two digits whose month is from 01 to
    12 and whose day is from 01 to 31; the day is not checked against the
    length of the month. An accepted date parses to midnight UTC of the
    day counted from the first of its month, a day beyond the end of the
    month running on into the next month. *)
Theorem X4_accepted_dates (s : jsstring) :
  isValidDateFormat s = true <->
  exists y1 y2 y3 y4 m1 m2 d1 d2,
    s = [y1; y2; y3; y4; 45%N; m1; m2; 45%N; d1; d2]
    /\ forallb isDigit [y1; y2; y3; y4; m1; m2; d1; d2] = true
    /\ 1 <= digitsValue [m1; m2] <= 12
    /\ 1 <= digitsValue [d1; d2] <= 31
    /\ parseDateUTC s
       = Some ((daysFromCivil (digitsValue [y1; y2; y3; y4]) (digitsValue [m1; m2]) 1
                + digitsValue [d1; d2] - 1) * msPerDay).
Proof.
  unfold isValidDateFormat, parseDateUTC, getTime. split.
  - intros H.
    destruct (matchesDateRegex s) eqn:Hre; [|discriminate H]. cbn [negb] in H.
    destruct (matchesDateRegex_inv _ Hre)
      as (y1 & y2 & y3 & y4 & m1 & m2 & d1 & d2 & Es & Hy1 & Hy2 & Hy3 & Hy4
          & Hm1 & Hm2 & Hd1 & Hd2).
    exists y1, y2, y3, y4, m1, m2, d1, d2.
    assert (Hd : forallb isDigit [y1; y2; y3; y4; m1; m2; d1; d2] = true)
      by (cbn [forallb]; rewrite Hy1, Hy2, Hy3, Hy4, Hm1, Hm2, Hd1, Hd2;
          reflexivity).
    destruct (newDate_of_digits s _ _ _ _ _ _ _ _ Es Hd) as [_ Hp].
    rewrite Hp in H. rewrite Hp. rewrite <- daysFromCivil_day.
    destruct ((1 <=? digitsValue [m1; m2]) && (digitsValue [m1; m2] <=? 12)
              && (1 <=? digitsValue [d1; d2]) && (digitsValue [d1; d2] <=? 31))
      eqn:Hc; [|discriminate H].
    repeat (apply andb_prop in Hc; destruct Hc as [Hc ?]).
    repeat match goal with
           | E : (_ <=? _) = true |- _ => apply Z.leb_le in E
           end.
    repeat split; auto.
  - intros (y1 & y2 & y3 & y4 & m1 & m2 & d1 & d2 & Es & Hd & Hm & Hday & _).
    destruct (newDate_of_digits s _ _ _ _ _ _ _ _ Es Hd) as [Hre Hp].
    rewrite Hre, Hp. cbn [negb].
    destruct Hm as [Hm1 Hm2], Hday as [Hd1 Hd2].
    apply Z.leb_le in Hm1, Hm2, Hd1, Hd2.
    rewrite Hm1, Hm2, Hd1, Hd2. reflexivity.
Qed.

(** *** White space *)

Lemma singleSpaced_weaken s : forall b,
  singleSpaced b s = true -> singleSpaced false s = true.
Proof.
  destruct s as [|c r]; intros b H; [reflexivity|].
  cbn [singleSpaced] in *. destruct (isWhiteSpace c); [|exact H].
  apply andb_prop in H. destruct H as [H Hr].
  apply andb_prop in H. destruct H as [Hc _].
  rewrite Hc, Hr. reflexivity.
Qed.

Lemma collapseFrom_singleSpaced s : forall b,
  singleSpaced b (collapseFrom b s) = true.
Proof.
  induction s as [|c r IH]; intros b; [reflexivity|].
  cbn [collapseFrom]. destruct (isWhiteSpace c) eqn:Hc.
  - destruct b; [apply IH|].
    cbn [singleSpaced]. change (isWhiteSpace 32%N) with true. cbn.
    apply IH.
  - cbn [singleSpaced]. rewrite Hc. apply IH.
Qed.

Lemma trimStart_singleSpaced s : forall b,
  singleSpaced b s = true -> singleSpaced true (trimStart s) = true.
Proof.
  induction s as [|c r IH]; intros b H; [reflexivity|].
  cbn [trimStart]. cbn [singleSpaced] in H.
  destruct (isWhiteSpace c) eqn:Hc.
  - apply andb_prop in H. destruct H as [_ Hr]. apply (IH true Hr).
  - cbn [singleSpaced]. rewrite Hc. exact H.
Qed.

Lemma dropWhileEnd_singleSpaced s : forall b,
  singleSpaced b s = true -> singleSpaced b (dropWhileEnd isWhiteSpace s) = true.
Proof.
  induction s as [|c r IH]; intros b H; [reflexivity|].
  cbn [dropWhileEnd]. cbn [singleSpaced] in H.
  destruct (dropWhileEnd isWhiteSpace r) as [|x r'] eqn:Hr.
  - destruct (isWhiteSpace c) eqn:Hc; [reflexivity|].
    cbn [singleSpaced]. rewrite Hc. reflexivity.
  - cbn [singleSpaced]. destruct (isWhiteSpace c) eqn:Hc.
    + apply andb_prop in H. destruct H as [H1 Hr'].
      rewrite H1. cbn [andb]. apply (IH true Hr').
    + apply (IH false H).
Qed.

Lemma collapseFrom_fixed s : forall b,
  singleSpaced b s = true -> collapseFrom b s = s.
Proof.
  induction s as [|c r IH]; intros b H; [reflexivity|].
  cbn [collapseFrom]. cbn [singleSpaced] in H.
  destruct (isWhiteSpace c) eqn:Hc.
  - apply andb_prop in H. destruct H as [H Hr].
    apply andb_prop in H. destruct H as [H32 Hb].
    apply N.eqb_eq in H32. destruct b; [discriminate Hb|].
    rewrite (IH true Hr), H32. reflexivity.
  - rewrite (IH false H). reflexivity.
Qed.

Lemma trimStart_fixed s :
  singleSpaced true s = true -> trimStart s = s.
Proof.
  destruct s as [|c r]; intros H; [reflexivity|].
  cbn [trimStart]. cbn [singleSpaced] in H.
  destruct (isWhiteSpace c); [|reflexivity].
  rewrite andb_false_r in H. discriminate H.
Qed.

Lemma dropWhileEnd_idempotent p s :
  dropWhileEnd p (dropWhileEnd p s) = dropWhileEnd p s.
Proof.
  induction s as [|c r IH]; [reflexivity|].
  cbn [dropWhileEnd].
  destruct (dropWhileEnd p r) as [|x r'] eqn:Hr.
  - destruct (p c) eqn:Hc; [reflexivity|].
    cbn [dropWhileEnd]. rewrite Hc. reflexivity.
  - cbn [dropWhileEnd] in *. cbn [dropWhileEnd] in IH. rewrite IH. reflexivity.
Qed.

(** What [dropWhileEnd] keeps does not end with a code unit it drops. *)
Lemma dropWhileEnd_last p s : forall k c,
  dropWhileEnd p s = k ++ [c] -> p c = false.
Proof.
  induction s as [|a r IH]; intros k c H.
  - destruct k; discriminate H.
  - cbn [dropWhileEnd] in H.
    destruct (dropWhileEnd p r) as [|x r'] eqn:Hr.
    + destruct (p a) eqn:Ha; [destruct k; discriminate H|].
      destruct k as [|k0 k]; [injection H as <-; exact Ha|].
      destruct k; discriminate H.
    + destruct k as [|k0 k]; [discriminate H|].
      injection H as _ H. apply (IH k c H).
Qed.

(** What [dropWhileEnd] keeps is a prefix. *)
Lemma dropWhileEnd_prefix p s : exists q, s = dropWhileEnd p s ++ q.
Proof.
  induction s as [|a r [q IH]]; [exists []; reflexivity|].
  cbn [dropWhileEnd].
  destruct (dropWhileEnd p r) as [|x r'] eqn:Hr.
  - destruct (p a); [exists (a :: r); reflexivity|].
    exists q. cbn in IH |- *. congruence.
  - exists q. cbn [app]. f_equal. exact IH.
Qed.

(** In single-spaced text a white-space code unit is a space, and what
    stands next to it is not white space. *)
Lemma singleSpaced_at a : forall b c rest,
  singleSpaced b (a ++ c :: rest) = true ->
  isWhiteSpace c = true ->
  c = 32%N
  /\ (a = [] -> b = false)
  /\ (forall a' x, a = a' ++ [x] -> isWhiteSpace x = false)
  /\ (forall y rest', rest = y :: rest' -> isWhiteSpace y = false).
Proof.
  induction a as [|x a IH]; intros b c rest H Hc.
  - cbn [app singleSpaced] in H. rewrite Hc in H.
    apply andb_prop in H. destruct H as [H Hr].
    apply andb_prop in H. destruct H as [H32 Hb].
    apply N.eqb_eq in H32. repeat split.
    + exact H32.
    + intros _. destruct b; [discriminate Hb | reflexivity].
    + intros [|? ?] ? E; discriminate E.
    + intros y rest' ->. cbn [singleSpaced] in Hr.
      destruct (isWhiteSpace y); [|reflexivity].
      rewrite andb_false_r in Hr. discriminate Hr.
  - cbn [app singleSpaced] in H.
    destruct (isWhiteSpace x) eqn:Hx.
    + apply andb_prop in H. destruct H as [_ Hr].
      destruct (IH true c rest Hr Hc) as (E & Hhead & Hbefore & Hafter).
      repeat split; [exact E | discriminate | | exact Hafter].
      intros a' z Ea. destruct a' as [|a0 a'].
      * cbn in Ea. injection Ea as -> ->. specialize (Hhead eq_refl).
        discriminate Hhead.
      * injection Ea as _ Ea. apply (Hbefore a' z Ea).
    + destruct (IH false c rest H Hc) as (E & Hhead & Hbefore & Hafter).
      repeat split; [exact E | discriminate | | exact Hafter].
      intros a' z Ea. destruct a' as [|a0 a'].
      * cbn in Ea. injection Ea as <- _. exact Hx.
      * injection Ea as _ Ea. apply (Hbefore a' z Ea).
Qed.

Lemma normalizeWhitespace_singleSpaced text :
  singleSpaced true (normalizeWhitespace text) = true.
Proof.
  unfold normalizeWhitespace, trim, trimEnd, collapseWhiteSpace.
  apply dropWhileEnd_singleSpaced.
  apply (trimStart_singleSpaced _ false).
  apply collapseFrom_singleSpaced.
Qed.

(** X5. In the text [normalizeWhitespace] returns, every white-space code
    unit is a space (U+0020) that stands between two code units that are
    not white space: no white space at the start or the end, no run of
    white space, no tab or line break. Text of that form is returned
    unchanged, so normalising twice is normalising once. *)
Theorem X5_normalizeWhitespace_shape (text : jsstring) :
  let result := normalizeWhitespace text in
  (forall before c after,
     result = before ++ c :: after ->
     isWhiteSpace c = true ->
     c = 32%N
     /\ (exists before' x, before = before' ++ [x] /\ isWhiteSpace x = false)
     /\ (exists y after', after = y :: after' /\ isWhiteSpace y = false))
  /\ normalizeWhitespace result = result.
Proof.
  cbv zeta. pose proof (normalizeWhitespace_singleSpaced text) as Hs. split.
  - intros before c after E Hc. rewrite E in Hs.
    destruct (singleSpaced_at before true c after Hs Hc)
      as (E32 & Hhead & Hbefore & Hafter).
    split; [exact E32|]. split.
    + destruct (@exists_last _ before) as (before' & x & Eb).
      { intros ->. specialize (Hhead eq_refl). discriminate Hhead. }
      exists before', x. split; [exact Eb | apply (Hbefore before' x Eb)].
    + destruct after as [|y after'].
      * exfalso. unfold normalizeWhitespace, trim, trimEnd in E.
        apply dropWhileEnd_last in E. congruence.
      * exists y, after'. split; [reflexivity | apply (Hafter y after' eq_refl)].
  - unfold normalizeWhitespace at 1. unfold collapseWhiteSpace, trim, trimEnd.
    rewrite (collapseFrom_fixed _ false)
      by (apply (singleSpaced_weaken _ true); exact Hs).
    rewrite trimStart_fixed by exact Hs.
    unfold normalizeWhitespace, trim, trimEnd.
    apply dropWhileEnd_idempotent.
Qed.

(** X6. For a limit of at least 1, [truncate] returns at most [maxLen]
    code units. Text within the limit is returned as it is. Longer text
    is cut: the result is a prefix of the text that does not end in white
    space, followed by the ellipsis. Truncating the result again changes
    nothing. *)
Theorem X6_truncate_within_limit (text : jsstring) (maxLen : Z) :
  1 <= maxLen ->
  let result := truncate text maxLen in
  Z.of_nat (length result) <= maxLen
  /\ (Z.of_nat (length text) <= maxLen -> result = text)
  /\ (maxLen < Z.of_nat (length text) ->
      exists kept dropped,
        result = kept ++ [ellipsis]
        /\ text = kept ++ dropped
        /\ dropped <> []
        /\ (forall k c, kept = k ++ [c] -> isWhiteSpace c = false))
  /\ truncate result maxLen = result.
Proof.
  intros Hm. cbv zeta.
  assert (Hlen : Z.of_nat (length (truncate text maxLen)) <= maxLen).
  { unfold truncate.
    destruct (Z.leb_spec (Z.of_nat (length text)) maxLen) as [Hle|Hgt];
      [exact Hle|].
    rewrite length_app. cbn [length]. unfold trimEnd, sliceTo.
    pose proof (ApodClaims.dropWhileEnd_length isWhiteSpace
                  (firstn (Z.to_nat (Z.max 0 (maxLen - 1))) text)) as H1.
    rewrite length_firstn in H1. lia. }
  repeat split.
  - exact Hlen.
  - intros Hle. unfold truncate. apply Z.leb_le in Hle. rewrite Hle. reflexivity.
  - intros Hgt. unfold truncate.
    destruct (Z.leb_spec (Z.of_nat (length text)) maxLen) as [Hle|_]; [lia|].
    unfold trimEnd, sliceTo.
    set (n := Z.to_nat (Z.max 0 (maxLen - 1))).
    destruct (dropWhileEnd_prefix isWhiteSpace (firstn n text)) as [q Hq].
    exists (dropWhileEnd isWhiteSpace (firstn n text)), (q ++ skipn n text).
    repeat split.
    + rewrite app_assoc, <- Hq. symmetry. apply firstn_skipn.
    + intros E. apply app_eq_nil in E. destruct E as [_ E].
      apply (f_equal (@length _)) in E. rewrite length_skipn in E.
      cbn [length] in E. lia.
    + intros k c E. apply (dropWhileEnd_last _ _ _ _ E).
  - unfold truncate at 1. apply Z.leb_le in Hlen. rewrite Hlen. reflexivity.
Qed.

(** The limit of the service, 420, on a text of 421 letters. *)
Lemma X6_witness :
  let result := truncate (repeat 97%N 421) 420 in
  Z.of_nat (length result) <= 420
  /\ (Z.of_nat (length (repeat 97%N 421)) <= 420 -> result = repeat 97%N 421)
  /\ (420 < Z.of_nat (length (repeat 97%N 421)) ->
      exists kept dropped,
        result = kept ++ [ellipsis]
        /\ repeat 97%N 421 = kept ++ dropped
        /\ dropped <> []
        /\ (forall k c, kept = k ++ [c] -> isWhiteSpace c = false))
  /\ truncate result 420 = result.
Proof.
  apply (X6_truncate_within_limit (repeat 97%N 421) 420). lia.
Defined.

(** X7. The credits of a picture name the APOD page of its date and the
    API; the holder of the copyright is credited between the two exactly
    when the API gave one that is not empty. The text block ends with the
    media link, the HD link when there is one, the link to the APOD page
    and, as its last line, those credits. *)
Theorem X7_block_ends_with_credits (apod : ApodApiResponse) (requested : jsstring) :
  let pic := toSpacePictureOfTheDay apod requested in
  creditsText pic
  = lit "Source: NASA Astronomy Picture of the Day (APOD) " ++ [emDash]
    ++ lit " " ++ apodPageUrl pic
    ++ (if truthy (copyright apod)
        then lit " | Credit: " ++ orEmpty (copyright apod) else [])
    ++ lit " | API: https://api.nasa.gov/"
  /\ exists front,
       spaceEditionBlock pic
       = front ++ [10%N] ++ lit "Media: " ++ url apod ++ [10%N]
         ++ (if truthy (hdurl apod)
             then lit "HD: " ++ orEmpty (hdurl apod) ++ [10%N] else [])
         ++ lit "More: " ++ apodPageUrl pic ++ [10%N]
         ++ creditsText pic.
Proof.
  cbv zeta. split.
  - cbn [toSpacePictureOfTheDay creditsText apodPageUrl]. unfold buildCreditsText.
    destruct (truthy (copyright apod)); cbn [app join];
      rewrite <- ?app_assoc; reflexivity.
  - cbn [toSpacePictureOfTheDay spaceEditionBlock creditsText apodPageUrl].
    unfold buildSpaceEditionBlock, spaceEditionLines.
    exists (join [10%N]
              [lit "Did you know? Space Edition!";
               lit "NASA APOD (" ++ date apod ++ lit ") " ++ [emDash] ++ lit " "
               ++ title apod;
               [];
               truncate (normalizeWhitespace (explanation apod)) 420;
               []]).
    change [lit "Did you know? Space Edition!";
            lit "NASA APOD (" ++ date apod ++ lit ") " ++ [emDash] ++ lit " "
            ++ title apod;
            [];
            truncate (normalizeWhitespace (explanation apod)) 420;
            [];
            lit "Media: " ++ url apod]
      with ([lit "Did you know? Space Edition!";
             lit "NASA APOD (" ++ date apod ++ lit ") " ++ [emDash] ++ lit " "
             ++ title apod;
             [];
             truncate (normalizeWhitespace (explanation apod)) 420;
             []] ++ [lit "Media: " ++ url apod]).
    rewrite <- app_assoc.
    rewrite GmailClaims.join_app; [|discriminate|discriminate].
    f_equal. f_equal.
    destruct (truthy (hdurl apod)); cbn [app join];
      rewrite <- ?app_assoc; reflexivity.
Qed.

End ApodMore.

(** ** The Gmail service: the reply headers, failures, the payload *)

Module GmailMore.

Import Buffer Rfc4648 Utf8 Gmail GmailTrace GmailScenarios MoreScenarios Index.
Import Base64Facts Utf8Facts.

(** X8. The subject of a reply always starts with "Re: ", and the prefix
    is not added to a subject that starts with it already, so the subject
    of a reply to a reply stays as it is. The test is exact: a subject
    that starts with "RE: " or "re: " gets the prefix in front. *)
Theorem X8_reply_subject_prefixed_once (subject : jsstring) :
  startsWith (lit "Re: ") (replySubjectOf subject) = true
  /\ replySubjectOf (replySubjectOf subject) = replySubjectOf subject
  /\ replySubjectOf (lit "Re: " ++ subject) = lit "Re: " ++ subject
  /\ (startsWith (lit "Re: ") subject = false ->
      replySubjectOf subject = lit "Re: " ++ subject)
  /\ replySubjectOf (lit "RE: " ++ subject) = lit "Re: RE: " ++ subject
  /\ replySubjectOf (lit "re: " ++ subject) = lit "Re: re: " ++ subject.
Proof.
  assert (H : startsWith (lit "Re: ") (replySubjectOf subject) = true).
  { unfold replySubjectOf.
    destruct (startsWith (lit "Re: ") subject) eqn:E; [exact E | reflexivity]. }
  repeat split.
  - exact H.
  - unfold replySubjectOf at 1. rewrite H. reflexivity.
  - intros E. unfold replySubjectOf. rewrite E. reflexivity.
Qed.

Lemma takeLine_app (a b : jsstring) :
  existsb isLineTerminator a = false -> takeLine (a ++ b) = a ++ takeLine b.
Proof.
  induction a as [|c a IH]; intros H; [reflexivity|].
  cbn [existsb] in H. apply orb_false_elim in H. destruct H as [Hc Ha].
  cbn [app takeLine]. rewrite Hc, (IH Ha). reflexivity.
Qed.

Lemma beforeLastGt_none (s : jsstring) :
  existsb ReplyValidation.isGt s = false -> beforeLastGt s = None.
Proof.
  induction s as [|c s IH]; intros H; [reflexivity|].
  cbn [existsb] in H. apply orb_false_elim in H. destruct H as [Hc Hs].
  cbn [beforeLastGt]. rewrite (IH Hs). unfold ReplyValidation.isGt in Hc.
  rewrite Hc. reflexivity.
Qed.

Lemma beforeLastGt_last (a s : jsstring) :
  existsb ReplyValidation.isGt s = false ->
  beforeLastGt (a ++ (62%N : codeUnit) :: s) = Some a.
Proof.
  intros Hs. induction a as [|c a IH].
  - cbn [app beforeLastGt]. rewrite (beforeLastGt_none s Hs). reflexivity.
  - cbn [app beforeLastGt]. rewrite IH. reflexivity.
Qed.

Lemma matchAngleGroup_skip (name s : jsstring) :
  existsb ReplyValidation.isLt name = false ->
  matchAngleGroup (name ++ s) = matchAngleGroup s.
Proof.
  induction name as [|c name IH]; intros H; [reflexivity|].
  cbn [existsb] in H. apply orb_false_elim in H. destruct H as [Hc Hn].
  unfold ReplyValidation.isLt in Hc.
  cbn [app matchAngleGroup]. rewrite Hc. apply (IH Hn).
Qed.

(** X9. For a [From] header of the form [name <address>rest], where [name]
    has no [<], the address is not empty and has no line break, and no
    [>] follows on the same line, the reply is addressed to the address
    alone. A header without any [<] is used as it is. *)
Theorem X9_reply_goes_to_the_address (name address rest : jsstring) :
  existsb ReplyValidation.isLt name = false ->
  address <> [] ->
  existsb isLineTerminator address = false ->
  existsb ReplyValidation.isGt (takeLine rest) = false ->
  toEmailOf (name ++ [60%N] ++ address ++ [62%N] ++ rest) = address
  /\ toEmailOf name = name.
Proof.
  intros Hname Haddr Hline Hrest. split.
  - unfold toEmailOf.
    rewrite existsb_app. cbn [app existsb]. rewrite N.eqb_refl.
    rewrite orb_true_r.
    rewrite (matchAngleGroup_skip name _ Hname).
    cbn [matchAngleGroup]. rewrite N.eqb_refl.
    rewrite (takeLine_app address _ Hline). cbn [takeLine].
    change (isLineTerminator 62%N) with false. cbv iota.
    rewrite (beforeLastGt_last address _ Hrest).
    destruct address as [|x p]; [contradiction Haddr; reflexivity|].
    reflexivity.
  - unfold toEmailOf.
    match goal with
    | |- (if ?b then _ else _) = _ =>
        change b with (existsb ReplyValidation.isLt name)
    end.
    rewrite Hname. reflexivity.
Qed.

(** The header [Jo Doe <jo@example.com>]. *)
Lemma X9_witness :
  toEmailOf (lit "Jo Doe " ++ [60%N] ++ lit "jo@example.com" ++ [62%N] ++ [])
  = lit "jo@example.com"
  /\ toEmailOf (lit "Jo Doe ") = lit "Jo Doe ".
Proof.
  apply (X9_reply_goes_to_the_address (lit "Jo Doe ") (lit "jo@example.com") []).
  - reflexivity.
  - discriminate.
  - reflexivity.
  - reflexivity.
Defined.

Section Unread.

Variable messages_get : list GmailCall -> jsstring -> jsstring + Message.

(** What the promise for a listed message settles with. *)
Lemma emailPromises_nth refs : forall log j,
  nth_error (fst (emailPromises messages_get refs log)) j
  = match nth_error refs j with
    | Some ref =>
        Some match messages_get (log ++ map metadataCall (firstn j refs))
                                (ref_id ref) with
             | inl e => inl e
             | inr msg => inr (toUnreadEmail msg)
             end
    | None => None
    end.
Proof.
  induction refs as [|r refs IH]; intros log j.
  - destruct j; reflexivity.
  - cbn [emailPromises]. fold (metadataCall r).
    specialize (IH (log ++ [metadataCall r])).
    destruct (emailPromises messages_get refs (log ++ [metadataCall r]))
      as [others log'].
    cbn [fst] in *. destruct j as [|j].
    + cbn [nth_error firstn map]. rewrite app_nil_r. reflexivity.
    + cbn [nth_error firstn map]. rewrite IH, <- app_assoc. reflexivity.
Qed.

(** One [messages.get] is sent for every listed message, whatever the
    answers are. *)
Lemma emailPromises_calls refs : forall log,
  snd (emailPromises messages_get refs log) = log ++ map metadataCall refs.
Proof.
  induction refs as [|ref refs IH]; intros log.
  - cbn. rewrite app_nil_r. reflexivity.
  - cbn [emailPromises]. fold (metadataCall ref).
    specialize (IH (log ++ [metadataCall ref])).
    destruct (emailPromises messages_get refs (log ++ [metadataCall ref]))
      as [others log'].
    cbn [snd] in *. rewrite IH, <- app_assoc. reflexivity.
Qed.

End Unread.

(** The reason [firstRejected] gives is that of one of the promises. *)
Lemma firstRejected_some {A} (settled : list (jsstring + A)) order e :
  firstRejected settled order = Some e ->
  exists j, nth_error settled j = Some (inl e).
Proof.
  induction order as [|i order IH]; [discriminate|].
  cbn [firstRejected].
  destruct (nth_error settled i) as [[e'|a]|] eqn:Hi; [|exact IH|exact IH].
  intros E. injection E as <-. exists i. exact Hi.
Qed.

(** The first position of the order that holds a rejection decides. *)
Lemma firstRejected_first {A} (settled : list (jsstring + A)) before i after e :
  nth_error settled i = Some (inl e) ->
  (forall j e', In j before -> nth_error settled j <> Some (inl e')) ->
  firstRejected settled (before ++ i :: after) = Some e.
Proof.
  intros Hi. induction before as [|j before IH]; intros Hb.
  - cbn [app firstRejected]. rewrite Hi. reflexivity.
  - cbn [app firstRejected].
    destruct (nth_error settled j) as [[e'|a]|] eqn:Hj.
    + exfalso. apply (Hb j e'); [left; reflexivity | exact Hj].
    + apply IH. intros k e' Hk. apply Hb. right. exact Hk.
    + apply IH. intros k e' Hk. apply Hb. right. exact Hk.
Qed.

(** A list that holds a rejection gives no list of values. *)
Lemma valuesInOrder_rejected {St A} (settled : list (jsstring + A)) (s : St) :
  forall i e,
    nth_error settled i = Some (inl e) ->
    exists j e', nth_error settled j = Some (inl e')
                 /\ valuesInOrder settled s = (inl e', s).
Proof.
  induction settled as [|[e0|a] settled IH]; intros i e Hi.
  - destruct i; discriminate Hi.
  - exists O, e0. split; reflexivity.
  - destruct i as [|i]; [discriminate Hi|].
    destruct (IH i e Hi) as (j & e' & Hj & Hv).
    exists (S j), e'. split; [exact Hj|].
    cbn [valuesInOrder]. unfold bind. rewrite Hv. reflexivity.
Qed.

(** [Promise.all] of a list that holds a rejection is rejected, with the
    reason of one of the promises. *)
Lemma Promise_all_rejected {St A} order (settled : list (jsstring + A)) (s : St) i e :
  nth_error settled i = Some (inl e) ->
  exists j e', nth_error settled j = Some (inl e')
               /\ Promise_all order settled s = (inl e', s).
Proof.
  intros Hi. unfold Promise_all.
  destruct (firstRejected settled order) as [e'|] eqn:Hf.
  - destruct (firstRejected_some _ _ _ Hf) as [j Hj].
    exists j, e'. split; [exact Hj | reflexivity].
  - apply (valuesInOrder_rejected settled s i e Hi).
Qed.

Lemma Promise_all_state {St A} order (settled : list (jsstring + A)) (s : St) :
  snd (Promise_all order settled s) = s.
Proof.
  unfold Promise_all. destruct (firstRejected settled order); [reflexivity|].
  induction settled as [|[e|a] settled IH]; [reflexivity | reflexivity |].
  cbn [valuesInOrder]. unfold bind.
  destruct (valuesInOrder settled s) as [[e|l] s']; cbn [snd] in *; exact IH.
Qed.

(** X10. [getUnreadEmails] gives all the summaries or none. When the
    listing itself is rejected, the error is passed on and no message is
    fetched. Otherwise one [messages.get] is sent for every listed
    message, whatever the answers are. When the answer for some listed
    message is a rejection, the call is rejected, with the error of one
    of the listed messages that could not be fetched: of the one whose
    rejection arrives first, that is, of the first position in the order
    of arrival that holds a rejection. *)
Theorem X10_unread_all_or_nothing
    (messages_list : list GmailCall -> jsstring -> jsstring + option (list MessageRef))
    (messages_get : list GmailCall -> jsstring -> jsstring + Message)
    (settling : list GmailCall -> list nat)
    (log : list GmailCall) :
  (forall e, messages_list log (lit "is:unread") = inl e ->
     getUnreadEmails messages_list messages_get settling log
     = (inl e, log ++ [listCall]))
  /\ (forall listing,
        messages_list log (lit "is:unread") = inr listing ->
        let refs := orNil listing in
        let sent := (log ++ [listCall]) ++ map metadataCall refs in
        let answer := fun i ref =>
          messages_get ((log ++ [listCall]) ++ map metadataCall (firstn i refs))
                       (ref_id ref) in
        snd (getUnreadEmails messages_list messages_get settling log) = sent
        /\ (forall i ref e,
              nth_error refs i = Some ref -> answer i ref = inl e ->
              exists j other e',
                nth_error refs j = Some other /\ answer j other = inl e'
                /\ getUnreadEmails messages_list messages_get settling log
                   = (inl e', sent))
        /\ (forall before i after ref e,
              settling sent = before ++ i :: after ->
              nth_error refs i = Some ref -> answer i ref = inl e ->
              (forall j earlier e', In j before ->
                 nth_error refs j = Some earlier ->
                 answer j earlier <> inl e') ->
              getUnreadEmails messages_list messages_get settling log
              = (inl e, sent))).
Proof.
  split.
  - intros e He. unfold getUnreadEmails, bind, perform. rewrite He. reflexivity.
  - intros listing Hl. cbv zeta.
    set (log0 := log ++ [listCall]).
    assert (Hrun : orNil listing <> [] ->
              getUnreadEmails messages_list messages_get settling log
              = Promise_all (settling (log0 ++ map metadataCall (orNil listing)))
                  (fst (emailPromises messages_get (orNil listing) log0))
                  (log0 ++ map metadataCall (orNil listing))).
    { intros Hne. unfold getUnreadEmails, bind, perform. fold listCall.
      rewrite Hl. fold log0.
      destruct (orNil listing) as [|ref refs]; [contradiction Hne; reflexivity|].
      cbn [length Nat.eqb].
      pose proof (emailPromises_calls messages_get (ref :: refs) log0) as Hc.
      destruct (emailPromises messages_get (ref :: refs) log0)
        as [promises log'].
      cbn [fst snd] in *. subst log'. reflexivity. }
    assert (Hsettled : forall i ref e,
              nth_error (orNil listing) i = Some ref ->
              messages_get (log0 ++ map metadataCall (firstn i (orNil listing)))
                           (ref_id ref) = inl e ->
              nth_error (fst (emailPromises messages_get (orNil listing) log0)) i
              = Some (inl e)).
    { intros i ref e Hi He. rewrite emailPromises_nth, Hi, He. reflexivity. }
    split; [|split].
    + destruct (orNil listing) as [|ref refs] eqn:Hrefs.
      * unfold getUnreadEmails, bind, perform. fold listCall.
        rewrite Hl, Hrefs. cbn. rewrite app_nil_r. reflexivity.
      * rewrite Hrun by discriminate. apply Promise_all_state.
    + intros i ref e Hi He.
      assert (Hne : orNil listing <> [])
        by (intros E; rewrite E in Hi; destruct i; discriminate Hi).
      rewrite (Hrun Hne).
      destruct (Promise_all_rejected
                  (settling (log0 ++ map metadataCall (orNil listing)))
                  (fst (emailPromises messages_get (orNil listing) log0))
                  (log0 ++ map metadataCall (orNil listing)) i e
                  (Hsettled i ref e Hi He)) as (j & e' & Hj & Hp).
      rewrite emailPromises_nth in Hj.
      destruct (nth_error (orNil listing) j) as [other|] eqn:Ho;
        [|discriminate Hj].
      exists j, other, e'. split; [exact Ho|]. split; [|exact Hp].
      destruct (messages_get _ (ref_id other)) as [e2|msg];
        [congruence | discriminate Hj].
    + intros before i after ref e Hs Hi He Hbefore.
      assert (Hne : orNil listing <> [])
        by (intros E; rewrite E in Hi; destruct i; discriminate Hi).
      rewrite (Hrun Hne). unfold Promise_all. rewrite Hs.
      rewrite (firstRejected_first _ before i after e (Hsettled i ref e Hi He));
        [reflexivity|].
      intros j e' Hj Hn. rewrite emailPromises_nth in Hn.
      destruct (nth_error (orNil listing) j) as [earlier|] eqn:Ho;
        [|discriminate Hn].
      apply (Hbefore j earlier e' Hj Ho).
      destruct (messages_get _ (ref_id earlier)) as [e2|msg];
        [congruence | discriminate Hn].
Qed.

(** Neither of two listed messages can be fetched, and the rejection for
    the second arrives first: the call is rejected with that one. *)
Lemma X10_witness :
  let refs := [{| ref_id := lit "msg1"; ref_threadId := lit "thread1" |};
               {| ref_id := lit "msg2"; ref_threadId := lit "thread2" |}] in
  getUnreadEmails listsTwo failsBoth secondSettlesFirst []
  = (inl (lit "fast failure"), ([] ++ [listCall]) ++ map metadataCall refs).
Proof.
  pose proof (X10_unread_all_or_nothing listsTwo failsBoth secondSettlesFirst [])
    as [_ H].
  specialize (H (Some [{| ref_id := lit "msg1"; ref_threadId := lit "thread1" |};
                       {| ref_id := lit "msg2"; ref_threadId := lit "thread2" |}])
                eq_refl).
  cbv zeta in H. destruct H as (_ & _ & H).
  apply (H [] 1%nat [0%nat]
           {| ref_id := lit "msg2"; ref_threadId := lit "thread2" |}
           (lit "fast failure")).
  - reflexivity.
  - reflexivity.
  - reflexivity.
  - intros j earlier e' [].
Defined.

(** X11. With both arguments present and not empty, the
    [create_draft_reply] tool first fetches the original message. When
    that fails, the provider's error is the error payload and no draft is
    created. Otherwise one draft is submitted, in the thread of the
    message that was fetched, holding the encoded reply; when that fails
    the provider's error is the error payload; when it succeeds the
    payload has [success], the id of the draft and the thread of the
    original. Never more than these two calls are made. *)
Theorem X11_draft_tool_outcomes
    (messages_get : list GmailCall -> jsstring -> jsstring + Message)
    (drafts_create : list GmailCall -> jsstring -> jsstring -> jsstring + Draft)
    (emailId replyBody : jsstring) (log : list GmailCall) :
  emailId <> [] -> replyBody <> [] ->
  let args := Some {| arg_emailId := Some emailId;
                      arg_replyBody := Some replyBody |} in
  let getCall := MessagesGet emailId (lit "full") [] in
  let run := callTool (createDraftReplyHandler messages_get drafts_create args) log in
  match messages_get log emailId with
  | inl e => run = ({| data := inl e; isError := true |}, log ++ [getCall])
  | inr msg =>
      let raw := encodedEmailOf (rawEmailOf msg replyBody) in
      let createCall := DraftsCreate (threadId msg) raw in
      match drafts_create (log ++ [getCall]) (threadId msg) raw with
      | inl e =>
          run = ({| data := inl e; isError := true |},
                 log ++ [getCall; createCall])
      | inr draft =>
          run = ({| data := inr {| success := true;
                                   out_draftId := draft_id draft;
                                   out_threadId := threadId msg;
                                   message := lit "Draft reply created successfully" |};
                    isError := false |},
                 log ++ [getCall; createCall])
      end
  end.
Proof.
  intros He Hr. cbv zeta.
  destruct emailId as [|c e]; [contradiction He; reflexivity|].
  destruct replyBody as [|d r]; [contradiction Hr; reflexivity|].
  unfold callTool, createDraftReplyHandler, createDraftReply, bind, perform.
  cbn [arg_emailId arg_replyBody falsy orb].
  destruct (messages_get log (c :: e)) as [m|msg]; [reflexivity|].
  destruct (drafts_create _ _ _) as [m|draft];
    cbn [ret draftId dr_threadId]; rewrite <- app_assoc; reflexivity.
Qed.

(** The reply of the repository's test. *)
Lemma X11_witness :
  callTool (createDraftReplyHandler getsOriginal createsDraft1
              (Some {| arg_emailId := Some (lit "msg1");
                       arg_replyBody := Some (lit "This is my reply") |})) []
  = ({| data := inr {| success := true;
                       out_draftId := lit "draft1";
                       out_threadId := lit "thread1";
                       message := lit "Draft reply created successfully" |};
        isError := false |},
     [] ++ [MessagesGet (lit "msg1") (lit "full") [];
            DraftsCreate (lit "thread1")
              (encodedEmailOf (rawEmailOf original (lit "This is my reply")))]).
Proof.
  apply (X11_draft_tool_outcomes getsOriginal createsDraft1
           (lit "msg1") (lit "This is my reply") []); discriminate.
Defined.

Lemma base64urlEncode_length (bs : list byte) :
  length (base64urlEncode bs) = ((4 * length bs + 2) / 3)%nat.
Proof.
  induction bs as [| a | a b | a b c r IH] using list_ind3.
  - reflexivity.
  - reflexivity.
  - reflexivity.
  - cbn [base64urlEncode length app]. rewrite IH.
    replace (4 * S (S (S (length r))) + 2)%nat
      with ((4 * length r + 2) + 4 * 3)%nat by lia.
    rewrite Nat.div_add by lia. lia.
Qed.

(** X12. The payload of a draft has no padding and no character outside
    the URL-safe alphabet, and its length is that of unpadded base64: for
    an email of n bytes in UTF-8, the 4n/3 characters rounded up. Emails
    of different bytes have different payloads, hence so have different
    well-formed texts. *)
Theorem X12_payload_length_and_injectivity (rawEmail other : jsstring) :
  length (encodedEmailOf rawEmail)
  = ((4 * length (Buffer.from rawEmail) + 2) / 3)%nat
  /\ forallb isUrlSafeChar (encodedEmailOf rawEmail) = true
  /\ (encodedEmailOf rawEmail = encodedEmailOf other ->
      Buffer.from rawEmail = Buffer.from other)
  /\ (wellFormed rawEmail = true -> wellFormed other = true ->
      encodedEmailOf rawEmail = encodedEmailOf other -> rawEmail = other).
Proof.
  assert (Hinj : encodedEmailOf rawEmail = encodedEmailOf other ->
                 Buffer.from rawEmail = Buffer.from other).
  { unfold encodedEmailOf. intros E.
    destruct (base64url_roundtrip (Buffer.from rawEmail)) as [H1 _].
    destruct (base64url_roundtrip (Buffer.from other)) as [H2 _].
    rewrite E in H1. congruence. }
  repeat split.
  - unfold encodedEmailOf. rewrite toBase64url_refines.
    apply base64urlEncode_length.
  - unfold encodedEmailOf. apply base64url_roundtrip.
  - exact Hinj.
  - intros W1 W2 E. apply Hinj in E.
    pose proof (utf8_roundtrip rawEmail W1) as D1.
    pose proof (utf8_roundtrip other W2) as D2.
    rewrite E in D1. congruence.
Qed.

End GmailMore.

(** ** Printing a date that was read *)

Module DateRoundTrip.

Import Ecma MonthLength Apod ApodTrace ApodScenarios DateFacts ApodFacts ApodMore.

Lemma DayFromYear_next y : DayFromYear (y + 1) = DayFromYear y + 365 + InLeapYear y.
Proof.
  unfold DayFromYear. rewrite InLeapYear_steps. euclid.
Qed.

Lemma DayFromYear_mono a b : a <= b -> DayFromYear a <= DayFromYear b.
Proof.
  intros H. unfold DayFromYear. euclid.
Qed.

Lemma InLeapYear_bit y : InLeapYear y = 0 \/ InLeapYear y = 1.
Proof. unfold InLeapYear. destruct (DaysInYear y =? 366); auto. Qed.

(** The day within the year on which a month starts is read off the
    tables. *)
Lemma start_of_month dwy leap m :
  (leap = 0 \/ leap = 1) -> 1 <= m <= 12 -> 0 <= dwy ->
  MonthFromDay dwy leap = m - 1 -> DateFromDay dwy leap = 1 ->
  forall d, 1 <= d <= (if m =? 2 then 28 + leap
                       else if (m =? 4) || (m =? 6) || (m =? 9) || (m =? 11)
                            then 30 else 31) ->
    MonthFromDay (dwy + d - 1) leap = m - 1
    /\ DateFromDay (dwy + d - 1) leap = d
    /\ dwy + d - 1 < 365 + leap.
Proof.
  intros Hl Hm H0 Hmonth Hdate d Hd.
  unfold DateFromDay in Hdate. rewrite Hmonth in Hdate.
  assert (Hcases : m = 1 \/ m = 2 \/ m = 3 \/ m = 4 \/ m = 5 \/ m = 6 \/ m = 7
                   \/ m = 8 \/ m = 9 \/ m = 10 \/ m = 11 \/ m = 12) by lia.
  clear Hmonth.
  assert (Hmo : MonthFromDay (dwy + d - 1) leap = m - 1).
  { repeat (destruct Hcases as [-> | Hcases]); try subst m;
      cbn in Hdate, Hd; destruct Hl as [-> | ->];
      unfold MonthFromDay;
      repeat match goal with
             | |- context [?a <? ?b] => destruct (Z.ltb_spec a b); try lia
             end. }
  split; [exact Hmo|].
  unfold DateFromDay. rewrite Hmo.
  repeat (destruct Hcases as [-> | Hcases]); try subst m;
    cbn in Hdate, Hd |- *; destruct Hl as [-> | ->]; lia.
Qed.

(** The date of the day number of a date of the calendar is that date. *)
Lemma civil_round_trip y m d :
  1 <= m <= 12 -> 1 <= d <= daysInMonth y m ->
  civilFromDays (daysFromCivil y m d) = (y, m, d).
Proof.
  intros Hm Hd.
  pose proof (civilFromDays_first_of_month y m Hm) as H1.
  pose proof (civilFromDays_ecma (daysFromCivil y m 1)) as E1.
  rewrite H1 in E1. destruct E1 as (Hy1 & Hm1 & Hd1).
  pose proof (start_of_month (daysFromCivil y m 1 - DayFromYear y)
                (InLeapYear y) m (InLeapYear_bit y) Hm ltac:(lia)
                (eq_sym Hm1) (eq_sym Hd1) d Hd) as (Hmd & Hdd & Hlt).
  rewrite (daysFromCivil_day y m d).
  pose proof (civilFromDays_ecma (daysFromCivil y m 1 + d - 1)) as E.
  destruct (civilFromDays (daysFromCivil y m 1 + d - 1)) as [[y2 m2] d2].
  destruct E as (Hy2 & Hm2 & Hd2).
  assert (Ey : y2 = y).
  { pose proof (DayFromYear_next y) as Hn.
    destruct (Z.lt_trichotomy y2 y) as [Hlt2 | [Heq | Hgt]]; [|exact Heq|].
    - pose proof (DayFromYear_mono (y2 + 1) y ltac:(lia)). lia.
    - pose proof (DayFromYear_mono (y + 1) y2 ltac:(lia)). lia. }
  subst y2.
  replace (daysFromCivil y m 1 + d - 1 - DayFromYear y)
    with (daysFromCivil y m 1 - DayFromYear y + d - 1) in Hm2, Hd2 by lia.
  rewrite Hmd in Hm2. rewrite Hdd in Hd2.
  f_equal; [f_equal|]; lia.
Qed.

(** Strings of digits of the same length and value are the same. *)
Lemma digits4_unique a b c d a' b' c' d' :
  forallb isDigit [a; b; c; d; a'; b'; c'; d'] = true ->
  digitsValue [a; b; c; d] = digitsValue [a'; b'; c'; d'] ->
  [a; b; c; d] = [a'; b'; c'; d'].
Proof.
  intros H E. cbn [forallb] in H.
  repeat match goal with
         | H : _ && _ = true |- _ =>
             apply andb_prop in H; let H1 := fresh "D" in destruct H as [H1 H]
         end.
  apply isDigit_value in D, D0, D1, D2, D3, D4, D5, D6.
  rewrite !digitsValue4 in E.
  assert (a = a' /\ b = b' /\ c = c' /\ d = d') as (-> & -> & -> & ->) by lia.
  reflexivity.
Qed.

Lemma digits2_unique a b a' b' :
  forallb isDigit [a; b; a'; b'] = true ->
  digitsValue [a; b] = digitsValue [a'; b'] ->
  [a; b] = [a'; b'].
Proof.
  intros H E. cbn [forallb] in H.
  repeat match goal with
         | H : _ && _ = true |- _ =>
             apply andb_prop in H; let H1 := fresh "D" in destruct H as [H1 H]
         end.
  apply isDigit_value in D, D0, D1, D2.
  rewrite !digitsValue2 in E.
  assert (a = a' /\ b = b') as (-> & ->) by lia.
  reflexivity.
Qed.

(** X17. A date of the calendar, written as the service asks and with a
    year from 1000 on, is printed by [formatDateUTC] as it was written
    once [parseDateUTC] has read it. The walk for such a date therefore
    starts with a request for the very date that was asked for. *)
Theorem X17_date_round_trip
    (network : list ApodRequest -> ApodRequest -> jsstring + Response)
    (apiKey : jsstring) (now : Date) (maxDaysBack : option JsNumber)
    (log : list ApodRequest)
    (y1 y2 y3 y4 m1 m2 d1 d2 : codeUnit) :
  let s := [y1; y2; y3; y4; 45%N; m1; m2; 45%N; d1; d2] in
  let y := digitsValue [y1; y2; y3; y4] in
  let m := digitsValue [m1; m2] in
  let d := digitsValue [d1; d2] in
  forallb isDigit [y1; y2; y3; y4; m1; m2; d1; d2] = true ->
  1000 <= y ->
  1 <= m <= 12 ->
  1 <= d <= daysInMonth y m ->
  formatDateUTC (parseDateUTC s) = s
  /\ exists rest,
       snd (getSpacePictureOfTheDay network apiKey now
              {| opt_date := Some s; opt_maxDaysBack := maxDaysBack |} log)
       = log ++ {| req_api_key := apiKey; req_date := Some s |} :: rest.
Proof.
  cbv zeta. intros Hdig Hy Hm Hd.
  assert (Hds : isDigit y1 = true /\ isDigit y2 = true /\ isDigit y3 = true
                /\ isDigit y4 = true /\ isDigit m1 = true /\ isDigit m2 = true
                /\ isDigit d1 = true /\ isDigit d2 = true).
  { pose proof Hdig as H. cbn [forallb] in H.
    repeat match goal with
           | H : _ && _ = true |- _ =>
               apply andb_prop in H; let H1 := fresh "D" in destruct H as [H1 H]
           end.
    repeat split; assumption. }
  destruct Hds as (D & D0 & D1 & D2 & D3 & D4 & D5 & D6).
  set (s := [y1; y2; y3; y4; 45%N; m1; m2; 45%N; d1; d2]).
  destruct (newDate_of_digits s _ _ _ _ _ _ _ _ eq_refl Hdig) as [Hre Hp].
  cbv zeta in Hp.
  assert (Hd31 : digitsValue [d1; d2] <= 31).
  { unfold daysInMonth in Hd. pose proof (InLeapYear_bit (digitsValue [y1; y2; y3; y4])).
    destruct (_ =? 2); [lia|]. destruct (_ || _); lia. }
  assert (Hc : (1 <=? digitsValue [m1; m2]) && (digitsValue [m1; m2] <=? 12)
               && (1 <=? digitsValue [d1; d2]) && (digitsValue [d1; d2] <=? 31)
               = true).
  { destruct Hm as [Ha Hb], Hd as [Hc _].
    apply Z.leb_le in Ha, Hb, Hc, Hd31. rewrite Ha, Hb, Hc, Hd31. reflexivity. }
  match type of Hp with
  | _ = (if ?b then _ else _) =>
      replace b with true in Hp by (symmetry; exact Hc)
  end.
  set (t := daysFromCivil (digitsValue [y1; y2; y3; y4]) (digitsValue [m1; m2])
              (digitsValue [d1; d2]) * msPerDay) in *.
  assert (Hday : Day t = daysFromCivil (digitsValue [y1; y2; y3; y4])
                           (digitsValue [m1; m2]) (digitsValue [d1; d2])).
  { subst t. unfold Day. apply Z.div_mul. unfold msPerDay. lia. }
  pose proof (civil_round_trip _ _ _ Hm Hd) as Hrt. rewrite <- Hday in Hrt.
  assert (HY : YearFromTime t = digitsValue [y1; y2; y3; y4])
    by (unfold YearFromTime; rewrite Hrt; reflexivity).
  assert (HM : MonthFromTime t + 1 = digitsValue [m1; m2])
    by (unfold MonthFromTime; rewrite Hrt; cbn [fst snd]; lia).
  assert (HD : DateFromTime t = digitsValue [d1; d2])
    by (unfold DateFromTime; rewrite Hrt; reflexivity).
  assert (Hy9 : digitsValue [y1; y2; y3; y4] <= 9999).
  { pose proof (isDigit_value _ D). pose proof (isDigit_value _ D0).
    pose proof (isDigit_value _ D1). pose proof (isDigit_value _ D2).
    rewrite digitsValue4. lia. }
  assert (Hprint : formatDateUTC (Some t) = s).
  { destruct (formatDateUTC_shape t ltac:(lia))
      as (a1 & a2 & a3 & a4 & b1 & b2 & c1 & c2 & E & Hre' & Ey & Em & Ed).
    rewrite E.
    destruct (proj1 (ApodClaims.matchesDateRegex_iff _) Hre')
      as (a1' & a2' & a3' & a4' & b1' & b2' & c1' & c2' & E' & A1 & A2 & A3 & A4
          & B1 & B2 & C1 & C2).
    injection E' as <- <- <- <- <- <- <- <-.
    assert (Ey' : [a1; a2; a3; a4] = [y1; y2; y3; y4]).
    { apply digits4_unique; [|etransitivity; [exact Ey | exact HY]].
      cbn [forallb]. rewrite A1, A2, A3, A4, D, D0, D1, D2. reflexivity. }
    assert (Em' : [b1; b2] = [m1; m2]).
    { apply digits2_unique; [|etransitivity; [exact Em | exact HM]].
      cbn [forallb]. rewrite B1, B2, D3, D4. reflexivity. }
    assert (Ed' : [c1; c2] = [d1; d2]).
    { apply digits2_unique; [|etransitivity; [exact Ed | exact HD]].
      cbn [forallb]. rewrite C1, C2, D5, D6. reflexivity. }
    injection Ey' as -> -> -> ->. injection Em' as -> ->.
    injection Ed' as -> ->. reflexivity. }
  split.
  - unfold parseDateUTC. rewrite Hp. exact Hprint.
  - unfold getSpacePictureOfTheDay. cbn [opt_date].
    unfold isValidDateFormat, parseDateUTC, getTime. rewrite Hre, Hp.
    cbn [negb].
    assert (Hr : 0 <= effectiveMaxDaysBack
                        {| opt_date := Some s; opt_maxDaysBack := maxDaysBack |}).
    { unfold effectiveMaxDaysBack, clampInt.
      destruct maxDaysBack as [[| | |q]|]; cbn; lia. }
    destruct (Z.to_nat _) as [|n] eqn:En; [lia|].
    cbn [walk]. unfold tryCatch, bind.
    rewrite (fetchApod_run network apiKey) by apply formatDateUTC_truthy.
    match goal with
    | |- context [formatDateUTC ?x] =>
        replace (formatDateUTC x) with s by (symmetry; exact Hprint)
    end.
    destruct (fetchOutcome _) as [reason|apod].
    + match goal with
      | |- context [walk _ _ ?r ?n ?c ?f ?l] =>
          destruct (walk_requests network apiKey r n c f l) as (reqs & E & _)
      end.
      exists reqs. rewrite E, <- app_assoc. reflexivity.
    + exists []. reflexivity.
Qed.

(** The date of the repository's tests. *)
Lemma X17_witness :
  formatDateUTC (parseDateUTC (lit "2026-01-22")) = lit "2026-01-22"
  /\ exists rest,
       snd (getSpacePictureOfTheDay serverError testKey noon20260122
              {| opt_date := Some (lit "2026-01-22"); opt_maxDaysBack := None |} [])
       = [] ++ {| req_api_key := testKey; req_date := Some (lit "2026-01-22") |}
               :: rest.
Proof.
  apply (X17_date_round_trip serverError testKey noon20260122 None []
           50%N 48%N 50%N 54%N 48%N 49%N 50%N 50%N).
  - reflexivity.
  - vm_compute. discriminate.
  - vm_compute. split; discriminate.
  - vm_compute. split; discriminate.
Defined.

End DateRoundTrip.

(** ** The guardrail: what follows the marker *)

Module GuardrailMore.

Import ReplyValidation GuardrailSpec GuardrailClaims.

Lemma startsWith_length (p : jsstring) : forall s : jsstring,
  startsWith p s = true -> (length p <= length s)%nat.
Proof.
  induction p as [|x p IH]; intros s H; [cbn; lia|].
  destruct s as [|y s]; [discriminate H|].
  cbn [startsWith] in H. apply andb_prop in H. destruct H as [_ H].
  specialize (IH s H). cbn [length]. lia.
Qed.

(** Whether [p] starts a string that is long enough does not depend on
    what is appended to the string. *)
Lemma startsWith_within (p : jsstring) : forall s t : jsstring,
  (length p <= length s)%nat -> startsWith p (s ++ t) = startsWith p s.
Proof.
  induction p as [|x p IH]; intros s t H; [reflexivity|].
  destruct s as [|y s]; [cbn [length] in H; lia|].
  cbn [app startsWith]. rewrite (IH s t) by (cbn [length] in H; lia).
  reflexivity.
Qed.

(** An occurrence that lies within [s] is the first one of [s ++ t] as
    soon as it is the first one of [s], and conversely. *)
Lemma indexOf_within (p s t : jsstring) (i : nat) :
  (i + length p <= length s)%nat ->
  indexOf p (s ++ t) = Some i <-> indexOf p s = Some i.
Proof.
  intros Hi. rewrite !indexOf_Some.
  assert (Hskip : forall j, (j <= i)%nat ->
            startsWith p (skipn j (s ++ t)) = startsWith p (skipn j s)).
  { intros j Hj. rewrite skipn_app.
    replace (j - length s)%nat with O by lia. cbn [skipn].
    apply startsWith_within. rewrite length_skipn. lia. }
  rewrite length_app. split.
  - intros (_ & Hs & Hmin). repeat split.
    + lia.
    + rewrite <- Hskip by lia. exact Hs.
    + intros j Hj. rewrite <- Hskip by lia. apply Hmin. exact Hj.
  - intros (_ & Hs & Hmin). repeat split.
    + lia.
    + rewrite Hskip by lia. exact Hs.
    + intros j Hj. rewrite Hskip by lia. apply Hmin. exact Hj.
Qed.

Lemma indexOf_inside (p s : jsstring) (i : nat) :
  indexOf p s = Some i -> (i + length p <= length s)%nat.
Proof.
  intros H. apply indexOf_Some in H. destruct H as (Hi & Hs & _).
  apply startsWith_length in Hs. rewrite length_skipn in Hs. lia.
Qed.

(** X13. The guardrail looks only at the text before the first occurrence
    of the marker. Once a body contains the marker, text appended to it
    does not change the verdict, and the verdict is that of the text
    before the first marker followed by the marker alone: a reply written
    after the Space Edition block does not count as the main reply. *)
Theorem X13_only_the_text_before_the_marker_counts
    (replyBody tail : jsstring) (idx : nat) (format : DraftFormat) :
  indexOf marker replyBody = Some idx ->
  assertReplyBodyHasMainReplyBeforeSpaceEdition (replyBody ++ tail) format
  = assertReplyBodyHasMainReplyBeforeSpaceEdition replyBody format
  /\ assertReplyBodyHasMainReplyBeforeSpaceEdition replyBody format
     = assertReplyBodyHasMainReplyBeforeSpaceEdition
         (firstn idx replyBody ++ marker) format.
Proof.
  intros H. pose proof (indexOf_inside _ _ _ H) as Hin.
  assert (Happ : indexOf marker (replyBody ++ tail) = Some idx)
    by (apply indexOf_within; assumption).
  assert (Hparts : exists post, replyBody = (firstn idx replyBody ++ marker) ++ post).
  { destruct (proj1 (indexOf_Some _ _ _) H) as (_ & Hs & _).
    apply startsWith_app in Hs. destruct Hs as [post Hs].
    exists post. rewrite <- app_assoc, <- Hs. symmetry. apply firstn_skipn. }
  destruct Hparts as [post Hparts].
  assert (Hcut : indexOf marker (firstn idx replyBody ++ marker) = Some idx).
  { apply (indexOf_within marker _ post idx).
    - rewrite length_app, length_firstn. lia.
    - rewrite <- Hparts. exact H. }
  unfold assertReplyBodyHasMainReplyBeforeSpaceEdition.
  rewrite H, Happ, Hcut. unfold sliceTo.
  rewrite firstn_app.
  replace (idx - length replyBody)%nat with O by lia.
  cbn [firstn]. rewrite app_nil_r.
  rewrite (firstn_app idx (firstn idx replyBody) marker).
  rewrite length_firstn.
  replace (idx - Nat.min idx (length replyBody))%nat with O by lia.
  cbn [firstn]. rewrite app_nil_r, firstn_firstn.
  replace (Nat.min idx idx) with idx by lia.
  split; reflexivity.
Qed.

(** A body that opens with the marker is refused whatever reply is
    written after it. *)
Lemma X13_witness :
  assertReplyBodyHasMainReplyBeforeSpaceEdition
    ((lit "Did you know? Space Edition!" ++ [10%N] ++ lit "X")
     ++ lit " Thanks for your mail, see you on Monday.") plain
  = assertReplyBodyHasMainReplyBeforeSpaceEdition
      (lit "Did you know? Space Edition!" ++ [10%N] ++ lit "X") plain
  /\ assertReplyBodyHasMainReplyBeforeSpaceEdition
       (lit "Did you know? Space Edition!" ++ [10%N] ++ lit "X") plain
     = assertReplyBodyHasMainReplyBeforeSpaceEdition
         (firstn 0 (lit "Did you know? Space Edition!" ++ [10%N] ++ lit "X")
          ++ marker) plain.
Proof.
  apply (X13_only_the_text_before_the_marker_counts
           (lit "Did you know? Space Edition!" ++ [10%N] ++ lit "X")
           (lit " Thanks for your mail, see you on Monday.") 0 plain).
  reflexivity.
Defined.

Lemma replaceTags_whiteSpace (s : jsstring) :
  forallb isWhiteSpace s = true -> replaceTags false s = s.
Proof.
  induction s as [|c r IH]; intros H; [reflexivity|].
  cbn [forallb] in H. apply andb_prop in H. destruct H as [Hc Hr].
  cbn [replaceTags].
  assert (Hlt : isLt c = false).
  { unfold isLt. destruct (N.eqb_spec c 60) as [->|]; [discriminate Hc | reflexivity]. }
  rewrite Hlt. cbn [andb]. rewrite (IH Hr). reflexivity.
Qed.

(** X18. The test of the HTML format is the stricter one: a body that the
    guardrail refuses as plain text is refused as HTML as well, each time
    with the message of the format. The converse does not hold: a body
    with nothing but a tag before the marker passes as plain text and is
    refused as HTML. *)
Theorem X18_html_check_is_stricter (replyBody message : jsstring) :
  assertReplyBodyHasMainReplyBeforeSpaceEdition replyBody plain = inl message ->
  message = plainOnlyMessage
  /\ assertReplyBodyHasMainReplyBeforeSpaceEdition replyBody html
     = inl htmlOnlyMessage
  /\ assertReplyBodyHasMainReplyBeforeSpaceEdition (lit "<br>" ++ marker) plain
     = inr tt
  /\ assertReplyBodyHasMainReplyBeforeSpaceEdition (lit "<br>" ++ marker) html
     = inl htmlOnlyMessage.
Proof.
  unfold assertReplyBodyHasMainReplyBeforeSpaceEdition at 1 2.
  destruct (indexOf marker replyBody) as [idx|]; [|discriminate].
  unfold sliceTo. rewrite !length_eqb_0.
  destruct (isEmpty (trim (firstn idx replyBody))) eqn:He; [|discriminate].
  intros E. injection E as <-.
  apply isEmpty_true, trim_empty in He.
  rewrite (replaceTags_whiteSpace _ He).
  assert (Hh : trim (collapseWhiteSpace (firstn idx replyBody)) = []).
  { apply trim_empty. unfold collapseWhiteSpace.
    rewrite collapse_whiteSpace. exact He. }
  rewrite Hh. repeat split; reflexivity.
Qed.

(** A body that is the marker alone. *)
Lemma X18_witness :
  plainOnlyMessage = plainOnlyMessage
  /\ assertReplyBodyHasMainReplyBeforeSpaceEdition marker html
     = inl htmlOnlyMessage
  /\ assertReplyBodyHasMainReplyBeforeSpaceEdition (lit "<br>" ++ marker) plain
     = inr tt
  /\ assertReplyBodyHasMainReplyBeforeSpaceEdition (lit "<br>" ++ marker) html
     = inl htmlOnlyMessage.
Proof.
  apply (X18_html_check_is_stricter marker plainOnlyMessage). reflexivity.
Defined.

End GuardrailMore.

(** ** Saving the refresh token *)

Module AuthFacts.

Import Auth MoreScenarios.

Lemma splitOn_nonempty sep (s : jsstring) : splitOn sep s <> [].
Proof.
  destruct s as [|c r]; cbn [splitOn]; [discriminate|].
  destruct (c =? sep)%N; [discriminate|].
  destruct (splitOn sep r); discriminate.
Qed.

(** Joining the pieces with the separator gives the string back. *)
Lemma join_splitOn sep (s : jsstring) : join [sep] (splitOn sep s) = s.
Proof.
  induction s as [|c r IH]; [reflexivity|].
  cbn [splitOn]. destruct (N.eqb_spec c sep) as [->|Hc].
  - pose proof (splitOn_nonempty sep r) as Hne.
    destruct (splitOn sep r) as [|piece pieces]; [contradiction Hne; reflexivity|].
    cbn [join app] in *. rewrite IH. reflexivity.
  - pose proof (splitOn_nonempty sep r) as Hne.
    destruct (splitOn sep r) as [|piece pieces]; [contradiction Hne; reflexivity|].
    destruct pieces as [|piece' pieces]; cbn [join app] in *;
      rewrite <- IH; reflexivity.
Qed.

(** No piece holds the separator. *)
Lemma splitOn_pieces sep (s : jsstring) :
  Forall (fun piece => existsb (fun c => (c =? sep)%N) piece = false)
         (splitOn sep s).
Proof.
  induction s as [|c r IH]; [repeat constructor|].
  cbn [splitOn]. destruct (c =? sep)%N eqn:Hc.
  - constructor; [reflexivity | exact IH].
  - destruct (splitOn sep r) as [|piece pieces]; [repeat constructor; cbn; rewrite Hc; reflexivity|].
    inversion IH as [|? ? Hp Hps]; subst.
    constructor; [cbn [existsb]; rewrite Hc, Hp; reflexivity | exact Hps].
Qed.

Lemma splitOn_piece_then sep (a r : jsstring) :
  existsb (fun c => (c =? sep)%N) a = false ->
  splitOn sep (a ++ sep :: r) = a :: splitOn sep r.
Proof.
  induction a as [|c a IH]; intros H.
  - cbn [app splitOn]. rewrite N.eqb_refl. reflexivity.
  - cbn [existsb] in H. apply orb_false_elim in H. destruct H as [Hc Ha].
    cbn [app splitOn]. rewrite Hc, (IH Ha). reflexivity.
Qed.

Lemma splitOn_one sep (a : jsstring) :
  existsb (fun c => (c =? sep)%N) a = false -> splitOn sep a = [a].
Proof.
  induction a as [|c a IH]; intros H; [reflexivity|].
  cbn [existsb] in H. apply orb_false_elim in H. destruct H as [Hc Ha].
  cbn [splitOn]. rewrite Hc, (IH Ha). reflexivity.
Qed.

(** Lines that hold no separator are the pieces of their join. *)
Lemma splitOn_join sep (lines : list jsstring) :
  lines <> [] ->
  Forall (fun piece => existsb (fun c => (c =? sep)%N) piece = false) lines ->
  splitOn sep (join [sep] lines) = lines.
Proof.
  induction lines as [|a lines IH]; intros Hne H; [contradiction Hne; reflexivity|].
  inversion H as [|? ? Ha Hl]; subst.
  destruct lines as [|b lines].
  - cbn [join]. apply splitOn_one. exact Ha.
  - change (join [sep] (a :: b :: lines)) with (a ++ sep :: join [sep] (b :: lines)).
    rewrite (splitOn_piece_then sep a _ Ha).
    rewrite IH; [reflexivity | discriminate | exact Hl].
Qed.

Lemma join_snoc sep (lines : list jsstring) (x : jsstring) :
  lines <> [] -> join sep (lines ++ [x]) = join sep lines ++ sep ++ x.
Proof.
  intros Hne. apply GmailClaims.join_app; [exact Hne | discriminate].
Qed.

Lemma startsWith_tokenLine token : startsWith tokenKey (tokenLine token) = true.
Proof.
  unfold tokenLine. apply GuardrailClaims.startsWith_app.
  exists token. reflexivity.
Qed.

Lemma tokenLine_no_newline token :
  hasNewline token = false ->
  existsb (fun c => (c =? newline)%N) (tokenLine token) = false.
Proof.
  intros H. unfold tokenLine. rewrite existsb_app.
  apply orb_false_intro; [reflexivity | exact H].
Qed.

(** The lines of the file that is written are [updatedLines]. *)
Lemma written_lines file token :
  hasNewline token = false ->
  splitOn newline (writtenEnv file token)
  = updatedLinesOf (match file with Some content => content | None => [] end)
                   token.
Proof.
  intros Ht. unfold writtenEnv. cbv zeta.
  set (content := match file with Some c => c | None => [] end).
  apply splitOn_join.
  - unfold updatedLinesOf. cbv zeta.
    pose proof (splitOn_nonempty newline content) as Hne.
    destruct (splitOn newline content) as [|l ls]; [contradiction Hne; reflexivity|].
    destruct (negb _); discriminate.
  - unfold updatedLinesOf. cbv zeta.
    pose proof (splitOn_pieces newline content) as Hp.
    assert (Hmap : Forall (fun piece => existsb (fun c => (c =? newline)%N) piece = false)
                     (map (fun line => if startsWith tokenKey line
                                       then tokenLine token else line)
                          (splitOn newline content))).
    { induction Hp as [|l ls Hl Hls IH]; [constructor|].
      cbn [map]. constructor; [|exact IH].
      destruct (startsWith tokenKey l);
        [apply tokenLine_no_newline; exact Ht | exact Hl]. }
    destruct (negb _); [|exact Hmap].
    apply Forall_app. split; [exact Hmap|].
    constructor; [apply tokenLine_no_newline; exact Ht | constructor].
Qed.

Lemma others_kept (lines : list jsstring) token :
  filter (fun line => negb (startsWith tokenKey line))
         (map (fun line => if startsWith tokenKey line then tokenLine token
                           else line) lines)
  = filter (fun line => negb (startsWith tokenKey line)) lines.
Proof.
  induction lines as [|l ls IH]; [reflexivity|].
  cbn [map filter]. destruct (startsWith tokenKey l) eqn:Hl.
  - rewrite startsWith_tokenLine. cbn [negb]. exact IH.
  - rewrite Hl. cbn [negb]. rewrite IH. reflexivity.
Qed.

Lemma keyed_replaced (lines : list jsstring) token :
  filter (startsWith tokenKey)
         (map (fun line => if startsWith tokenKey line then tokenLine token
                           else line) lines)
  = repeat (tokenLine token) (length (filter (startsWith tokenKey) lines)).
Proof.
  induction lines as [|l ls IH]; [reflexivity|].
  cbn [map filter]. destruct (startsWith tokenKey l) eqn:Hl.
  - rewrite startsWith_tokenLine. cbn [length repeat]. rewrite IH. reflexivity.
  - rewrite Hl. exact IH.
Qed.

Lemma existsb_filter {A} (p : A -> bool) (l : list A) :
  existsb p l = negb (length (filter p l) =? 0)%nat.
Proof.
  induction l as [|a l IH]; [reflexivity|].
  cbn [existsb filter]. destruct (p a); [reflexivity | exact IH].
Qed.

(** X14. After [main] has saved a token that holds no line break, the
    lines of [.env] that start with [GMAIL_REFRESH_TOKEN=] all are the
    line of the new token: one for each such line the file had, and if it
    had none, one that is added at the end. The other lines are the ones
    the file had, in the same order. When the file had no such line, the
    new content is the old one, a line break and the new line, so that a
    missing or empty file becomes an empty line followed by the token
    line. *)
Theorem X14_env_holds_the_new_token (file : option jsstring) (token : jsstring) :
  hasNewline token = false ->
  let content := match file with Some c => c | None => [] end in
  let written := writtenEnv file token in
  tokenLines written
  = repeat (tokenLine token) (Nat.max 1 (length (tokenLines content)))
  /\ otherLines written = otherLines content
  /\ (tokenLines content = [] ->
      written = content ++ [newline] ++ tokenLine token)
  /\ writtenEnv None token = [newline] ++ tokenLine token.
Proof.
  intros Ht. cbv zeta.
  set (content := match file with Some c => c | None => [] end).
  unfold tokenLines, otherLines. rewrite (written_lines file token Ht).
  fold content. unfold updatedLinesOf. cbv zeta.
  rewrite (existsb_filter (startsWith tokenKey) (splitOn newline content)).
  rewrite negb_involutive.
  repeat split.
  - destruct (filter (startsWith tokenKey) (splitOn newline content))
      as [|k ks] eqn:Hk; cbn [length Nat.eqb].
    + rewrite filter_app, keyed_replaced, Hk. cbn [length repeat app filter].
      rewrite startsWith_tokenLine. reflexivity.
    + rewrite keyed_replaced, Hk. cbn [length].
      replace (Nat.max 1 (S (length ks))) with (S (length ks)) by lia.
      reflexivity.
  - destruct (length (filter (startsWith tokenKey) (splitOn newline content))
              =? 0)%nat.
    + rewrite filter_app, others_kept. cbn [filter].
      rewrite startsWith_tokenLine. cbn [negb]. apply app_nil_r.
    + apply others_kept.
  - intros Hnone. unfold writtenEnv. cbv zeta. fold content.
    unfold updatedLinesOf. cbv zeta.
    rewrite (existsb_filter (startsWith tokenKey) (splitOn newline content)).
    rewrite Hnone. cbn [length Nat.eqb negb].
    assert (Hsame : map (fun line => if startsWith tokenKey line
                                     then tokenLine token else line)
                        (splitOn newline content)
                    = splitOn newline content).
    { revert Hnone. generalize (splitOn newline content).
      induction l as [|a l IH]; intros Hn; [reflexivity|].
      cbn [filter] in Hn. cbn [map].
      destruct (startsWith tokenKey a); [discriminate Hn|].
      rewrite (IH Hn). reflexivity. }
    rewrite Hsame, join_snoc by apply splitOn_nonempty.
    rewrite join_splitOn. reflexivity.
Qed.

(** A file with the two client settings and an old token. *)
Lemma X14_witness :
  let written := writtenEnv (Some envWithToken) (lit "new") in
  written = lit "GMAIL_CLIENT_ID=abc" ++ [newline]
            ++ lit "GMAIL_REFRESH_TOKEN=new" ++ [newline]
            ++ lit "GMAIL_CLIENT_SECRET=xyz"
  /\ tokenLines written
     = repeat (tokenLine (lit "new")) (Nat.max 1 (length (tokenLines envWithToken)))
  /\ otherLines written = otherLines envWithToken
  /\ (tokenLines envWithToken = [] ->
      written = envWithToken ++ [newline] ++ tokenLine (lit "new"))
  /\ writtenEnv None (lit "new") = [newline] ++ tokenLine (lit "new").
Proof.
  split; [vm_compute; reflexivity|].
  apply (X14_env_holds_the_new_token (Some envWithToken) (lit "new")).
  reflexivity.
Defined.

Lemma map_replace_twice (lines : list jsstring) t1 t2 :
  map (fun line => if startsWith tokenKey line then tokenLine t2 else line)
      (map (fun line => if startsWith tokenKey line then tokenLine t1 else line)
           lines)
  = map (fun line => if startsWith tokenKey line then tokenLine t2 else line)
        lines.
Proof.
  rewrite map_map. apply map_ext. intros l.
  destruct (startsWith tokenKey l) eqn:Hl.
  - rewrite startsWith_tokenLine. reflexivity.
  - rewrite Hl. reflexivity.
Qed.

Lemma existsb_replaced (lines : list jsstring) t :
  existsb (startsWith tokenKey)
          (map (fun line => if startsWith tokenKey line then tokenLine t else line)
               lines)
  = existsb (startsWith tokenKey) lines.
Proof.
  induction lines as [|l ls IH]; [reflexivity|].
  cbn [map existsb]. rewrite IH.
  destruct (startsWith tokenKey l) eqn:Hl.
  - rewrite startsWith_tokenLine. reflexivity.
  - rewrite Hl. reflexivity.
Qed.

(** X15. When the first token holds no line break, saving a second
    token in the file the first run wrote gives the file that saving the
    second token at once would have given: the latest token replaces the
    earlier one and no line is added twice. In particular saving the same
    token again leaves the file as it is. *)
Theorem X15_latest_token_wins (file : option jsstring) (first second : jsstring) :
  hasNewline first = false ->
  writtenEnv (Some (writtenEnv file first)) second = writtenEnv file second
  /\ writtenEnv (Some (writtenEnv file first)) first = writtenEnv file first.
Proof.
  intros H1.
  assert (Hgen : forall t,
            writtenEnv (Some (writtenEnv file first)) t = writtenEnv file t).
  { intros t. unfold writtenEnv at 1. cbv zeta. unfold updatedLinesOf at 1.
    cbv zeta. rewrite (written_lines file first H1).
    unfold writtenEnv, updatedLinesOf. cbv zeta.
    set (lines := splitOn newline match file with Some c => c | None => [] end).
    destruct (existsb (startsWith tokenKey) lines) eqn:Hf; cbn [negb].
    - rewrite existsb_replaced, Hf. cbn [negb].
      rewrite map_replace_twice. reflexivity.
    - rewrite existsb_app, existsb_replaced, Hf. cbn [existsb orb].
      rewrite startsWith_tokenLine. cbn [orb negb].
      rewrite map_app, map_replace_twice. cbn [map].
      rewrite startsWith_tokenLine. reflexivity. }
  split; apply Hgen.
Qed.

(** The condition on the first token is needed: a first token that holds
    a line break followed by the key leaves two token lines behind, and
    the second run rewrites both. *)
Example token_with_line_break :
  let first := lit "a" ++ [newline] ++ lit "GMAIL_REFRESH_TOKEN=b" in
  hasNewline first = true
  /\ writtenEnv (Some (writtenEnv None first)) (lit "second")
     = [newline] ++ lit "GMAIL_REFRESH_TOKEN=second"
       ++ [newline] ++ lit "GMAIL_REFRESH_TOKEN=second"
  /\ writtenEnv None (lit "second") = [newline] ++ lit "GMAIL_REFRESH_TOKEN=second"
  /\ writtenEnv (Some (writtenEnv None first)) (lit "second")
     <> writtenEnv None (lit "second").
Proof.
  cbv zeta. repeat split; try (vm_compute; reflexivity).
  vm_compute. discriminate.
Qed.

Lemma X15_witness :
  writtenEnv (Some (writtenEnv (Some envWithToken) (lit "first"))) (lit "second")
  = writtenEnv (Some envWithToken) (lit "second")
  /\ writtenEnv (Some (writtenEnv (Some envWithToken) (lit "first"))) (lit "first")
     = writtenEnv (Some envWithToken) (lit "first").
Proof.
  apply (X15_latest_token_wins (Some envWithToken) (lit "first") (lit "second")).
  reflexivity.
Defined.

End AuthFacts.

(** ** The tool switch of the earlier copy *)

Module ToolSwitchFacts.

Import Gmail GmailTrace GmailScenarios Index ToolSwitch.

(** X16. In the earlier copy of the server, a call of a tool that is
    neither [get_unread_emails] nor [create_draft_reply] is answered with
    the error payload "Unknown tool: " followed by the name, flagged as an
    error, without any call to the mail provider. [get_unread_emails]
    does not look at its arguments, and when the listing is rejected the
    provider's error is the error payload. *)
Theorem X16_unknown_tool_is_refused
    (messages_list : list GmailCall -> jsstring -> jsstring + option (list MessageRef))
    (messages_get : list GmailCall -> jsstring -> jsstring + Message)
    (drafts_create : list GmailCall -> jsstring -> jsstring -> jsstring + Draft)
    (settling : list GmailCall -> list nat)
    (name : jsstring) (args : option DraftReplyArgs) (log : list GmailCall) :
  name <> lit "get_unread_emails" ->
  name <> lit "create_draft_reply" ->
  let handle := handleCallTool messages_list messages_get drafts_create settling in
  handle name args log
  = ({| data := inl (lit "Unknown tool: " ++ name); isError := true |}, log)
  /\ (forall args', handle (lit "get_unread_emails") args' log
                    = handle (lit "get_unread_emails") None log)
  /\ (forall e, messages_list log (lit "is:unread") = inl e ->
        handle (lit "get_unread_emails") args log
        = ({| data := inl e; isError := true |}, log ++ [listCall])).
Proof.
  intros H1 H2. cbv zeta. unfold handleCallTool, toolCase, callTool.
  repeat split.
  - destruct (JsStr.eqb name (lit "get_unread_emails")) eqn:E1;
      [apply GmailClaims.eqb_eq in E1; contradiction|].
    destruct (JsStr.eqb name (lit "create_draft_reply")) eqn:E2;
      [apply GmailClaims.eqb_eq in E2; contradiction|].
    reflexivity.
  - intros e He. cbn [JsStr.eqb]. 
    change (JsStr.eqb (lit "get_unread_emails") (lit "get_unread_emails")) with true.
    cbv iota. unfold getUnreadEmails, bind, perform. rewrite He. reflexivity.
Qed.

Lemma X16_witness :
  let handle := handleCallTool listsTwo getsTwo createsDraft1
                  MoreScenarios.settlesInListingOrder in
  handle (lit "delete_email") None []
  = ({| data := inl (lit "Unknown tool: " ++ lit "delete_email"); isError := true |},
     [])
  /\ (forall args', handle (lit "get_unread_emails") args' []
                    = handle (lit "get_unread_emails") None [])
  /\ (forall e, listsTwo [] (lit "is:unread") = inl e ->
        handle (lit "get_unread_emails") None []
        = ({| data := inl e; isError := true |}, [] ++ [listCall])).
Proof.
  apply (X16_unknown_tool_is_refused listsTwo getsTwo createsDraft1
           MoreScenarios.settlesInListingOrder
           (lit "delete_email") None []); discriminate.
Defined.

End ToolSwitchFacts.
